(** * Transaction relay engine of the Monad runner game backend

    A shallow embedding of [src/backend/Server.js] and of the second server
    file of the repository ([src/unnamed/part_000]), and the properties of
    the relay that the specification states about them.

    The relay is asynchronous JavaScript: an [async] function runs without
    interruption from one [await] to the next, and other tasks may run while
    it is suspended.  Programs are therefore embedded as resumptions
    ([Prog]): a tree whose nodes are the synchronous accesses to the
    module-level state, the lines written to the console, the HTTP replies,
    the detached promise chains and the awaited calls to the ledger network.
    The network (the [ethers] provider and nonce manager) is not part of the
    repository; it is a parameter of every definition that talks to it. *)

From stdpp Require Import base option list gmap strings pretty.
From Stdlib Require Import ZArith Lia Ascii.

Local Open Scope string_scope.
Local Open Scope Z_scope.
Set Warnings "-clear-no-such-hyp".

(** ** Values *)

(** A value that the relay stores, logs or sends: a primitive, or an object
    or array of the parsed JSON body, named by its JSON text.  The relay
    never inspects [score] and [address]: it stores them and interpolates
    them in log lines.  In [src/backend/Server.js] the values that reach
    [processTransaction] have been interpolated before: those of a request
    on the first line of the handler, those of a registry entry before the
    entry was set. *)
Inductive JsValue : Type :=
| JUndefined
| JNull
| JBool (b : bool)
| JNum (z : Z)
| JStr (s : string)
| JObject (json : string).

(** A thrown value.  The network library rejects with [Error] objects, the
    code itself throws [new Error(...)], and the runtime throws
    [TypeError]s. *)
Record Error : Type := mkError { message : string }.

(** A field of the request body, as the handler receives it.  A template
    literal converts the value to a string.  The conversion of a primitive
    always succeeds; that of an object or array runs what the object has
    under [toString] and [valueOf], and throws a [TypeError] for a body
    such as [{"score": {"toString": 1}}].  [Plain v] is a value whose
    conversion succeeds, [Opaque json] an object or array whose conversion
    throws. *)
Inductive Raw : Type :=
| Plain (v : JsValue)
| Opaque (json : string).

Definition raw_value (r : Raw) : JsValue :=
  match r with
  | Plain v => v
  | Opaque json => JObject json
  end.

Definition cannot_convert : Error :=
  mkError "Cannot convert object to primitive value".

(** [req.body]: [undefined], or an object of which the handlers read the
    fields [score] and [address]; a field that is missing reads
    [undefined]. *)
Definition Body : Type := option (Raw * Raw).

Definition cannot_destructure : Error :=
  mkError "Cannot destructure property 'score' of 'req.body' as it is undefined.".

(** A settled promise. *)
Inductive Outcome (R : Type) : Type :=
| Resolved (v : R)
| Rejected (e : Error).
Arguments Resolved {R} v.
Arguments Rejected {R} e.

(** [provider.getFeeData()]: each component is a bigint or [null]. *)
Record FeeData : Type := mkFeeData {
  maxPriorityFeePerGas : option Z;
  maxFeePerGas : option Z
}.

(** JavaScript truthiness of a [null | bigint]: [null] and [0n] are falsy. *)
Definition truthy (v : option Z) : bool :=
  match v with
  | Some z => negb (z =? 0)
  | None => false
  end.

(** The transaction request handed to [nonceManager.sendTransaction]. *)
Record Tx : Type := mkTx {
  to : JsValue;
  value : Z;
  gasLimit : Z;
  nonce : Z;
  tx_maxPriorityFeePerGas : option Z;
  tx_maxFeePerGas : option Z
}.

Record TransactionResponse : Type := mkResponse { hash : string }.

Record Receipt : Type := mkReceipt { blockNumber : Z }.

(** The value stored in [pendingTransactions]: [{ nonce, score, address }]. *)
Record Entry : Type := mkEntry {
  entry_nonce : Z;
  entry_score : JsValue;
  entry_address : JsValue
}.

(** What [processTransaction] resolves to: either
    [{ success: true, transactionHash }] or [{ success: false, error }]. *)
Inductive Result : Type :=
| Success (transactionHash : string)
| Failure (error : string).

Definition success (r : Result) : bool :=
  match r with Success _ => true | Failure _ => false end.

(** Property reads on the result object; a missing property is [undefined]. *)
Definition transactionHash_of (r : Result) : option string :=
  match r with Success h => Some h | Failure _ => None end.

Definition error_of (r : Result) : option string :=
  match r with Success _ => None | Failure m => Some m end.

(** [process.env.OWNER_WALLET] as a JavaScript value. *)
Definition env_value (v : option string) : JsValue :=
  match v with Some s => JStr s | None => JUndefined end.

(** [ethers.parseEther('0.0001')], in wei. *)
Definition parseEther_0_0001 : Z := 100000000000000.

(** ** The [Map] and the [Set] of the module *)

(** A JavaScript [Map] keeps its entries in insertion order.  [delete]
    empties the slot of the entry and leaves the slot in place, [set] on a
    present key replaces the value where it stands, [set] on an absent key
    appends a slot.  An iterator is an index into the slots, so entries that
    are appended while a [for ... of] loop runs are visited by that loop. *)
Abbreviation MapData := (list (option (string * Entry))).

Fixpoint map_get (k : string) (m : MapData) : option Entry :=
  match m with
  | [] => None
  | Some (k', v) :: m' => if String.eqb k' k then Some v else map_get k m'
  | None :: m' => map_get k m'
  end.

Fixpoint map_set (k : string) (v : Entry) (m : MapData) : MapData :=
  match m with
  | [] => [Some (k, v)]
  | Some (k', v') :: m' =>
      if String.eqb k' k then Some (k', v) :: m'
      else Some (k', v') :: map_set k v m'
  | None :: m' => None :: map_set k v m'
  end.

Fixpoint map_delete (k : string) (m : MapData) : MapData :=
  match m with
  | [] => []
  | Some (k', v') :: m' =>
      if String.eqb k' k then None :: m'
      else Some (k', v') :: map_delete k m'
  | None :: m' => None :: map_delete k m'
  end.

(** The live entries, in iteration order. *)
Definition map_entries (m : MapData) : list (string * Entry) := omap id m.

Definition map_size (m : MapData) : nat := length (map_entries m).
Arguments map_size : simpl never.

Definition map_keys (m : MapData) : list string := map fst (map_entries m).

(** The keys of a [Map] are distinct. *)
Definition map_wf (m : MapData) : Prop := NoDup (map_keys m).

(** One step of the Map iterator: from slot [index] on, the first slot that
    is not empty, with the index that follows it. *)
Fixpoint iter_from (slots : MapData) (index : nat)
  : option (nat * (string * Entry)) :=
  match slots with
  | [] => None
  | Some e :: _ => Some (S index, e)
  | None :: rest => iter_from rest (S index)
  end.

Definition map_iter_next (m : MapData) (index : nat)
  : option (nat * (string * Entry)) :=
  iter_from (drop index m) index.

(** The module-level state of the server. *)
Record State : Type := mkState {
  pendingTransactions : MapData;
  usedNonces : gset Z
}.

Definition initial_state : State :=
  {| pendingTransactions := []; usedNonces := ∅ |}.

(** ** Output *)

(** The lines written with [console.log] and [console.error], as the kind
    of the line with the values interpolated in it. *)
Inductive Console : Type :=
| LogUsingNonce (n : Z) (score : JsValue)
| LogSent (score : JsValue) (h : string)
| LogConfirmed (block : Z) (h : string)
| ErrFailedAfterSending (e : Error)
| ErrTransactionFailed (e : Error)
| LogChecking
| LogResending (h : string)
| LogAlreadyConfirmed (h : string)
| LogNoPending
| LogProcessingJump (score address : JsValue).

(** The entries of the [logs] array of a reply. *)
Inductive ReplyLog : Type :=
| ReplyScore (score : JsValue)
| ReplySender (address : JsValue)
| ReplyHash (h : string)
| ReplyStatus (ok : bool).

(** The properties that only the reply of [src/backend/Server.js] has;
    [None] is [null]. *)
Record ReplyDetails : Type := mkDetails {
  reply_transactionHash : option string;
  reply_error : option string;
  reply_logs : list ReplyLog
}.

(** The body sent with [res.status(202).send(...)]. *)
Record Reply : Type := mkReply {
  reply_status : Z;
  reply_success : bool;
  reply_message : string;
  reply_details : option ReplyDetails
}.

(** [x || null] and [x || "N/A"] on a string or [undefined]: the empty
    string is falsy. *)
Definition or_null (x : option string) : option string :=
  match x with
  | Some s => if String.eqb s "" then None else Some s
  | None => None
  end.

Definition or_else (x : option string) (d : string) : string :=
  match or_null x with Some s => s | None => d end.

(** ** Calls to the network *)

(** [SendTransaction tx] is the call [nonceManager.sendTransaction(tx)]:
    [tx] is the object that the relay hands over.  What the manager
    broadcasts is its own business; the [NonceManager] of [ethers] replaces
    the nonce of the object by a counter of its own. *)
Inductive Call : Type -> Type :=
| GetNonce : Call Z
| GetFeeData : Call FeeData
| SendTransaction (tx : Tx) : Call TransactionResponse
| Wait (h : string) : Call (option Receipt)
| GetTransactionReceipt (h : string) : Call (option Receipt).

(** What an observer of the process sees. *)
Inductive Event : Type :=
| EvConsole (l : Console)
| EvReply (r : Reply)
| EvGetNonce (o : Outcome Z)
| EvGetFeeData (o : Outcome FeeData)
| EvSend (tx : Tx) (o : Outcome TransactionResponse)
| EvWait (h : string) (o : Outcome (option Receipt))
| EvReceipt (h : string) (o : Outcome (option Receipt)).

Definition call_event {R : Type} (c : Call R) : Outcome R -> Event :=
  match c in Call T return Outcome T -> Event with
  | GetNonce => EvGetNonce
  | GetFeeData => EvGetFeeData
  | SendTransaction tx => EvSend tx
  | Wait h => EvWait h
  | GetTransactionReceipt h => EvReceipt h
  end.

(** ** Asynchronous programs *)

Inductive Prog (A : Type) : Type :=
| Ret (a : A)
| Throw (e : Error)
| Await {R : Type} (c : Call R) (k : Outcome R -> Prog A)
| Act {X : Type} (f : State -> State * X) (k : X -> Prog A)
| Print (l : Console) (k : Prog A)
| Send (r : Reply) (k : Prog A)
| Detach {R : Type} (c : Call R) (h : Outcome R -> Prog unit) (k : Prog A).
Arguments Ret {A} a.
Arguments Throw {A} e.
Arguments Await {A R} c k.
Arguments Act {A X} f k.
Arguments Print {A} l k.
Arguments Send {A} r k.
Arguments Detach {A R} c h k.

Fixpoint bind {A B : Type} (p : Prog A) (f : A -> Prog B) : Prog B :=
  match p with
  | Ret a => f a
  | Throw e => Throw e
  | Await c k => Await c (fun r => bind (k r) f)
  | Act g k => Act g (fun x => bind (k x) f)
  | Print l k => Print l (bind k f)
  | Send r k => Send r (bind k f)
  | Detach c h k => Detach c h (bind k f)
  end.

(** [try { p } catch (error) { h error }]. *)
Fixpoint try_catch {A : Type} (p : Prog A) (h : Error -> Prog A) : Prog A :=
  match p with
  | Ret a => Ret a
  | Throw e => h e
  | Await c k => Await c (fun r => try_catch (k r) h)
  | Act g k => Act g (fun x => try_catch (k x) h)
  | Print l k => Print l (try_catch k h)
  | Send r k => Send r (try_catch k h)
  | Detach c g k => Detach c g (try_catch k h)
  end.

(** [await call]: a rejection is thrown at the point of the [await]. *)
Definition await {R : Type} (c : Call R) : Prog R :=
  Await c (fun r => match r with Resolved v => Ret v | Rejected e => Throw e end).

Definition get {X : Type} (f : State -> X) : Prog X :=
  Act (fun s => (s, f s)) Ret.

Definition modify (f : State -> State) : Prog unit :=
  Act (fun s => (f s, tt)) Ret.

Definition console (l : Console) : Prog unit := Print l (Ret tt).

(** [call.then(on_fulfilled).catch(on_rejected)], not awaited: the chain
    runs when the call settles, detached from the task that built it.  The
    [catch] callback receives the rejection of the call and whatever
    [on_fulfilled] throws. *)
Definition chain {R : Type} (on_fulfilled : R -> Prog unit)
    (on_rejected : Error -> Prog unit) (r : Outcome R) : Prog unit :=
  try_catch
    (match r with Resolved v => on_fulfilled v | Rejected e => Throw e end)
    on_rejected.

Definition detach {R : Type} (c : Call R) (h : Outcome R -> Prog unit)
  : Prog unit :=
  Detach c h (Ret tt).

(** The conversion of a field of the body to a string, in a template
    literal: it gives the value back, or throws. *)
Definition convert (r : Raw) : Prog JsValue :=
  match r with
  | Plain v => Ret v
  | Opaque _ => Throw cannot_convert
  end.

(** [const { score, address } = req.body] *)
Definition destructure (body : Body) : Prog (Raw * Raw) :=
  match body with
  | Some fields => Ret fields
  | None => Throw cannot_destructure
  end.

Definition send (r : Reply) : Prog unit := Send r (Ret tt).

Declare Scope prog_scope.
Delimit Scope prog_scope with prog.
Notation "x <- p ;; q" := (bind p (fun x => q))
  (at level 100, p at next level, q at level 200, right associativity)
  : prog_scope.
Notation "p ;; q" := (bind p (fun _ => q))
  (at level 100, q at level 200, right associativity) : prog_scope.
Local Open Scope prog_scope.

(** ** Running a program *)

Definition Handler (N : Type) : Type := forall R : Type, Call R -> N -> N * Outcome R.

(** The result of running a task on its own. *)
Record Run (N A : Type) : Type := mkRun {
  run_state : State;
  run_network : N;
  run_events : list Event;
  run_detached : list (Prog unit);
  run_outcome : Outcome A
}.
Arguments mkRun {N A}.
Arguments run_state {N A}.
Arguments run_network {N A}.
Arguments run_events {N A}.
Arguments run_detached {N A}.
Arguments run_outcome {N A}.

Definition emit {N A : Type} (e : Event) (r : Run N A) : Run N A :=
  mkRun (run_state r) (run_network r) (e :: run_events r)
        (run_detached r) (run_outcome r).

Definition fork {N A : Type} (p : Prog unit) (r : Run N A) : Run N A :=
  mkRun (run_state r) (run_network r) (run_events r)
        (p :: run_detached r) (run_outcome r).

Section Running.
Context {N : Type} (handle : Handler N).

  (** The task runs to its end, every awaited call being answered by the
      network in turn; the promise chains it detaches are collected, each
      waiting for its call, and not run. *)
Fixpoint run {A : Type} (p : Prog A) (s : State) (n : N) : Run N A :=
    match p with
    | Ret a => mkRun s n [] [] (Resolved a)
    | Throw e => mkRun s n [] [] (Rejected e)
    | Await c k =>
        let (n', r) := handle _ c n in
        emit (call_event c r) (run (k r) s n')
    | Act f k => let (s', x) := f s in run (k x) s' n
    | Print l k => emit (EvConsole l) (run k s n)
    | Send r k => emit (EvReply r) (run k s n)
    | Detach c h k => fork (Await c h) (run k s n)
    end.
End Running.

(** The run of a program followed by the run of what comes after it: the
    second starts from the state and the network that the first leaves,
    unless the first rejects. *)
Definition then_run {N A B : Type} (r : Run N A)
    (k : A -> State -> N -> Run N B) : Run N B :=
  match run_outcome r with
  | Resolved a =>
      let r' := k a (run_state r) (run_network r) in
      mkRun (run_state r') (run_network r')
            (run_events r ++ run_events r')
            (run_detached r ++ run_detached r')
            (run_outcome r')
  | Rejected e =>
      mkRun (run_state r) (run_network r) (run_events r) (run_detached r)
            (Rejected e)
  end.

(** ** Tasks that interleave

    The event loop resumes one suspended task at a time: the call the task
    waits for settles, and the task runs alone until its next [await] or its
    end.  [advance] is that uninterrupted stretch. *)

Record Sync (A : Type) : Type := mkSync {
  sync_state : State;
  sync_events : list Event;
  sync_detached : list (Prog unit);
  sync_rest : Prog A
}.
Arguments mkSync {A}.
Arguments sync_state {A}.
Arguments sync_events {A}.
Arguments sync_detached {A}.
Arguments sync_rest {A}.

Fixpoint advance {A : Type} (p : Prog A) (s : State) : Sync A :=
  match p with
  | Ret _ | Throw _ | Await _ _ => mkSync s [] [] p
  | Act f k => let (s', x) := f s in advance (k x) s'
  | Print l k =>
      let a := advance k s in
      mkSync (sync_state a) (EvConsole l :: sync_events a)
             (sync_detached a) (sync_rest a)
  | Send r k =>
      let a := advance k s in
      mkSync (sync_state a) (EvReply r :: sync_events a)
             (sync_detached a) (sync_rest a)
  | Detach c h k =>
      let a := advance k s in
      mkSync (sync_state a) (sync_events a)
             (Await c h :: sync_detached a) (sync_rest a)
  end.

(** A task of the pool, whatever it resolves to. *)
Record Task : Type := mkTask { task_type : Type; task_prog : Prog task_type }.

(** The process: the module state, the network, the tasks, and what has
    been observed so far, each event with the index of the task it comes
    from. *)
Record Config (N : Type) : Type := mkConfig {
  cfg_state : State;
  cfg_network : N;
  cfg_pool : list Task;
  cfg_trace : list (nat * Event)
}.
Arguments mkConfig {N}.
Arguments cfg_state {N}.
Arguments cfg_network {N}.
Arguments cfg_pool {N}.
Arguments cfg_trace {N}.

Section Interleaving.
Context {N : Type} (handle : Handler N).

(** The call that task [i] waits for settles and the task is resumed.  The
    chains it detaches join the pool at its end. *)
Definition resume (i : nat) (c : Config N) : option (Config N) :=
  match cfg_pool c !! i with
  | Some (mkTask A (Await call k)) =>
      let (n', r) := handle _ call (cfg_network c) in
      let a := advance (k r) (cfg_state c) in
      Some (mkConfig (sync_state a) n'
              (<[i := mkTask A (sync_rest a)]> (cfg_pool c)
                 ++ map (mkTask unit) (sync_detached a))
              (cfg_trace c
                 ++ map (pair i) (call_event call r :: sync_events a)))
  | _ => None
  end.

(** A schedule names the task to resume at each turn. *)
Fixpoint exec (schedule : list nat) (c : Config N) : option (Config N) :=
  match schedule with
  | [] => Some c
  | i :: schedule' =>
      match resume i c with
      | Some c' => exec schedule' c'
      | None => None
      end
  end.
End Interleaving.

(** Calling the async functions [calls] one after the other, before any of
    them is resumed: each runs up to its first [await].  Call [i] is task
    [i] of the pool; the chains that the calls detach meanwhile come after
    the calls. *)
Fixpoint start_from {N A : Type} (calls : list (Prog A))
    (detached : list (Prog unit)) (c : Config N) : Config N :=
  match calls with
  | [] =>
      mkConfig (cfg_state c) (cfg_network c)
               (cfg_pool c ++ map (mkTask unit) detached) (cfg_trace c)
  | p :: calls' =>
      let a := advance p (cfg_state c) in
      start_from calls' (detached ++ sync_detached a)
        (mkConfig (sync_state a) (cfg_network c)
           (cfg_pool c ++ [mkTask A (sync_rest a)])
           (cfg_trace c ++ map (pair (length (cfg_pool c))) (sync_events a)))
  end.

Definition start {N A : Type} (calls : list (Prog A)) (s : State) (n : N)
  : Config N :=
  start_from calls [] (mkConfig s n [] []).

(** The task that has settled with the outcome [o]. *)
Definition settled_task {A : Type} (o : Outcome A) : Prog A :=
  match o with Resolved a => Ret a | Rejected e => Throw e end.

(** The events of task [i], in order. *)
Definition task_events (i : nat) (trace : list (nat * Event)) : list Event :=
  map snd (filter (fun e => fst e = i) trace).

(** ** Monitors

    A monitor reads the events of one task and says which of them it
    allows.  [obeys M m p] holds when every event that [p] can produce,
    whatever the state it finds and whatever the network answers, is allowed
    by the monitor started in [m]; a detached chain has a monitor of its
    own. *)

Record Monitor : Type := mkMonitor {
  mon : Type;
  mon_init : mon;
  mon_ok : mon -> Event -> Prop;
  mon_next : mon -> Event -> mon
}.

Fixpoint accepts (M : Monitor) (m : mon M) (events : list Event) : Prop :=
  match events with
  | [] => True
  | e :: events' => mon_ok M m e /\ accepts M (mon_next M m e) events'
  end.

Definition mon_after (M : Monitor) (m : mon M) (events : list Event) : mon M :=
  fold_left (mon_next M) events m.

Fixpoint obeys (M : Monitor) {A : Type} (m : mon M) (p : Prog A) : Prop :=
  match p with
  | Ret _ | Throw _ => True
  | Await c k =>
      forall r, mon_ok M m (call_event c r)
                /\ obeys M (mon_next M m (call_event c r)) (k r)
  | Act f k => forall x, obeys M m (k x)
  | Print l k =>
      mon_ok M m (EvConsole l) /\ obeys M (mon_next M m (EvConsole l)) k
  | Send r k =>
      mon_ok M m (EvReply r) /\ obeys M (mon_next M m (EvReply r)) k
  | Detach c h k =>
      (forall r, mon_ok M (mon_init M) (call_event c r)
                 /\ obeys M (mon_next M (mon_init M) (call_event c r)) (h r))
      /\ obeys M m k
  end.


(** Every task of the pool obeys the monitor from where its own events
    have taken it, and the indices past the pool have no event yet. *)
Definition pool_obeys {N : Type} (M : Monitor) (c : Config N) : Prop :=
  (forall i t, cfg_pool c !! i = Some t ->
     accepts M (mon_init M) (task_events i (cfg_trace c))
     /\ obeys M (mon_after M (mon_init M) (task_events i (cfg_trace c)))
              (task_prog t))
  /\ (forall i, (length (cfg_pool c) <= i)%nat ->
                task_events i (cfg_trace c) = []).

(** ** [src/backend/Server.js] *)

Module Backend.
Section Server.
  (** [process.env.OWNER_WALLET]; an unset variable reads as [undefined]. *)
Variable OWNER_WALLET : option string.

  (** The callbacks of [transactionResponse.wait().then(...).catch(...)].
      Reading [receipt.blockNumber] of a [null] receipt throws inside
      [then]. *)
Definition watch (h : string) : Outcome (option Receipt) -> Prog unit :=
    chain
      (fun receipt =>
         match receipt with
         | Some r =>
             console (LogConfirmed (blockNumber r) h) ;;
             modify (fun s => mkState (map_delete h (pendingTransactions s))
                                      (usedNonces s))
         | None =>
             Throw (mkError
               "Cannot read properties of null (reading 'blockNumber')")
         end)
      (fun error => console (ErrFailedAfterSending error)).

Definition processTransaction (score address : JsValue) : Prog Result :=
    try_catch
      (nonce <- await GetNonce ;;
       seen <- get (fun s => bool_decide (nonce ∈ usedNonces s)) ;;
       (if negb seen
        then console (LogUsingNonce nonce score) ;;
             modify (fun s => mkState (pendingTransactions s)
                                      ({[nonce]} ∪ usedNonces s))
        else Ret tt) ;;
       feeData <- await GetFeeData ;;
       (if negb (truthy (maxPriorityFeePerGas feeData))
           || negb (truthy (maxFeePerGas feeData))
        then Throw (mkError "⚠️ Could not fetch gas fee data.")
        else Ret tt) ;;
       let tx := {| to := env_value OWNER_WALLET;
                    value := parseEther_0_0001;
                    gasLimit := 21000;
                    nonce := nonce;
                    tx_maxPriorityFeePerGas := maxPriorityFeePerGas feeData;
                    tx_maxFeePerGas := maxFeePerGas feeData |} in
       transactionResponse <- await (SendTransaction tx) ;;
       console (LogSent score (hash transactionResponse)) ;;
       modify (fun s =>
         mkState (map_set (hash transactionResponse)
                          (mkEntry nonce score address)
                          (pendingTransactions s))
                 (usedNonces s)) ;;
       detach (Wait (hash transactionResponse))
              (watch (hash transactionResponse)) ;;
       Ret (Success (hash transactionResponse)))
      (fun error =>
         console (ErrTransactionFailed error) ;;
         Ret (Failure (message error))).

  (** The body of the [for ... of] loop, for the entry [[txHash, data]];
      it gives the new value of [foundPending]. *)
Definition retry_visit (txHash : string) (data : Entry) (foundPending : bool)
    : Prog bool :=
    receipt <- await (GetTransactionReceipt txHash) ;;
    match receipt with
    | None =>
        console (LogResending txHash) ;;
        _ <- processTransaction (entry_score data) (entry_address data) ;;
        Ret true
    | Some _ =>
        console (LogAlreadyConfirmed txHash) ;;
        modify (fun s => mkState (map_delete txHash (pendingTransactions s))
                                 (usedNonces s)) ;;
        Ret foundPending
    end.

  (** The loop over [pendingTransactions], from iterator position [index].
      [fuel] bounds the number of entries visited: the loop has no bound of
      its own, since the entries that the visits append are visited too.
      [None] says that the bound was reached. *)
Fixpoint retry_loop (fuel index : nat) (foundPending : bool)
    : Prog (option bool) :=
    next <- get (fun s => map_iter_next (pendingTransactions s) index) ;;
    match next with
    | None => Ret (Some foundPending)
    | Some (index', (txHash, data)) =>
        match fuel with
        | O => Ret None
        | S fuel' =>
            foundPending' <- retry_visit txHash data foundPending ;;
            retry_loop fuel' index' foundPending'
        end
    end.

Definition retryPendingTransactions (fuel : nat) : Prog (option unit) :=
    console LogChecking ;;
    done <- retry_loop fuel 0 false ;;
    match done with
    | None => Ret None
    | Some foundPending =>
        (if negb foundPending then console LogNoPending else Ret tt) ;;
        Ret (Some tt)
    end.

  (** The handler of [POST /jump].  Its first two lines are outside any
      [try]: the destructuring of an [undefined] body throws, and so does
      the template literal of the first log line when [score] or [address]
      does not convert to a string.  The promise of the handler then
      rejects, before anything else is done. *)
Definition jump (body : Body) : Prog unit :=
    fields <- destructure body ;;
    score <- convert (fst fields) ;;
    address <- convert (snd fields) ;;
    console (LogProcessingJump score address) ;;
    transactionData <- processTransaction score address ;;
    send {| reply_status := 202;
            reply_success := success transactionData;
            reply_message :=
              if success transactionData
              then "Transaction sent successfully."
              else "Transaction failed.";
            reply_details := Some
              {| reply_transactionHash :=
                   or_null (transactionHash_of transactionData);
                 reply_error := or_null (error_of transactionData);
                 reply_logs :=
                   [ ReplyScore score;
                     ReplySender address;
                     ReplyHash
                       (or_else (transactionHash_of transactionData) "N/A");
                     ReplyStatus (success transactionData) ] |} |}.
End Server.
End Backend.

(** ** A scripted network

    A network that answers the nonce, fee and broadcast calls from lists
    prepared in advance, one answer per call, and the waits and the receipt
    queries from two tables.  It serves to run the relay on concrete
    scenarios. *)

Module Script.
Record Net : Type := mkNet {
  nonces : list (Outcome Z);
  fees : list (Outcome FeeData);
  sends : list (Outcome TransactionResponse)
}.

Definition offline {R : Type} : Outcome R := Rejected (mkError "network error").

Definition handle (waits receipts : string -> Outcome (option Receipt))
  : Handler Net := fun R c =>
  match c in Call T return Net -> Net * Outcome T with
  | GetNonce => fun n =>
      match nonces n with
      | o :: rest => (mkNet rest (fees n) (sends n), o)
      | [] => (n, offline)
      end
  | GetFeeData => fun n =>
      match fees n with
      | o :: rest => (mkNet (nonces n) rest (sends n), o)
      | [] => (n, offline)
      end
  | SendTransaction _ => fun n =>
      match sends n with
      | o :: rest => (mkNet (nonces n) (fees n) rest, o)
      | [] => (n, offline)
      end
  | Wait h => fun n => (n, waits h)
  | GetTransactionReceipt h => fun n => (n, receipts h)
  end.
End Script.

(** ** The second server file, [src/unnamed/part_000]

    Its [processTransaction] differs from the one above in the destination
    of the transaction, and its [POST /jump] handler replies before the
    transaction is processed.  The handler hands the fields of the body to
    [processTransaction] as they are: [score] is converted to a string in
    the two log lines of the [try] block, where the [catch] block receives
    the [TypeError]; [address] is never converted. *)

Module Unnamed.
Definition watch (h : string) : Outcome (option Receipt) -> Prog unit :=
  chain
    (fun receipt =>
       match receipt with
       | Some r =>
           console (LogConfirmed (blockNumber r) h) ;;
           modify (fun s => mkState (map_delete h (pendingTransactions s))
                                    (usedNonces s))
       | None =>
           Throw (mkError
             "Cannot read properties of null (reading 'blockNumber')")
       end)
    (fun error => console (ErrFailedAfterSending error)).

Definition processTransaction (score : Raw) (address : JsValue)
  : Prog Result :=
  try_catch
    (nonce <- await GetNonce ;;
     seen <- get (fun s => bool_decide (nonce ∈ usedNonces s)) ;;
     (if negb seen
      then shown <- convert score ;;
           console (LogUsingNonce nonce shown) ;;
           modify (fun s => mkState (pendingTransactions s)
                                    ({[nonce]} ∪ usedNonces s))
      else Ret tt) ;;
     feeData <- await GetFeeData ;;
     (if negb (truthy (maxPriorityFeePerGas feeData))
         || negb (truthy (maxFeePerGas feeData))
      then Throw (mkError "⚠️ Could not fetch gas fee data.")
      else Ret tt) ;;
     let tx := {| to := address;
                  value := parseEther_0_0001;
                  gasLimit := 21000;
                  nonce := nonce;
                  tx_maxPriorityFeePerGas := maxPriorityFeePerGas feeData;
                  tx_maxFeePerGas := maxFeePerGas feeData |} in
     transactionResponse <- await (SendTransaction tx) ;;
     shown <- convert score ;;
     console (LogSent shown (hash transactionResponse)) ;;
     modify (fun s =>
       mkState (map_set (hash transactionResponse)
                        (mkEntry nonce (raw_value score) address)
                        (pendingTransactions s))
               (usedNonces s)) ;;
     detach (Wait (hash transactionResponse))
            (watch (hash transactionResponse)) ;;
     Ret (Success (hash transactionResponse)))
    (fun error =>
       console (ErrTransactionFailed error) ;;
       Ret (Failure (message error))).

(** The handler of [POST /jump].  The destructuring of an [undefined]
    body throws, outside any [try].  [processTransaction(score, address)]
    is called next and is suspended at once, on its first [await]; the
    reply is sent while it is suspended, and the handler then awaits it. *)
Definition jump (body : Body) : Prog unit :=
  fields <- destructure body ;;
  send {| reply_status := 202;
          reply_success := true;
          reply_message := "Transaction queued for processing.";
          reply_details := None |} ;;
  _ <- processTransaction (fst fields) (raw_value (snd fields)) ;;
  Ret tt.
End Unnamed.

(** ** A counting network

    The nonce manager of [ethers] in front of a chain that includes every
    transaction at once.  [nonceManager.getNonce()] asks the chain for the
    number of transactions of the signing key that it has included
    ([count]): the answer moves when a transaction is broadcast, and only
    then.  [nonceManager.sendTransaction(tx)] does not broadcast [tx] as it
    is handed over: it replaces the nonce by its own counter, which is
    the count it read at its first call plus the number of its calls since,
    here [count] again.  [sent] lists the transactions as they are
    broadcast. *)

Module Ledger.
Record Net : Type := mkNet { count : Z; sent : list Tx }.

Definition handle : Handler Net := fun R c =>
  match c in Call T return Net -> Net * Outcome T with
  | GetNonce => fun n => (n, Resolved (count n))
  | GetFeeData => fun n => (n, Resolved (mkFeeData (Some 1) (Some 10)))
  | SendTransaction tx => fun n =>
      let broadcast :=
        mkTx (to tx) (value tx) (gasLimit tx) (count n)
             (tx_maxPriorityFeePerGas tx) (tx_maxFeePerGas tx) in
      (mkNet (count n + 1) (sent n ++ [broadcast]),
       Resolved (mkResponse ("0x" +:+ pretty (count n))))
  | Wait _ => fun n => (n, Resolved (Some (mkReceipt 1)))
  | GetTransactionReceipt _ => fun n => (n, Resolved (Some (mkReceipt 1)))
  end.
End Ledger.

(** ** Scenarios *)

(** The scenario of the specification: sequence number 7, the fee quote
    [{priority: 1, max: 10}], and a broadcast that gives the hash
    ["0xHASH"]. *)
Definition quote : FeeData := mkFeeData (Some 1) (Some 10).

Definition demo_net : Script.Net :=
  Script.mkNet [Resolved 7] [Resolved quote] [Resolved (mkResponse "0xHASH")].

Definition included : string -> Outcome (option Receipt) :=
  fun _ => Resolved (Some (mkReceipt 100)).

Definition unknown : string -> Outcome (option Receipt) :=
  fun _ => Resolved None.

Definition demo_handle : Handler Script.Net := Script.handle included unknown.

Definition demo_tx : Tx :=
  mkTx (JStr "0xOWNER") parseEther_0_0001 21000 7 (Some 1) (Some 10).

(** A fee quote without its priority component. *)
Definition no_priority_net : Script.Net :=
  Script.mkNet [Resolved 7] [Resolved (mkFeeData None (Some 10))]
    [Resolved (mkResponse "0xHASH")].

(** A sequencer that cannot be reached. *)
Definition no_nonce_net : Script.Net :=
  Script.mkNet [Rejected (mkError "could not read the sequence number")]
    [Resolved quote] [Resolved (mkResponse "0xHASH")].

(** A registry with one entry, ["0xOLD"]. *)
Definition old_entry : Entry := mkEntry 7 (JNum 42) (JStr "0xABC").

Definition one_pending : State :=
  mkState [Some ("0xOLD", old_entry)] ∅.

(** The network knows no receipt for ["0xOLD"] nor for ["0xNEW"]; the first
    resend is broadcast as ["0xNEW"], the second is refused. *)
Definition lost_net : Script.Net :=
  Script.mkNet [Resolved 8; Resolved 9] [Resolved quote; Resolved quote]
    [Resolved (mkResponse "0xNEW");
     Rejected (mkError "insufficient funds")].

(** A registry with a confirmed entry and a lost one. *)
Definition two_pending : State :=
  mkState [Some ("0xDONE", mkEntry 5 (JNum 10) (JStr "0xAAA"));
           Some ("0xLOST", mkEntry 6 (JNum 20) (JStr "0xBBB"))] ∅.

Definition done_only : string -> Outcome (option Receipt) :=
  fun h => if String.eqb h "0xDONE" then Resolved (Some (mkReceipt 100))
           else Resolved None.

Definition refusing_net : Script.Net :=
  Script.mkNet [Resolved 8] [Resolved quote]
    [Rejected (mkError "insufficient funds")].

(** Two calls of [processTransaction], in each server file. *)
Definition two_args : list (JsValue * JsValue) :=
  [ (JNum 1, JStr "0xA"); (JNum 2, JStr "0xB") ].

Definition backend_calls (OWNER_WALLET : option string)
    (args : list (JsValue * JsValue)) : list (Prog Result) :=
  map (fun a => Backend.processTransaction OWNER_WALLET (fst a) (snd a)) args.

Definition unnamed_calls (args : list (Raw * JsValue))
  : list (Prog Result) :=
  map (fun a => Unnamed.processTransaction (fst a) (snd a)) args.

(** The same two calls, and a third whose score does not convert to a
    string. *)
Definition raw_args : list (Raw * JsValue) :=
  [ (Plain (JNum 1), JStr "0xA"); (Plain (JNum 2), JStr "0xB");
    (Opaque "{toString:1}", JStr "0xC") ].





(** The network answers the receipt queries of a pass from one table:
    what it knows of a transaction does not change while the pass runs. *)
Definition answers_receipts {N : Type} (handle : Handler N)
    (receipts : string -> Outcome (option Receipt)) : Prop :=
  forall (h : string) (n : N),
    snd (handle _ (GetTransactionReceipt h) n) = receipts h.

(** The entries that stand before slot [index] have no receipt. *)
Definition settled (receipts : string -> Outcome (option Receipt))
    (m : MapData) (index : nat) : Prop :=
  forall (i : nat) (k : string) (v : Entry),
    (i < index)%nat -> m !! i = Some (Some (k, v)) ->
    receipts k = Resolved None.

(** Each call of [processTransaction] starts with one [getNonce] call, and
    nothing else calls [getNonce]: the calls of [processTransaction] in a
    run are counted by its nonce queries. *)
Definition is_nonce_query (e : Event) : bool :=
  match e with
  | EvGetNonce _ => true
  | _ => false
  end.

Definition invocations (events : list Event) : nat :=
  length (List.filter is_nonce_query events).

(** The line that the pass writes before it calls [processTransaction]. *)
Definition is_resend_line (e : Event) : bool :=
  match e with
  | EvConsole (LogResending _) => true
  | _ => false
  end.

Definition resends (events : list Event) : nat :=
  length (List.filter is_resend_line events).


(** The console line that [usedNonces] gates. *)
Definition is_nonce_line (e : Event) : bool :=
  match e with
  | EvConsole (LogUsingNonce _ _) => true
  | _ => false
  end.

Definition without_nonce_lines (events : list Event) : list Event :=
  List.filter (fun e => negb (is_nonce_line e)) events.

(** ** Configuration and static routes *)

(** A string or [undefined] is falsy when it is [undefined] or empty. *)
Definition falsy (v : option string) : bool :=
  match v with
  | Some s => String.eqb s ""
  | None => true
  end.

(** [String(v)] for a string or [undefined]. *)
Definition to_string (v : option string) : string :=
  match v with Some s => s | None => "undefined" end.

(** [s.startsWith(p)], with what follows the prefix. *)
Fixpoint strip_prefix (p s : string) : option string :=
  match p with
  | EmptyString => Some s
  | String a p' =>
      match s with
      | String b s' => if Ascii.eqb a b then strip_prefix p' s' else None
      | EmptyString => None
      end
  end.

(** The first occurrence of [p] in [s]: what stands before it and what
    stands after it. *)
Fixpoint split_first (p s : string) : option (string * string) :=
  match strip_prefix p s with
  | Some rest => Some (EmptyString, rest)
  | None =>
      match s with
      | EmptyString => None
      | String c s' =>
          match split_first p s' with
          | Some (before, after) => Some (String c before, after)
          | None => None
          end
      end
  end.

(** The replacement text of [String.prototype.replace] for a string
    pattern, which captures nothing: [$$] is a dollar, [$&] the match,
    [$`] what stands before the match and [$'] what stands after it; any
    other dollar stands for itself. *)
Fixpoint get_substitution (matched before after replacement : string)
  : string :=
  match replacement with
  | EmptyString => EmptyString
  | String c r =>
      if Ascii.eqb c "$"%char then
        match r with
        | EmptyString => String c EmptyString
        | String d r' =>
            if Ascii.eqb d "$"%char then
              String d (get_substitution matched before after r')
            else if Ascii.eqb d "&"%char then
              matched +:+ get_substitution matched before after r'
            else if Ascii.eqb d "`"%char then
              before +:+ get_substitution matched before after r'
            else if Ascii.eqb d "'"%char then
              after +:+ get_substitution matched before after r'
            else String c (get_substitution matched before after r)
        end
      else String c (get_substitution matched before after r)
  end.

(** [s.replace(searchValue, replaceValue)] for two strings: the first
    occurrence only. *)
Definition js_replace (searchValue replaceValue s : string) : string :=
  match split_first searchValue s with
  | None => s
  | Some (before, after) =>
      before
        +:+ get_substitution searchValue before after replaceValue
        +:+ after
  end.

(** The variables of [process.env] that the servers read, besides
    [OWNER_WALLET]; a variable that is not set reads as [undefined]. *)
Module Env.
Record t : Type := make {
  PRIVATE_KEY : option string;
  PORT : option string;
  API_URL : option string;
  API_URL_PROD : option string;
  FRONTEND_URL_LOCAL : option string;
  FRONTEND_URL_PROD : option string
}.
End Env.

(** The top of [src/backend/Server.js]. *)
Module BackendSetup.
Section Setup.
Variable env : Env.t.

(** The check of [PRIVATE_KEY], which throws while the module loads. *)
Definition check_private_key : Outcome unit :=
  if falsy (Env.PRIVATE_KEY env)
  then Rejected (mkError "⚠️ PRIVATE_KEY is missing or not loaded!")
  else Resolved tt.

(** [process.env.PORT || 3000] *)
Definition port : JsValue :=
  if falsy (Env.PORT env) then JNum 3000 else JStr (to_string (Env.PORT env)).

(** [process.env.PORT === "3000" ? process.env.API_URL
                                  : process.env.API_URL_PROD] *)
Definition API_URL : option string :=
  if bool_decide (Env.PORT env = Some "3000")
  then Env.API_URL env
  else Env.API_URL_PROD env.

Definition allowedOrigins : list (option string) :=
  [ Env.FRONTEND_URL_LOCAL env; Env.FRONTEND_URL_PROD env ].

(** [corsOptions.origin]: what it hands to its callback, [callback(null,
    true)] or [callback(new Error(...))].  [origin] is [undefined] for a
    request without the header. *)
Definition origin (o : option string) : Outcome bool :=
  if falsy o || bool_decide (o ∈ allowedOrigins)
  then Resolved true
  else Rejected (mkError "⚠️ CORS policy: Unauthorized request!").

(** The handler of [GET /], for what [fs.readFileSync] gives: the page it
    sends, or the error that the read throws. *)
Definition index (file : Outcome string) : Outcome string :=
  match file with
  | Resolved html => Resolved (js_replace "{{API_URL}}" (to_string API_URL) html)
  | Rejected e => Rejected e
  end.

(** The handler of [GET /config]: the [api_url] of the JSON it sends. *)
Definition config : option string := API_URL.
End Setup.
End BackendSetup.

(** The top of [src/unnamed/part_000]. *)
Module UnnamedSetup.
Section Setup.
Variable env : Env.t.

Definition check_private_key : Outcome unit :=
  if falsy (Env.PRIVATE_KEY env)
  then Rejected (mkError "⚠️ PRIVATE_KEY is missing or not loaded!")
  else Resolved tt.

Definition port : JsValue :=
  if falsy (Env.PORT env) then JNum 3000 else JStr (to_string (Env.PORT env)).

(** The handler of [GET /]; the page gets
    [process.env.API_URL_PROD || 'http://localhost:3000']. *)
Definition index (file : Outcome string) : Outcome string :=
  match file with
  | Resolved html =>
      Resolved
        (js_replace "{{API_URL}}"
           (if falsy (Env.API_URL_PROD env) then "http://localhost:3000"
            else to_string (Env.API_URL_PROD env))
           html)
  | Rejected e => Rejected e
  end.
End Setup.
End UnnamedSetup.

(** ** More predicates on programs and traces *)

(** No execution of the program ends in a rejection, whatever the state
    and the answers of the network; nor does any chain that it detaches. *)
Fixpoint never_throws {A : Type} (p : Prog A) : Prop :=
  match p with
  | Ret _ => True
  | Throw _ => False
  | Await c k => forall r, never_throws (k r)
  | Act f k => forall x, never_throws (k x)
  | Print _ k => never_throws k
  | Send _ k => never_throws k
  | Detach c h k => (forall r, never_throws (h r)) /\ never_throws k
  end.

Definition rejected (t : Task) : Prop :=
  match task_prog t with Throw _ => True | _ => False end.

(** The bodies that the first lines of each handler refuse: in
    [src/backend/Server.js] a missing body and a body whose [score] or
    [address] does not convert to a string, in the second server file a
    missing body. *)
Definition refused_by_backend (body : Body) : Prop :=
  match body with
  | Some (Plain _, Plain _) => False
  | _ => True
  end.

Definition refused_by_unnamed (body : Body) : Prop := body = None.

Definition refused_at (refused : Body -> Prop) (bodies : list Body)
    (i : nat) : Prop :=
  exists body, bodies !! i = Some body /\ refused body.

(** Each task of the pool either never ends in a rejection, or has
    ended in one and is one of the tasks [bad]. *)
Definition pool_settles (bad : nat -> Prop) (pool : list Task) : Prop :=
  forall i t,
    pool !! i = Some t ->
    (never_throws (task_prog t) /\ ~ bad i) \/ (rejected t /\ bad i).

(** How far a task is in the calls of a relay attempt. *)
Inductive Stage : Type :=
| AtStart
| HasNonce (v : Z)
| HasFee (v : Z) (fee : FeeData)
| Finished.

(** The order of the calls of a task: the nonce, then the fee quote, then
    the broadcast, of a transaction that carries that nonce and that
    quote, whose two components are truthy; or, for a chain, the wait
    alone.  No receipt query and no reply. *)
Definition protocol_monitor : Monitor :=
  {| mon := Stage;
     mon_init := AtStart;
     mon_ok := fun m e =>
       match e with
       | EvConsole _ => True
       | EvReply _ => False
       | EvGetNonce _ => m = AtStart
       | EvGetFeeData _ => exists v, m = HasNonce v
       | EvSend tx _ =>
           exists fee,
             m = HasFee (nonce tx) fee
             /\ truthy (maxPriorityFeePerGas fee) = true
             /\ truthy (maxFeePerGas fee) = true
             /\ tx_maxPriorityFeePerGas tx = maxPriorityFeePerGas fee
             /\ tx_maxFeePerGas tx = maxFeePerGas fee
       | EvWait _ _ => m = AtStart
       | EvReceipt _ _ => False
       end;
     mon_next := fun m e =>
       match e with
       | EvConsole _ => m
       | EvReply _ => m
       | EvGetNonce (Resolved v) => HasNonce v
       | EvGetFeeData (Resolved fee) =>
           match m with HasNonce v => HasFee v fee | _ => Finished end
       | _ => Finished
       end |}.

(** What [protocol_monitor] says of a trace, task by task. *)
Definition follows_protocol (trace : list (nat * Event)) : Prop :=
  (forall i tx o,
     In (i, EvSend tx o) trace ->
     exists fee,
       In (i, EvGetFeeData (Resolved fee)) trace
       /\ In (i, EvGetNonce (Resolved (nonce tx))) trace
       /\ truthy (maxPriorityFeePerGas fee) = true
       /\ truthy (maxFeePerGas fee) = true
       /\ tx_maxPriorityFeePerGas tx = maxPriorityFeePerGas fee
       /\ tx_maxFeePerGas tx = maxFeePerGas fee)
  /\ (forall i tx o tx' o',
        In (i, EvSend tx o) trace -> In (i, EvSend tx' o') trace ->
        tx = tx' /\ o = o')
  /\ (forall i o o',
        In (i, EvGetFeeData o) trace -> In (i, EvGetFeeData o') trace ->
        o = o')
  /\ (forall i h o, ~ In (i, EvReceipt h o) trace).

(** A network that accepts every broadcast, each under a hash that it has
    never given, and that has mined nothing: [old n k] says that the
    network, from [n] on, does not give [k] as the hash of a broadcast. *)
Record never_mines {N : Type} (handle : Handler N)
    (old : N -> string -> Prop) : Prop := {
  answers_nonce :
    forall n, exists v, snd (handle _ GetNonce n) = Resolved v;
  answers_fee :
    forall n, exists fee,
      snd (handle _ GetFeeData n) = Resolved fee
      /\ truthy (maxPriorityFeePerGas fee) = true
      /\ truthy (maxFeePerGas fee) = true;
  answers_send :
    forall n tx, exists response,
      snd (handle _ (SendTransaction tx) n) = Resolved response
      /\ ~ old n (hash response)
      /\ old (fst (handle _ (SendTransaction tx) n)) (hash response);
  answers_no_receipt :
    forall n h, snd (handle _ (GetTransactionReceipt h) n) = Resolved None;
  old_stays :
    forall (R : Type) (c : Call R) n k,
      old n k -> old (fst (handle R c n)) k
}.

(** A counting network on which nothing is mined. *)
Module Slow.
Record Net : Type := mkNet { count : Z }.

Definition handle : Handler Net := fun R c =>
  match c in Call T return Net -> Net * Outcome T with
  | GetNonce => fun n => (n, Resolved (count n))
  | GetFeeData => fun n => (n, Resolved (mkFeeData (Some 1) (Some 10)))
  | SendTransaction _ => fun n =>
      (mkNet (count n + 1), Resolved (mkResponse ("0xN" +:+ pretty (count n))))
  | Wait _ => fun n => (n, Resolved None)
  | GetTransactionReceipt _ => fun n => (n, Resolved None)
  end.

Definition old (n : Net) (k : string) : Prop :=
  forall c : Z, count n <= c -> k ≠ "0xN" +:+ pretty c.
End Slow.

(** A call that resolves to a failure has left the registry as it was,
    has detached nothing, and no broadcast of it has succeeded. *)
Definition fails_cleanly {N : Type} (s : State) (r : Run N Result) : Prop :=
  forall m,
    run_outcome r = Resolved (Failure m) ->
    pendingTransactions (run_state r) = pendingTransactions s
    /\ run_detached r = []
    /\ (forall tx response,
          ~ In (EvSend tx (Resolved response)) (run_events r)).

(** What a call does to [usedNonces]: the set only grows; a nonce that the
    sequencer answers is in the set afterwards, whatever becomes of the
    call, and the line "Using Nonce" is written exactly when it was not in
    the set before; a call that gets no nonce leaves the set as it was. *)
Definition marks_nonce {N : Type} (score : JsValue) (s : State)
    (r : Run N Result) : Prop :=
  usedNonces s ⊆ usedNonces (run_state r)
  /\ (forall v,
        In (EvGetNonce (Resolved v)) (run_events r) ->
        usedNonces (run_state r) = {[ v ]} ∪ usedNonces s
        /\ (In (EvConsole (LogUsingNonce v score)) (run_events r)
            <-> v ∉ usedNonces s))
  /\ ((forall v, ~ In (EvGetNonce (Resolved v)) (run_events r)) ->
      usedNonces (run_state r) = usedNonces s).

(** A call that resolves to a failure has left the registry as it was and
    has detached nothing. *)
Definition fails_quietly {N : Type} (s : State) (r : Run N Result) : Prop :=
  forall m,
    run_outcome r = Resolved (Failure m) ->
    pendingTransactions (run_state r) = pendingTransactions s
    /\ run_detached r = [].

(** The one way in which a call with the score [score] fails after a
    broadcast of it has succeeded: the score does not convert to a string,
    and the nonce was in [usedNonces] already, so that the first line that
    converts the score is the one written after the broadcast.  The call
    then fails on the [TypeError]. *)
Definition fails_after_broadcast_only_unconverted {N : Type} (score : Raw)
    (s : State) (r : Run N Result) : Prop :=
  forall m tx response,
    run_outcome r = Resolved (Failure m) ->
    In (EvSend tx (Resolved response)) (run_events r) ->
    (exists json, score = Opaque json)
    /\ m = message cannot_convert
    /\ nonce tx ∈ usedNonces s.

(** The call leaves [usedNonces] as it was and writes no "Using Nonce"
    line. *)
Definition leaves_nonces {N : Type} (s : State) (r : Run N Result) : Prop :=
  usedNonces (run_state r) = usedNonces s
  /\ forall v score, ~ In (EvConsole (LogUsingNonce v score)) (run_events r).

(** The events of a trace that are not console lines. *)
Definition is_call (e : Event) : bool :=
  match e with EvConsole _ => false | _ => true end.

Definition calls_of (events : list Event) : list Event :=
  List.filter is_call events.

(** The transaction [tx] carries the nonce [v] and the quote [fee], whose
    components are truthy. *)
Definition built_from (v : Z) (fee : FeeData) (tx : Tx) : Prop :=
  nonce tx = v
  /\ truthy (maxPriorityFeePerGas fee) = true
  /\ truthy (maxFeePerGas fee) = true
  /\ tx_maxPriorityFeePerGas tx = maxPriorityFeePerGas fee
  /\ tx_maxFeePerGas tx = maxFeePerGas fee.

(** Requests to [POST /jump], in each server file. *)
Definition backend_requests (OWNER_WALLET : option string)
    (bodies : list Body) : list (Prog unit) :=
  map (Backend.jump OWNER_WALLET) bodies.

Definition unnamed_requests (bodies : list Body) : list (Prog unit) :=
  map Unnamed.jump bodies.

(** Three requests: one that is well formed, one whose score does not
    convert to a string, one without a body. *)
Definition mixed_bodies : list Body :=
  [ Some (Plain (JNum 1), Plain (JStr "0xA"));
    Some (Opaque "{toString:1}", Plain (JStr "0xB"));
    None ].

(** Two requests with the arguments of [two_args]. *)
Definition two_bodies : list Body :=
  [ Some (Plain (JNum 1), Plain (JStr "0xA"));
    Some (Plain (JNum 2), Plain (JStr "0xB")) ].

(** The receipt of ["0xDONE"] is known; the query for any other hash
    fails. *)
Definition done_then_offline : string -> Outcome (option Receipt) :=
  fun h => if String.eqb h "0xDONE" then Resolved (Some (mkReceipt 100))
           else Rejected (mkError "timeout").

(** A registry of three entries, the second of which cannot be queried. *)
Definition three_pending : State :=
  mkState [Some ("0xDONE", mkEntry 5 (JNum 10) (JStr "0xAAA"));
           Some ("0xLOST", mkEntry 6 (JNum 20) (JStr "0xBBB"));
           Some ("0xLAST", mkEntry 7 (JNum 30) (JStr "0xCCC"))] ∅.

(** What a pass does over entries that all have a receipt: for each key, in
    order, the receipt query and the line "already confirmed". *)
Definition confirmed_visits (receipts : string -> Outcome (option Receipt))
    (keys : list string) : list Event :=
  flat_map (fun k => [EvReceipt k (receipts k);
                      EvConsole (LogAlreadyConfirmed k)]) keys.

(** The wait for the inclusion of a transaction settles in the same way
    whenever it is asked: [waits h] is what [wait()] gives for [h]. *)
Definition answers_waits {N : Type} (handle : Handler N)
    (waits : string -> Outcome (option Receipt)) : Prop :=
  forall (h : string) (n : N), snd (handle _ (Wait h) n) = waits h.

(** The chains that the calls of [processTransaction] detach, in each
    server file. *)
Definition detached_by {N S : Type} (handle : Handler N)
    (call : S -> JsValue -> Prog Result) (t : Prog unit) : Prop :=
  exists score address s n,
    In t (run_detached (run handle (call score address) s n)).

(** [t] is the chain of some call of [processTransaction], in one of the
    two server files. *)
Definition confirmation_chain {N : Type} (handle : Handler N)
    (OWNER_WALLET : option string) (t : Prog unit) : Prop :=
  detached_by handle (Backend.processTransaction OWNER_WALLET) t
  \/ detached_by handle Unnamed.processTransaction t.

(** A call whose broadcast succeeded under a hash that was not in the
    registry, followed by its chain when the wait resolves with a receipt:
    the registry has the entries it had before the call. *)
Definition restores_the_entries {N : Type} (handle : Handler N) (s : State)
    (r : Run N Result) : Prop :=
  forall tx response t n' receipt,
    In (EvSend tx (Resolved response)) (run_events r) ->
    map_get (hash response) (pendingTransactions s) = None ->
    In t (run_detached r) ->
    let w := run handle t (run_state r) n' in
    In (EvWait (hash response) (Resolved (Some receipt))) (run_events w) ->
    map_entries (pendingTransactions (run_state w))
    = map_entries (pendingTransactions s)
    /\ usedNonces (run_state w) = usedNonces (run_state r).

(** The chain of a call, run in a state whose registry does not hold the
    hash of the call any more, leaves the state as it is. *)
Definition confirms_late {N : Type} (handle : Handler N)
    (r : Run N Result) : Prop :=
  forall tx response t s' n',
    In (EvSend tx (Resolved response)) (run_events r) ->
    In t (run_detached r) ->
    map_get (hash response) (pendingTransactions s') = None ->
    run_state (run handle t s' n') = s'.









(** No broadcast succeeds: the wallet has no funds, say. *)
Definition refuses {N : Type} (handle : Handler N) : Prop :=
  forall (n : N) (tx : Tx) (response : TransactionResponse),
    snd (handle _ (SendTransaction tx) n) ≠ Resolved response.

(** The entry under [k] has no receipt. *)
Definition unconfirmed (receipts : string -> Outcome (option Receipt))
    (k : string) : bool :=
  match receipts k with
  | Resolved None => true
  | _ => false
  end.

(** The registry after the entries that stand at slot [index] or later and
    have a receipt were deleted: their slots are empty, the other slots are
    as they were. *)
Fixpoint sweep (receipts : string -> Outcome (option Receipt))
    (index : nat) (m : MapData) : MapData :=
  match m with
  | [] => []
  | slot :: m' =>
      match index with
      | S i => slot :: sweep receipts i m'
      | O =>
          match slot with
          | Some (k, v) =>
              (if unconfirmed receipts k then Some (k, v) else None)
                :: sweep receipts 0 m'
          | None => None :: sweep receipts 0 m'
          end
      end
  end.

(** A network on which the wallet cannot pay: every broadcast is refused. *)
Module Broke.
Definition handle (receipts : string -> Outcome (option Receipt))
  : Handler unit := fun R c =>
  match c in Call T return unit -> unit * Outcome T with
  | GetNonce => fun n => (n, Resolved 8)
  | GetFeeData => fun n => (n, Resolved (mkFeeData (Some 1) (Some 10)))
  | SendTransaction _ => fun n => (n, Rejected (mkError "insufficient funds"))
  | Wait h => fun n => (n, receipts h)
  | GetTransactionReceipt h => fun n => (n, receipts h)
  end.
End Broke.

(** ** What the registry may hold *)

(** The hash [h] was given by the network for a broadcast of the trace. *)
Definition broadcast (trace : list (nat * Event)) (h : string) : Prop :=
  exists i tx response,
    In (i, EvSend tx (Resolved response)) trace /\ hash response = h.

(** Every key of the registry satisfies [K]. *)
Definition registry_within (K : string -> Prop) (s : State) : Prop :=
  forall k, k ∈ map_keys (pendingTransactions s) -> K k.

(** The hash that the answer of a call brings, if it is a broadcast that
    succeeded. *)
Definition learned {R : Type} (c : Call R) : Outcome R -> string -> Prop :=
  match c in Call T return Outcome T -> string -> Prop with
  | SendTransaction _ => fun r h =>
      match r with
      | Resolved response => hash response = h
      | Rejected _ => False
      end
  | _ => fun _ _ => False
  end.

(** The program sets no key of the registry but the keys in [K] and the
    hashes that its own broadcasts bring, and so do the chains that it
    detaches.  The condition on a step holds for a registry that other
    tasks have filled in the meantime: whatever larger set the keys are in,
    they stay in it. *)
Fixpoint tracks {A : Type} (K : string -> Prop) (p : Prog A) : Prop :=
  match p with
  | Ret _ => True
  | Throw _ => True
  | Await c k => forall r, tracks (fun h => K h \/ learned c r h) (k r)
  | Act f k =>
      (forall (K' : string -> Prop) (s : State),
         (forall h, K h -> K' h) ->
         registry_within K' s -> registry_within K' (fst (f s)))
      /\ forall x, tracks K (k x)
  | Print _ k => tracks K k
  | Send _ k => tracks K k
  | Detach c h k =>
      (forall r, tracks (fun h' => K h' \/ learned c r h') (h r))
      /\ tracks K k
  end.

(** The keys that the registry may hold after the trace: those of [K0] and
    the hashes of the broadcasts. *)
Definition allowed (K0 : string -> Prop) (trace : list (nat * Event))
    (h : string) : Prop :=
  K0 h \/ broadcast trace h.

Definition pool_tracks {N : Type} (K0 : string -> Prop) (c : Config N)
  : Prop :=
  registry_within (allowed K0 (cfg_trace c)) (cfg_state c)
  /\ Forall (fun t => tracks (allowed K0 (cfg_trace c)) (task_prog t))
            (cfg_pool c).

(** No broadcast among the events was given the hash [h]. *)
Definition never_given (h : string) (events : list Event) : Prop :=
  forall tx response,
    In (EvSend tx (Resolved response)) events -> hash response ≠ h.

(** The events say nothing of the entry [h]. *)
Definition silent_on (h : string) (events : list Event) : Prop :=
  (forall o, ~ In (EvReceipt h o) events)
  /\ ~ In (EvConsole (LogResending h)) events
  /\ ~ In (EvConsole (LogAlreadyConfirmed h)) events.

(** The receipt queries for the entries that stand before slot [j] are
    answered: none of them is rejected. *)
Definition answered_before (receipts : string -> Outcome (option Receipt))
    (m : MapData) (j : nat) : Prop :=
  forall (i : nat) (k : string) (v : Entry),
    (i < j)%nat -> m !! i = Some (Some (k, v)) ->
    exists o, receipts k = Resolved o.

(** What the specification expects of a pass over a registry whose entry
    [h] has a receipt: the entry is gone and was not resent. *)
Definition removed_unsent {N : Type} (h : string)
    (r : Run N (option unit)) : Prop :=
  map_get h (pendingTransactions (run_state r)) = None
  /\ ~ In (EvConsole (LogResending h)) (run_events r).

(** A registry whose lost entry stands before the confirmed one. *)
Definition lost_then_done : State :=
  mkState [Some ("0xLOST", mkEntry 6 (JNum 20) (JStr "0xBBB"));
           Some ("0xDONE", mkEntry 5 (JNum 10) (JStr "0xAAA"))] ∅.

(** * Facts *)

(** ** The [Map] operations *)

Lemma map_get_set_eq (k : string) (v : Entry) (m : MapData) :
  map_get k (map_set k v m) = Some v.
Proof.
  induction m as [|[[k' v']|] m IH]; simpl.
  - by rewrite String.eqb_refl.
  - destruct (String.eqb k' k) eqn:E; simpl; by rewrite E.
  - done.
Qed.

Lemma map_get_set_ne (k k' : string) (v : Entry) (m : MapData) :
  k ≠ k' -> map_get k' (map_set k v m) = map_get k' m.
Proof.
  intros Hne. induction m as [|[[k0 v0]|] m IH]; simpl.
  - destruct (String.eqb k k') eqn:E; [|done].
    by apply String.eqb_eq in E.
  - destruct (String.eqb k0 k) eqn:E; simpl; [|by rewrite IH].
    apply String.eqb_eq in E. subst k0.
    destruct (String.eqb k k') eqn:E'; [|done].
    by apply String.eqb_eq in E'.
  - done.
Qed.

Lemma map_get_None (k : string) (m : MapData) :
  map_get k m = None <-> k ∉ map_keys m.
Proof.
  unfold map_keys, map_entries.
  induction m as [|[[k' v']|] m IH]; simpl.
  - split; [intros _; apply not_elem_of_nil | done].
  - rewrite not_elem_of_cons. simpl.
    destruct (String.eqb k' k) eqn:E.
    + apply String.eqb_eq in E. split; [done | intros [? _]; congruence].
    + apply String.eqb_neq in E. rewrite IH.
      split; [intros ?; split; [congruence | done] | tauto].
  - done.
Qed.

Lemma map_get_delete_ne (k k' : string) (m : MapData) :
  k ≠ k' -> map_get k' (map_delete k m) = map_get k' m.
Proof.
  intros Hne. induction m as [|[[k0 v0]|] m IH]; simpl; [done| |done].
  destruct (String.eqb k0 k) eqn:E; simpl; [|by rewrite IH].
  apply String.eqb_eq in E. subst k0.
  destruct (String.eqb k k') eqn:E'; [|done].
  by apply String.eqb_eq in E'.
Qed.

Lemma map_get_delete_eq (k : string) (m : MapData) :
  map_wf m -> map_get k (map_delete k m) = None.
Proof.
  unfold map_wf, map_keys, map_entries.
  induction m as [|[[k0 v0]|] m IH]; simpl; [done| |done].
  rewrite NoDup_cons. simpl. intros [Hnotin Hnd].
  destruct (String.eqb k0 k) eqn:E; simpl.
  - apply String.eqb_eq in E. subst k0. by apply map_get_None.
  - rewrite E. by apply IH.
Qed.

Lemma map_keys_set_fresh (k : string) (v : Entry) (m : MapData) :
  map_get k m = None -> map_keys (map_set k v m) = (map_keys m ++ [k])%list.
Proof.
  unfold map_keys, map_entries.
  induction m as [|[[k0 v0]|] m IH]; simpl; [done| |done].
  destruct (String.eqb k0 k) eqn:E; [done|].
  intros H. simpl. f_equal. by apply IH.
Qed.

Lemma map_keys_set_present (k : string) (v : Entry) (m : MapData) :
  map_get k m ≠ None -> map_keys (map_set k v m) = map_keys m.
Proof.
  unfold map_keys, map_entries.
  induction m as [|[[k0 v0]|] m IH]; simpl; [done| |done].
  destruct (String.eqb k0 k) eqn:E; [done|].
  intros H. simpl. f_equal. by apply IH.
Qed.

Lemma map_size_set_fresh (k : string) (v : Entry) (m : MapData) :
  map_get k m = None -> map_size (map_set k v m) = S (map_size m).
Proof.
  intros H. unfold map_size.
  rewrite <- (length_map fst), <- (length_map fst (map_entries m)).
  fold (map_keys (map_set k v m)). fold (map_keys m).
  rewrite map_keys_set_fresh by done. rewrite length_app. simpl. lia.
Qed.

Lemma map_wf_set (k : string) (v : Entry) (m : MapData) :
  map_wf m -> map_wf (map_set k v m).
Proof.
  unfold map_wf. intros Hwf.
  destruct (map_get k m) eqn:E.
  - rewrite map_keys_set_present; [done | congruence].
  - rewrite map_keys_set_fresh by done.
    apply NoDup_app. split; [done|]. split; [|apply NoDup_singleton].
    intros x Hx Hk. apply list_elem_of_singleton in Hk. subst x.
    by apply map_get_None in E.
Qed.

Lemma map_keys_delete (k : string) (m : MapData) :
  map_keys (map_delete k m) ⊆ map_keys m
  /\ (map_wf m -> map_wf (map_delete k m)).
Proof.
  unfold map_wf, map_keys, map_entries.
  induction m as [|[[k0 v0]|] m [IH1 IH2]]; simpl; [done| |done].
  destruct (String.eqb k0 k) eqn:E; simpl.
  - split; [set_solver|]. rewrite NoDup_cons. tauto.
  - split; [set_solver|]. rewrite !NoDup_cons. set_solver.
Qed.

Lemma map_wf_delete (k : string) (m : MapData) :
  map_wf m -> map_wf (map_delete k m).
Proof. apply map_keys_delete. Qed.

(** ** One call of [processTransaction] *)

(** Case analysis on the answers of the network and on the tests of the
    code, along the run of a call. *)
Ltac settle handle :=
  repeat first
    [ match goal with
      | H : handle ?R ?c ?n = _ |- context [handle ?R ?c ?n] =>
          rewrite H; cbn
      | H : bool_decide ?P = _ |- context [bool_decide ?P] => rewrite H; cbn
      | H : truthy ?x = _ |- context [truthy ?x] => rewrite H; cbn
      end
    | match goal with
      | |- context [handle ?R ?c ?n] =>
          let H := fresh "Hcall" in
          destruct (handle R c n) as [? [?|?]] eqn:H; cbn
      end
    | match goal with
      | |- context [bool_decide ?P] =>
          let H := fresh "Hseen" in destruct (bool_decide P) eqn:H; cbn
      end
    | match goal with
      | |- context [truthy ?x] =>
          let H := fresh "Hfee" in destruct (truthy x) eqn:H; cbn
      end
    | match goal with
      | |- context [convert ?r] => is_var r; destruct r; cbn
      end ].

(** Values of the record types are split into their fields. *)
Ltac simplify_records :=
  repeat match goal with
         | e : Error |- _ => destruct e
         | v : TransactionResponse |- _ => destruct v
         end.

(** The hypothesis on the events of a run, split into its cases. *)
Ltac split_events :=
  cbn; unfold not; intros;
  repeat match goal with
         | H : _ \/ _ |- _ => destruct H
         | H : False |- _ => destruct H
         | H : _ /\ _ |- _ => destruct H
         end;
  simplify_eq.

Section Process.
Context {N : Type} (handle : Handler N) (OWNER_WALLET : option string).

(** C9.  Whatever the arguments, the state and the answers of the network,
    a call of [processTransaction] does not reject: it resolves to a result
    object.  The result is [{ success: true, transactionHash }] with the
    hash of the broadcast that succeeded, or [{ success: false, error }]
    with the message of the error that the [catch] block received and
    logged. *)
Theorem processTransaction_always_resolves
    (score address : JsValue) (s : State) (n : N) :
  let r := run handle (Backend.processTransaction OWNER_WALLET score address)
               s n in
  exists result : Result,
    run_outcome r = Resolved result
    /\ match result with
       | Success h =>
           exists tx, In (EvSend tx (Resolved (mkResponse h))) (run_events r)
       | Failure m =>
           exists e, m = message e
             /\ In (EvConsole (ErrTransactionFailed e)) (run_events r)
       end.
Proof.
  unfold Backend.processTransaction. cbn.
  settle handle; simplify_records;
    (eexists; split; [reflexivity|]; cbn).
  all: first [ eexists (mkError _); split; [reflexivity|]; cbn; tauto
             | eexists; cbn; eauto 10 ].
Qed.

(** The effect of a call whose broadcast succeeds. *)
Lemma process_sent
    (score address : JsValue) (s : State) (n : N)
    (tx : Tx) (response : TransactionResponse) :
  let r := run handle (Backend.processTransaction OWNER_WALLET score address)
               s n in
  let entry := mkEntry (nonce tx) score address in
  In (EvSend tx (Resolved response)) (run_events r) ->
  run_outcome r = Resolved (Success (hash response))
  /\ In (EvGetNonce (Resolved (nonce tx))) (run_events r)
  /\ pendingTransactions (run_state r)
     = map_set (hash response) entry (pendingTransactions s).
Proof.
  unfold Backend.processTransaction. cbn.
  settle handle; split_events.
  all: repeat split; cbn; auto.
Qed.

(** C3.  A call whose broadcast succeeds resolves to the hash of the
    broadcast and sets one entry of the registry, under that hash: the
    entry records the nonce that the sequencer answered, which is the nonce
    of the transaction, and the score and the address of the call.  The
    other keys keep their entries, and the registry grows by exactly one
    entry when the hash is new to it. *)
Theorem successful_broadcast_inserts_entry
    (score address : JsValue) (s : State) (n : N)
    (tx : Tx) (response : TransactionResponse) :
  let r := run handle (Backend.processTransaction OWNER_WALLET score address)
               s n in
  let entry := mkEntry (nonce tx) score address in
  In (EvSend tx (Resolved response)) (run_events r) ->
  run_outcome r = Resolved (Success (hash response))
  /\ In (EvGetNonce (Resolved (nonce tx))) (run_events r)
  /\ pendingTransactions (run_state r)
     = map_set (hash response) entry (pendingTransactions s)
  /\ map_get (hash response) (pendingTransactions (run_state r)) = Some entry
  /\ (forall k, k ≠ hash response ->
        map_get k (pendingTransactions (run_state r))
        = map_get k (pendingTransactions s))
  /\ (map_get (hash response) (pendingTransactions s) = None ->
      map_size (pendingTransactions (run_state r))
      = S (map_size (pendingTransactions s))).
Proof.
  intros r entry Hsent.
  destruct (process_sent score address s n tx response Hsent)
    as (Hout & Hnonce & Hreg).
  fold r in Hout, Hnonce, Hreg. fold entry in Hreg.
  split; [exact Hout|]. split; [exact Hnonce|]. split; [exact Hreg|].
  rewrite Hreg. split; [apply map_get_set_eq|].
  split; [|apply map_size_set_fresh].
  intros k Hk. apply map_get_set_ne. congruence.
Qed.

(** C4.  When the fee quote lacks the priority component or the maximum
    component ([null], or zero, which JavaScript also takes for absent),
    the call resolves to the failure that carries the message of the error,
    the registry is left as it was, no transaction is handed to the
    network, and no confirmation chain is detached. *)
Theorem incomplete_fee_quote_fails
    (score address : JsValue) (s : State) (n : N) (fee : FeeData) :
  let r := run handle (Backend.processTransaction OWNER_WALLET score address)
               s n in
  In (EvGetFeeData (Resolved fee)) (run_events r) ->
  truthy (maxPriorityFeePerGas fee) = false
  \/ truthy (maxFeePerGas fee) = false ->
  run_outcome r = Resolved (Failure "⚠️ Could not fetch gas fee data.")
  /\ pendingTransactions (run_state r) = pendingTransactions s
  /\ (forall tx o, ~ In (EvSend tx o) (run_events r))
  /\ run_detached r = [].
Proof.
  unfold Backend.processTransaction. cbn.
  settle handle; split_events; try congruence.
  all: repeat split; auto; cbn; intros tx o Hin; split_events.
Qed.

(** C5, as the code has it.  In [src/backend/Server.js] every transaction
    that a call hands to the network goes to [process.env.OWNER_WALLET],
    whatever the score and the address of the call; in the second server
    file it goes to the address of the call.  In both files the value is
    [parseEther('0.0001')] and the gas limit is 21000. *)
Theorem transaction_destination_value_and_gas
    (score address : JsValue) (raw : Raw) (s : State) (n : N)
    (tx : Tx) (o : Outcome TransactionResponse) :
  (In (EvSend tx o)
      (run_events
         (run handle (Backend.processTransaction OWNER_WALLET score address)
              s n)) ->
   to tx = env_value OWNER_WALLET
   /\ value tx = parseEther_0_0001
   /\ gasLimit tx = 21000)
  /\ (In (EvSend tx o)
         (run_events
            (run handle (Unnamed.processTransaction raw address) s n)) ->
      to tx = address
      /\ value tx = parseEther_0_0001
      /\ gasLimit tx = 21000).
Proof.
  unfold Backend.processTransaction, Unnamed.processTransaction. split; cbn.
  all: settle handle; split_events; auto.
Qed.

(** C10.  Two states that differ in [usedNonces] only give a call the same
    result, the same registry, the same calls to the network with the same
    answers (hence the same nonce and the same transaction), and the same
    detached chain: the set decides nothing but whether the line
    "Using Nonce" is written. *)
Theorem usedNonces_only_gates_a_log_line
    (score address : JsValue) (s1 s2 : State) (n : N) :
  let r1 := run handle (Backend.processTransaction OWNER_WALLET score address)
                s1 n in
  let r2 := run handle (Backend.processTransaction OWNER_WALLET score address)
                s2 n in
  pendingTransactions s1 = pendingTransactions s2 ->
  run_outcome r1 = run_outcome r2
  /\ pendingTransactions (run_state r1) = pendingTransactions (run_state r2)
  /\ run_network r1 = run_network r2
  /\ run_detached r1 = run_detached r2
  /\ without_nonce_lines (run_events r1) = without_nonce_lines (run_events r2).
Proof.
  destruct s1 as [m1 u1], s2 as [m2 u2]. cbn. intros ->.
  unfold Backend.processTransaction. cbn.
  settle handle; auto.
Qed.
End Process.

(** ** The confirmation chain and the [POST /jump] handler *)

Section Watching.
Context {N : Type} (handle : Handler N) (OWNER_WALLET : option string).


(** C6, as the code has it.  In [src/backend/Server.js] a request whose
    body has a [score] and an [address] that convert to strings is replied
    to once, with status 202: after the events of the call of
    [processTransaction], and before any wait for inclusion settles, the
    chain of the call being still detached.  The reply carries the success
    flag of the result; on success the hash of the transaction and on
    failure the message of the error, each replaced by [null] when it is
    the empty string.  A request without a body, or with a [score] or an
    [address] that does not convert, gets no reply: the handler rejects on
    its first lines, before any attempt.  In the second server file the
    handler replies before the call is resumed, and the reply says
    [success: true], "Transaction queued for processing.", whatever the
    call then resolves to, a [score] that does not convert included; only a
    request without a body gets no reply. *)
Theorem jump_reply_by_file (body : Body) (s : State) (n : N) :
  (let r := run handle (Backend.jump OWNER_WALLET body) s n in
   match body with
   | None => r = mkRun s n [] [] (Rejected cannot_destructure)
   | Some (Plain score, Plain address) =>
       let p := run handle
                  (Backend.processTransaction OWNER_WALLET score address)
                  s n in
       exists (result : Result) (reply : Reply) (details : ReplyDetails),
         run_outcome p = Resolved result
         /\ run_outcome r = Resolved tt
         /\ run_events r
            = EvConsole (LogProcessingJump score address)
                :: (run_events p ++ [EvReply reply])%list
         /\ (forall reply', In (EvReply reply') (run_events r) ->
                            reply' = reply)
         /\ run_state r = run_state p
         /\ run_detached r = run_detached p
         /\ (forall h o, ~ In (EvWait h o) (run_events r))
         /\ reply_status reply = 202
         /\ reply_success reply = success result
         /\ reply_message reply
            = (if success result then "Transaction sent successfully."
               else "Transaction failed.")
         /\ reply_details reply = Some details
         /\ match result with
            | Success h =>
                reply_transactionHash details = or_null (Some h)
                /\ reply_error details = None
            | Failure m =>
                reply_transactionHash details = None
                /\ reply_error details = or_null (Some m)
            end
   | Some _ => r = mkRun s n [] [] (Rejected cannot_convert)
   end)
  /\ (let r := run handle (Unnamed.jump body) s n in
      match body with
      | None => r = mkRun s n [] [] (Rejected cannot_destructure)
      | Some (score, address) =>
          let p := run handle
                     (Unnamed.processTransaction score (raw_value address))
                     s n in
          exists (result : Result) (reply : Reply),
            run_outcome p = Resolved result
            /\ run_outcome r = Resolved tt
            /\ run_events r = EvReply reply :: run_events p
            /\ run_state r = run_state p
            /\ run_detached r = run_detached p
            /\ reply_status reply = 202
            /\ reply_success reply = true
            /\ reply_message reply = "Transaction queued for processing."
            /\ reply_details reply = None
      end).
Proof.
  split.
  - destruct body as [[[score|json] [address|json']]|]; try reflexivity.
    unfold Backend.jump, Backend.processTransaction. cbn.
    settle handle.
    all: do 3 eexists; split; [reflexivity|].
    all: split; [reflexivity|].
    all: split; [reflexivity|].
    all: repeat split; cbn; try reflexivity.
    all: intros; split_events; reflexivity.
  - destruct body as [[score address]|]; [|reflexivity].
    unfold Unnamed.jump, Unnamed.processTransaction. cbn.
    settle handle.
    all: do 2 eexists; repeat split; reflexivity.
Qed.
End Watching.

(** ** Sequencing *)

Section Sequencing.
Context {N : Type} (handle : Handler N).

Lemma run_bind {A B : Type} (p : Prog A) (f : A -> Prog B) (s : State) (n : N) :
  run handle (bind p f) s n
  = then_run (run handle p s n) (fun a => run handle (f a)).
Proof.
  revert B f s n.
  induction p as [A a|A e|A R c k IH|A X g k IH|A l k IH|A r k IH
                 |A R c h _ k IH];
    intros B f s n; cbn.
  - unfold then_run. cbn. by destruct (run handle (f a) s n).
  - reflexivity.
  - destruct (handle R c n) as [n' r]. rewrite IH.
    unfold then_run, emit. cbn.
    by destruct (run_outcome (run handle (k r) s n')).
  - destruct (g s) as [s' x]. apply IH.
  - rewrite IH. unfold then_run, emit. cbn.
    by destruct (run_outcome (run handle k s n)).
  - rewrite IH. unfold then_run, emit. cbn.
    by destruct (run_outcome (run handle k s n)).
  - rewrite IH. unfold then_run, fork. cbn.
    by destruct (run_outcome (run handle k s n)).
Qed.
End Sequencing.

(** ** The slots of the [Map] and its iterator *)

Lemma iter_from_Some (slots : MapData) (index index' : nat)
    (e : string * Entry) :
  iter_from slots index = Some (index', e) ->
  exists j : nat,
    index' = S (index + j)
    /\ slots !! j = Some (Some e)
    /\ forall i : nat, (i < j)%nat -> slots !! i = Some None.
Proof.
  revert index. induction slots as [|[e0|] slots IH]; intros index; simpl.
  - done.
  - intros [= <- <-]. exists 0%nat.
    split; [f_equal; lia|]. split; [done|]. intros i Hi. lia.
  - intros H. destruct (IH _ H) as (j & -> & Hj & Hbefore).
    exists (S j). split; [lia|]. split; [done|].
    intros [|i] Hi; [done|]. simpl. apply Hbefore. lia.
Qed.

Lemma iter_from_None (slots : MapData) (index : nat) :
  iter_from slots index = None ->
  forall (i : nat) (e : string * Entry), slots !! i ≠ Some (Some e).
Proof.
  revert index. induction slots as [|[e0|] slots IH]; intros index; simpl.
  - intros _ i e. by destruct i.
  - done.
  - intros H [|i] e; simpl; [done|]. by eapply IH.
Qed.

Lemma map_iter_next_Some (m : MapData) (index index' : nat)
    (e : string * Entry) :
  map_iter_next m index = Some (index', e) ->
  exists j : nat,
    index' = S j /\ (index <= j)%nat
    /\ m !! j = Some (Some e)
    /\ forall i : nat, (index <= i < j)%nat -> m !! i = Some None.
Proof.
  unfold map_iter_next. intros H.
  apply iter_from_Some in H as (j & -> & Hj & Hbefore).
  rewrite lookup_drop in Hj.
  exists (index + j)%nat. split; [done|]. split; [lia|]. split; [done|].
  intros i Hi. specialize (Hbefore (i - index)%nat).
  rewrite lookup_drop in Hbefore.
  replace (index + (i - index))%nat with i in Hbefore by lia.
  apply Hbefore. lia.
Qed.

Lemma map_iter_next_None (m : MapData) (index : nat) :
  map_iter_next m index = None ->
  forall (i : nat) (e : string * Entry),
    (index <= i)%nat -> m !! i ≠ Some (Some e).
Proof.
  unfold map_iter_next. intros H i e Hi.
  pose proof (iter_from_None _ _ H (i - index)%nat e) as Hn.
  rewrite lookup_drop in Hn.
  by replace (index + (i - index))%nat with i in Hn by lia.
Qed.

Lemma map_delete_slot (k : string) (m : MapData) (i : nat)
    (e : string * Entry) :
  map_delete k m !! i = Some (Some e) -> m !! i = Some (Some e).
Proof.
  revert i. induction m as [|[[k0 v0]|] m IH]; intros i; simpl; [done| |].
  - destruct (String.eqb k0 k); destruct i; simpl; auto; done.
  - destruct i; simpl; auto.
Qed.

Lemma length_map_delete (k : string) (m : MapData) :
  length (map_delete k m) = length m.
Proof.
  induction m as [|[[k0 v0]|] m IH]; simpl; [done| |by rewrite IH].
  destruct (String.eqb k0 k); simpl; by rewrite ?IH.
Qed.

Lemma map_set_slot (k : string) (v : Entry) (m : MapData) (i : nat)
    (k' : string) (v' : Entry) :
  map_set k v m !! i = Some (Some (k', v')) ->
  (i < length m)%nat ->
  exists v'' : Entry, m !! i = Some (Some (k', v'')).
Proof.
  revert i. induction m as [|[[k0 v0]|] m IH]; intros i; simpl.
  - lia.
  - destruct (String.eqb k0 k); destruct i; simpl.
    + intros [= <- <-] _. eauto.
    + eauto.
    + eauto.
    + intros H Hi. apply IH; [done | lia].
  - destruct i; simpl; [done|]. intros H Hi. apply IH; [done | lia].
Qed.

Lemma slot_get (m : MapData) (i : nat) (k : string) (v : Entry) :
  m !! i = Some (Some (k, v)) -> map_get k m ≠ None.
Proof.
  revert i. induction m as [|[[k0 v0]|] m IH]; intros i; simpl; [done| |].
  - destruct i; simpl.
    + intros [= -> ->]. by rewrite String.eqb_refl.
    + destruct (String.eqb k0 k); [done | apply IH].
  - destruct i; simpl; [done | apply IH].
Qed.

Lemma get_slot (m : MapData) (k : string) (v : Entry) :
  map_get k m = Some v -> exists i : nat, m !! i = Some (Some (k, v)).
Proof.
  induction m as [|[[k0 v0]|] m IH]; simpl; [done| |].
  - destruct (String.eqb k0 k) eqn:E.
    + apply String.eqb_eq in E. intros [= ->]. subst k0. by exists 0%nat.
    + intros H. destruct (IH H) as [i Hi]. by exists (S i).
  - intros H. destruct (IH H) as [i Hi]. by exists (S i).
Qed.

Lemma map_delete_slot_key (k : string) (m : MapData) (i : nat)
    (k' : string) (v' : Entry) :
  map_wf m -> map_delete k m !! i = Some (Some (k', v')) -> k' ≠ k.
Proof.
  intros Hwf Hi ->. apply slot_get in Hi.
  by rewrite map_get_delete_eq in Hi.
Qed.

(** ** The reconciler *)

Section Reconciler.
Context {N : Type} (handle : Handler N) (OWNER_WALLET : option string).

(** What a call of [processTransaction] does to the registry, and what it
    does not write. *)
Lemma process_registry_effect (score address : JsValue) (s : State) (n : N) :
  let r := run handle (Backend.processTransaction OWNER_WALLET score address)
               s n in
  (exists result, run_outcome r = Resolved result)
  /\ (pendingTransactions (run_state r) = pendingTransactions s
      \/ exists h nonce,
           pendingTransactions (run_state r)
           = map_set h (mkEntry nonce score address) (pendingTransactions s))
  /\ (forall h, ~ In (EvConsole (LogResending h)) (run_events r))
  /\ (forall h o, ~ In (EvReceipt h o) (run_events r)).
Proof.
  unfold Backend.processTransaction. cbn.
  settle handle.
  all: split; [eauto|]; split; [eauto|]; split; intros; split_events.
Qed.

Lemma run_retry_visit (txHash : string) (data : Entry) (foundPending : bool)
    (s : State) (n : N) :
  run handle (Backend.retry_visit OWNER_WALLET txHash data foundPending) s n
  = let (n1, o) := handle _ (GetTransactionReceipt txHash) n in
    emit (EvReceipt txHash o)
      match o with
      | Rejected e => mkRun s n1 [] [] (Rejected e)
      | Resolved None =>
          emit (EvConsole (LogResending txHash))
            (then_run
               (run handle
                  (Backend.processTransaction OWNER_WALLET
                     (entry_score data) (entry_address data)) s n1)
               (fun _ s' n' => mkRun s' n' [] [] (Resolved true)))
      | Resolved (Some _) =>
          emit (EvConsole (LogAlreadyConfirmed txHash))
            (mkRun (mkState (map_delete txHash (pendingTransactions s))
                            (usedNonces s))
                   n1 [] [] (Resolved foundPending))
      end.
Proof.
  unfold Backend.retry_visit. cbn -[Backend.processTransaction].
  destruct (handle _ (GetTransactionReceipt txHash) n) as [n1 [[rc|]|e]];
    cbn -[Backend.processTransaction]; try reflexivity.
  by rewrite run_bind.
Qed.

Lemma run_retry_loop (fuel index : nat) (foundPending : bool)
    (s : State) (n : N) :
  run handle (Backend.retry_loop OWNER_WALLET fuel index foundPending) s n
  = match map_iter_next (pendingTransactions s) index with
    | None => mkRun s n [] [] (Resolved (Some foundPending))
    | Some (index', (txHash, data)) =>
        match fuel with
        | O => mkRun s n [] [] (Resolved None)
        | S fuel' =>
            then_run
              (run handle
                 (Backend.retry_visit OWNER_WALLET txHash data foundPending)
                 s n)
              (fun foundPending' =>
                 run handle
                   (Backend.retry_loop OWNER_WALLET fuel' index'
                      foundPending'))
        end
    end.
Proof.
  destruct fuel; cbn -[Backend.retry_visit];
    destruct (map_iter_next (pendingTransactions s) index)
      as [[index' [txHash data]]|]; try reflexivity.
  cbn -[Backend.retry_visit]. apply run_bind.
Qed.

Lemma run_retryPendingTransactions (fuel : nat) (s : State) (n : N) :
  run handle (Backend.retryPendingTransactions OWNER_WALLET fuel) s n
  = emit (EvConsole LogChecking)
      (then_run (run handle (Backend.retry_loop OWNER_WALLET fuel 0 false) s n)
         (fun done s' n' =>
            match done with
            | None => mkRun s' n' [] [] (Resolved None)
            | Some foundPending =>
                mkRun s' n'
                  (if negb foundPending then [EvConsole LogNoPending] else [])
                  [] (Resolved (Some tt))
            end)).
Proof.
  unfold Backend.retryPendingTransactions. cbn -[Backend.retry_loop].
  rewrite run_bind. f_equal. unfold then_run.
  destruct (run_outcome (run handle (Backend.retry_loop _ fuel 0 false) s n))
    as [[[|]|]|e]; reflexivity.
Qed.


Section Pass.
Variable receipts : string -> Outcome (option Receipt).
Hypothesis receipts_static : answers_receipts handle receipts.

Lemma settled_after_delete (m : MapData) (index j : nat) (k : string)
    (v : Entry) :
  map_wf m -> settled receipts m index -> (index <= j)%nat ->
  m !! j = Some (Some (k, v)) ->
  (forall i, (index <= i < j)%nat -> m !! i = Some None) ->
  settled receipts (map_delete k m) (S j).
Proof.
  intros Hwf Hset Hle Hj Hgap i k' v' Hi Hlive.
  pose proof (map_delete_slot_key _ _ _ _ _ Hwf Hlive) as Hne.
  apply map_delete_slot in Hlive.
  destruct (decide (i < index)%nat) as [Hlt|Hge]; [by eapply Hset|].
  destruct (decide (i = j)) as [->|Hij]; [congruence|].
  rewrite Hgap in Hlive by lia. done.
Qed.

Lemma settled_after_set (m : MapData) (index j : nat) (k h : string)
    (v e : Entry) :
  settled receipts m index -> (index <= j)%nat ->
  m !! j = Some (Some (k, v)) ->
  (forall i, (index <= i < j)%nat -> m !! i = Some None) ->
  receipts k = Resolved None ->
  settled receipts m (S j) /\ settled receipts (map_set h e m) (S j).
Proof.
  intros Hset Hle Hj Hgap Hk.
  assert (settled receipts m (S j)) as Hnew.
  { intros i k' v' Hi Hlive.
    destruct (decide (i < index)%nat) as [Hlt|Hge]; [by eapply Hset|].
    destruct (decide (i = j)) as [->|Hij]; [congruence|].
    rewrite Hgap in Hlive by lia. done. }
  split; [done|].
  intros i k' v' Hi Hlive.
  apply map_set_slot in Hlive as [v'' Hlive].
  - by eapply Hnew.
  - apply lookup_lt_Some in Hj. lia.
Qed.

Lemma retry_loop_settles (fuel : nat) :
  forall (index : nat) (foundPending : bool) (s : State) (n : N) (b : bool),
    map_wf (pendingTransactions s) ->
    settled receipts (pendingTransactions s) index ->
    let r := run handle
               (Backend.retry_loop OWNER_WALLET fuel index foundPending) s n in
    run_outcome r = Resolved (Some b) ->
    map_wf (pendingTransactions (run_state r))
    /\ (forall i k v,
          pendingTransactions (run_state r) !! i = Some (Some (k, v)) ->
          receipts k = Resolved None)
    /\ (forall h, In (EvConsole (LogResending h)) (run_events r) ->
                  receipts h = Resolved None).
Proof.
  induction fuel as [|fuel IH]; intros index fp s n b Hwf Hset;
    cbv zeta; rewrite run_retry_loop;
    destruct (map_iter_next (pendingTransactions s) index)
      as [[index' [k v]]|] eqn:Hnext.
  1, 3: try discriminate.
  2, 3: cbn; intros _; split; [done|]; split; [|done];
        intros i k v Hlive;
        destruct (decide (i < index)%nat) as [Hlt|Hge]; [by eapply Hset|];
        exfalso; eapply map_iter_next_None; [exact Hnext| |exact Hlive]; lia.
  all: apply map_iter_next_Some in Hnext as (j & -> & Hle & Hj & Hgap).
  all: rewrite run_retry_visit.
  all: pose proof (receipts_static k n) as Hk.
  all: destruct (handle _ (GetTransactionReceipt k) n) as [n1 o].
  all: cbn in Hk; subst o.
  all: destruct (receipts k) as [[rc|]|e] eqn:Hrk.
  - unfold then_run. cbn. intros Hout.
    destruct (IH (S j) fp
                (mkState (map_delete k (pendingTransactions s)) (usedNonces s))
                n1 b (map_wf_delete k _ Hwf)
                (settled_after_delete _ _ _ _ _ Hwf Hset Hle Hj Hgap) Hout)
      as (H1 & H2 & H3).
    split; [exact H1|]. split; [exact H2|].
    intros h [Heq|[Heq|Hin]]; try discriminate. by apply H3.
  - pose proof (process_registry_effect (entry_score v) (entry_address v) s n1)
      as ((result & Hres) & Hreg & Hnolog & _).
    cbv zeta in Hres, Hreg, Hnolog.
    remember (run handle (Backend.processTransaction OWNER_WALLET
                (entry_score v) (entry_address v)) s n1) as p eqn:Hp.
    clear Hp. unfold then_run. cbn. rewrite Hres. cbn. intros Hout.
    assert (map_wf (pendingTransactions (run_state p))
            /\ settled receipts (pendingTransactions (run_state p)) (S j))
      as [Hwf' Hset'].
    { destruct Hreg as [->|(h & nonce & ->)].
      - split; [done|].
        by eapply (settled_after_set _ index j k k v v).
      - split; [by apply map_wf_set|].
        by eapply (settled_after_set _ index j k h v). }
    destruct (IH _ _ _ _ _ Hwf' Hset' Hout) as (H1 & H2 & H3).
    split; [exact H1|]. split; [exact H2|].
    intros h [Heq|[Heq|Hin]]; try discriminate.
    + congruence.
    + rewrite app_nil_r in Hin. apply in_app_or in Hin as [Hin|Hin].
      * by apply Hnolog in Hin.
      * by apply H3.
  - unfold then_run. cbn. discriminate.
Qed.



(** A loop over entries that all have a receipt ends, empties the slots it
    walks over, and calls nothing but the receipt query. *)
Lemma retry_loop_all_confirmed (fuel : nat) :
  forall (index : nat) (foundPending : bool) (s : State) (n : N),
    (length (pendingTransactions s) - index <= fuel)%nat ->
    map_wf (pendingTransactions s) ->
    (forall i k v, pendingTransactions s !! i = Some (Some (k, v)) ->
                   exists rc, receipts k = Resolved (Some rc)) ->
    let r := run handle
               (Backend.retry_loop OWNER_WALLET fuel index foundPending) s n in
    run_outcome r = Resolved (Some foundPending)
    /\ (forall i e, (index <= i)%nat ->
                    pendingTransactions (run_state r) !! i ≠ Some (Some e))
    /\ (forall i e, pendingTransactions (run_state r) !! i = Some (Some e) ->
                    pendingTransactions s !! i = Some (Some e))
    /\ (forall o, ~ In (EvGetNonce o) (run_events r)).
Proof.
  induction fuel as [|fuel IH]; intros index fp s n Hfuel Hwf Hall;
    cbv zeta; rewrite run_retry_loop;
    destruct (map_iter_next (pendingTransactions s) index)
      as [[index' [k v]]|] eqn:Hnext.
  2, 4: cbn; split; [done|]; split; [|split; [done | intros o []]];
        intros i e Hi; by eapply map_iter_next_None.
  all: apply map_iter_next_Some in Hnext as (j & -> & Hle & Hj & Hgap).
  { apply lookup_lt_Some in Hj. lia. }
  rewrite run_retry_visit.
  pose proof (receipts_static k n) as Hk.
  destruct (handle _ (GetTransactionReceipt k) n) as [n1 o].
  cbn in Hk. subst o.
  destruct (Hall _ _ _ Hj) as [rc ->].
  unfold then_run. cbn.
  edestruct (IH (S j) fp
               (mkState (map_delete k (pendingTransactions s)) (usedNonces s))
               n1) as (H1 & H2 & H3 & H4).
  { cbn. rewrite length_map_delete. lia. }
  { by apply map_wf_delete. }
  { cbn. intros i k' v' Hlive. apply map_delete_slot in Hlive. eauto. }
  split; [exact H1|]. split; [|split].
  - intros i e Hi Hlive.
    destruct (decide (S j <= i)%nat) as [Hge|Hlt]; [by eapply H2|].
    apply H3 in Hlive. cbn in Hlive. destruct e as [k' v'].
    pose proof (map_delete_slot_key _ _ _ _ _ Hwf Hlive) as Hne.
    apply map_delete_slot in Hlive.
    destruct (decide (i = j)) as [->|Hij]; [congruence|].
    rewrite Hgap in Hlive by lia. done.
  - intros i e Hlive. apply H3 in Hlive. cbn in Hlive.
    by apply map_delete_slot in Hlive.
  - intros o [Heq|[Heq|Hin]]; try discriminate. by eapply H4.
Qed.

(** The pass calls [processTransaction] as many times as it writes the
    "Resending" line. *)
Lemma invocations_app (l1 l2 : list Event) :
  invocations (l1 ++ l2) = (invocations l1 + invocations l2)%nat.
Proof. unfold invocations. by rewrite List.filter_app, length_app. Qed.

Lemma resends_app (l1 l2 : list Event) :
  resends (l1 ++ l2) = (resends l1 + resends l2)%nat.
Proof. unfold resends. by rewrite List.filter_app, length_app. Qed.

Lemma process_invoked_once (score address : JsValue) (s : State) (n : N) :
  let r := run handle (Backend.processTransaction OWNER_WALLET score address)
               s n in
  invocations (run_events r) = 1%nat /\ resends (run_events r) = 0%nat.
Proof.
  unfold Backend.processTransaction. cbn.
  settle handle; split; reflexivity.
Qed.

Lemma retry_visit_counts (txHash : string) (data : Entry) (foundPending : bool)
    (s : State) (n : N) :
  let r := run handle
             (Backend.retry_visit OWNER_WALLET txHash data foundPending) s n in
  invocations (run_events r) = resends (run_events r).
Proof.
  cbv zeta. rewrite run_retry_visit.
  destruct (handle _ (GetTransactionReceipt txHash) n) as [n1 [[rc|]|e]];
    try reflexivity.
  pose proof (process_registry_effect (entry_score data) (entry_address data)
                s n1) as ((result & Hres) & _).
  pose proof (process_invoked_once (entry_score data) (entry_address data)
                s n1) as [Hone Hzero].
  cbv zeta in Hres, Hone, Hzero.
  unfold emit, then_run. rewrite Hres. cbn [run_events].
  rewrite app_nil_r.
  change (invocations (run_events (run handle
            (Backend.processTransaction OWNER_WALLET (entry_score data)
               (entry_address data)) s n1))
          = S (resends (run_events (run handle
            (Backend.processTransaction OWNER_WALLET (entry_score data)
               (entry_address data)) s n1)))).
  by rewrite Hone, Hzero.
Qed.

Lemma retry_loop_counts (fuel : nat) :
  forall (index : nat) (foundPending : bool) (s : State) (n : N),
    let r := run handle
               (Backend.retry_loop OWNER_WALLET fuel index foundPending) s n in
    invocations (run_events r) = resends (run_events r).
Proof.
  induction fuel as [|fuel IH]; intros index fp s n;
    cbv zeta; rewrite run_retry_loop;
    destruct (map_iter_next (pendingTransactions s) index)
      as [[index' [k v]]|]; try reflexivity.
  pose proof (retry_visit_counts k v fp s n) as Hvisit. cbv zeta in Hvisit.
  unfold then_run.
  destruct (run_outcome (run handle (Backend.retry_visit _ k v fp) s n));
    cbn [run_events]; [|done].
  rewrite invocations_app, resends_app, Hvisit. f_equal. apply IH.
Qed.

Lemma pass_counts (fuel : nat) (s : State) (n : N) :
  let r := run handle (Backend.retryPendingTransactions OWNER_WALLET fuel) s n in
  invocations (run_events r) = resends (run_events r).
Proof.
  cbv zeta. rewrite run_retryPendingTransactions.
  pose proof (retry_loop_counts fuel 0 false s n) as Hloop.
  cbv zeta in Hloop. unfold emit, then_run.
  destruct (run_outcome (run handle (Backend.retry_loop _ fuel 0 false) s n))
    as [[[|]|]|e]; cbn [run_events];
    change (?e :: ?l) with ([e] ++ l)%list;
    repeat rewrite invocations_app, resends_app; rewrite Hloop; reflexivity.
Qed.

End Pass.

End Reconciler.

(** ** A run is a schedule without interleaving *)

Section Alone.
Context {N : Type} (handle : Handler N).

Lemma run_as_schedule {A : Type} (p : Prog A) :
  forall (s : State) (n : N) (others : list Task) (trace : list (nat * Event)),
    let a := advance p s in
    let r := run handle p s n in
    exists k : nat,
      exec handle (replicate k 0%nat)
        (mkConfig (sync_state a) n
           (mkTask A (sync_rest a)
              :: others ++ map (mkTask unit) (sync_detached a))
           (trace ++ map (pair 0%nat) (sync_events a)))
      = Some (mkConfig (run_state r) (run_network r)
                (mkTask A (settled_task (run_outcome r))
                   :: others ++ map (mkTask unit) (run_detached r))
                (trace ++ map (pair 0%nat) (run_events r))).
Proof.
  induction p as [A a|A e|A R c k IH|A X g k IH|A l k IH|A r k IH
                 |A R c h _ k IH]; intros s n others trace; cbn.
  - by exists 0%nat.
  - by exists 0%nat.
  - destruct (handle R c n) as [n' r] eqn:Hcall.
    destruct (IH r s n' others (trace ++ [(0%nat, call_event c r)])%list)
      as [k' Hk'].
    exists (S k'). cbn. unfold resume. cbn. rewrite Hcall. cbn.
    rewrite !app_nil_r. rewrite <- !app_assoc in Hk'. cbn in Hk'.
    exact Hk'.
  - destruct (g s) as [s' x]. apply IH.
  - destruct (IH s n others (trace ++ [(0%nat, EvConsole l)])%list) as [k' Hk'].
    exists k'. rewrite <- !app_assoc in Hk'. exact Hk'.
  - destruct (IH s n others (trace ++ [(0%nat, EvReply r)])%list) as [k' Hk'].
    exists k'. rewrite <- !app_assoc in Hk'. exact Hk'.
  - destruct (IH s n (others ++ [mkTask unit (Await c h)])%list trace) as [k' Hk'].
    exists k'. rewrite <- !app_assoc in Hk'. exact Hk'.
Qed.

(** Resuming a task alone, until it settles, is running it: the state, the
    network and the events are those of [run], and the chains that [run]
    collects are the tasks that remain in the pool. *)
Lemma run_is_an_uninterrupted_schedule {A : Type} (p : Prog A)
    (s : State) (n : N) :
  let r := run handle p s n in
  exists k : nat,
    exec handle (replicate k 0%nat) (start [p] s n)
    = Some (mkConfig (run_state r) (run_network r)
              (mkTask A (settled_task (run_outcome r))
                 :: map (mkTask unit) (run_detached r))
              (map (pair 0%nat) (run_events r))).
Proof.
  destruct (run_as_schedule p s n [] []) as [k Hk]. by exists k.
Qed.
End Alone.

(** ** Monitors are sound *)

Lemma accepts_app (M : Monitor) (m : mon M) (l1 l2 : list Event) :
  accepts M m (l1 ++ l2)
  <-> accepts M m l1 /\ accepts M (mon_after M m l1) l2.
Proof.
  revert m. induction l1 as [|e l1 IH]; intros m; simpl; [tauto|].
  rewrite IH. unfold mon_after. simpl. tauto.
Qed.

Lemma mon_after_app (M : Monitor) (m : mon M) (l1 l2 : list Event) :
  mon_after M m (l1 ++ l2) = mon_after M (mon_after M m l1) l2.
Proof. unfold mon_after. apply fold_left_app. Qed.

Lemma task_events_app (i : nat) (t1 t2 : list (nat * Event)) :
  task_events i (t1 ++ t2) = (task_events i t1 ++ task_events i t2)%list.
Proof. unfold task_events. by rewrite filter_app, map_app. Qed.

Lemma task_events_same (i : nat) (events : list Event) :
  task_events i (map (pair i) events) = events.
Proof.
  unfold task_events. induction events as [|e events IH]; [done|].
  simpl. rewrite filter_cons_True by done. simpl. by rewrite IH.
Qed.

Lemma task_events_other (i j : nat) (events : list Event) :
  i ≠ j -> task_events i (map (pair j) events) = [].
Proof.
  intros Hne. unfold task_events.
  induction events as [|e events IH]; [done|].
  simpl. rewrite filter_cons_False by (simpl; congruence). exact IH.
Qed.

Lemma task_events_In (i : nat) (e : Event) (trace : list (nat * Event)) :
  In (i, e) trace <-> In e (task_events i trace).
Proof.
  unfold task_events. induction trace as [|[j e'] trace IH]; simpl; [tauto|].
  destruct (decide (j = i)) as [->|Hne].
  - rewrite filter_cons_True by done. simpl. rewrite <- IH.
    split; intros [H|H]; auto; left; congruence.
  - rewrite filter_cons_False by done. rewrite <- IH.
    split; [intros [H|H]; [congruence | done] | auto].
Qed.

Section Soundness.
Variable M : Monitor.

Lemma advance_obeys {A : Type} (p : Prog A) :
  forall (m : mon M) (s : State),
    obeys M m p ->
    let a := advance p s in
    accepts M m (sync_events a)
    /\ obeys M (mon_after M m (sync_events a)) (sync_rest a)
    /\ Forall (obeys M (mon_init M)) (sync_detached a).
Proof.
  induction p as [A a|A e|A R c k IH|A X g k IH|A l k IH|A r k IH
                 |A R c h _ k IH]; intros m s Hp; cbn in *.
  - done.
  - done.
  - done.
  - destruct (g s) as [s' x]. by apply IH.
  - destruct Hp as [Hok Hk]. destruct (IH _ s Hk) as (H1 & H2 & H3). done.
  - destruct Hp as [Hok Hk]. destruct (IH _ s Hk) as (H1 & H2 & H3). done.
  - destruct Hp as [Hh Hk]. destruct (IH _ s Hk) as (H1 & H2 & H3).
    split; [done|]. split; [done|]. by constructor.
Qed.

Context {N : Type} (handle : Handler N).

Lemma pool_obeys_add_detached (c : Config N) (detached : list (Prog unit)) :
  pool_obeys M c ->
  Forall (obeys M (mon_init M)) detached ->
  pool_obeys M (mkConfig (cfg_state c) (cfg_network c)
                (cfg_pool c ++ map (mkTask unit) detached) (cfg_trace c)).
Proof.
  intros [Htasks Hpast] Hdet. split; cbn [cfg_pool cfg_trace].
  - intros i t Hi.
    destruct (decide (i < length (cfg_pool c))%nat) as [Hlt|Hge].
    + rewrite lookup_app_l in Hi by done. by apply Htasks.
    + rewrite lookup_app_r in Hi by lia.
      rewrite Hpast by lia. split; [done|]. cbn [mon_after fold_left].
      rewrite list_lookup_fmap in Hi.
      destruct (detached !! _) as [q|] eqn:Hq; [|done].
      injection Hi as <-. cbn.
      by eapply Forall_lookup_1 in Hdet.
  - intros i Hi. rewrite length_app in Hi. apply Hpast. lia.
Qed.

Lemma resume_obeys (i : nat) (c c' : Config N) :
  pool_obeys M c -> resume handle i c = Some c' -> pool_obeys M c'.
Proof.
  intros [Htasks Hpast]. unfold resume.
  destruct (cfg_pool c !! i) as [[A p]|] eqn:Hi; [|done].
  destruct p as [| |R call k| | | |]; try done.
  destruct (handle R call (cfg_network c)) as [n' r] eqn:Hcall.
  intros [= <-].
  destruct (Htasks _ _ Hi) as [Hacc Hob]. cbn in Hob.
  destruct (Hob r) as [Hok Hk].
  destruct (advance_obeys (k r) _ (cfg_state c) Hk) as (H1 & H2 & H3).
  cbv zeta in H1, H2, H3.
  pose proof (lookup_lt_Some _ _ _ Hi) as Hlen.
  set (a := advance (k r) (cfg_state c)) in *.
  apply (pool_obeys_add_detached
           (mkConfig (sync_state a) n'
              (<[i:=mkTask A (sync_rest a)]> (cfg_pool c))
              (cfg_trace c
                 ++ map (pair i) (call_event call r :: sync_events a))));
    [|done].
  split; cbn [cfg_pool cfg_trace].
  - intros i' t Hi'. rewrite task_events_app.
    destruct (decide (i' = i)) as [->|Hne].
    + rewrite (list_lookup_insert_eq (cfg_pool c) i _ Hlen) in Hi'.
      injection Hi' as <-.
      rewrite task_events_same. cbn [task_prog].
      rewrite accepts_app, mon_after_app. by cbn.
    + rewrite (list_lookup_insert_ne (cfg_pool c) i i') in Hi' by done.
      rewrite task_events_other by done. rewrite app_nil_r.
      by apply Htasks.
  - intros i' Hi'. rewrite (length_insert (cfg_pool c) i) in Hi'.
    rewrite task_events_app, task_events_other by lia.
    rewrite Hpast by done. done.
Qed.

Lemma exec_obeys (schedule : list nat) :
  forall c c' : Config N,
    pool_obeys M c -> exec handle schedule c = Some c' -> pool_obeys M c'.
Proof.
  induction schedule as [|i schedule IH]; intros c c' Hc; simpl.
  - by intros [= <-].
  - destruct (resume handle i c) as [c1|] eqn:Hstep; [|done].
    apply IH. by eapply resume_obeys.
Qed.

Lemma start_from_obeys {A : Type} (calls : list (Prog A)) :
  forall (detached : list (Prog unit)) (c : Config N),
    Forall (obeys M (mon_init M)) calls ->
    Forall (obeys M (mon_init M)) detached ->
    pool_obeys M c ->
    pool_obeys M (start_from calls detached c).
Proof.
  induction calls as [|p calls IH]; intros detached c Hcalls Hdet Hc; simpl.
  - by apply pool_obeys_add_detached.
  - apply Forall_cons in Hcalls as [Hp Hcalls].
    destruct (advance_obeys p _ (cfg_state c) Hp) as (H1 & H2 & H3).
    cbv zeta in H1, H2, H3. destruct Hc as [Htasks Hpast].
    apply IH; [done | by apply Forall_app |].
    split; cbn [cfg_pool cfg_trace].
    + intros i t Hi. rewrite task_events_app.
      destruct (decide (i < length (cfg_pool c))%nat) as [Hlt|Hge].
      * rewrite lookup_app_l in Hi by done.
        rewrite task_events_other by lia. rewrite app_nil_r.
        by apply Htasks.
      * rewrite lookup_app_r in Hi by lia.
        destruct (i - length (cfg_pool c))%nat as [|d] eqn:Hd; [|done].
        injection Hi as <-.
        replace i with (length (cfg_pool c)) by lia.
        rewrite task_events_same, Hpast by done. done.
    + intros i Hi. rewrite length_app in Hi. cbn in Hi.
      rewrite task_events_app, task_events_other by lia.
      rewrite Hpast by lia. done.
Qed.

(** Calls that obey a monitor obey it under every schedule: the events of
    each task are accepted, whatever the other tasks do meanwhile. *)
Lemma exec_accepts {A : Type} (calls : list (Prog A)) (s : State) (n : N)
    (schedule : list nat) (c' : Config N) :
  Forall (obeys M (mon_init M)) calls ->
  exec handle schedule (start calls s n) = Some c' ->
  forall i, accepts M (mon_init M) (task_events i (cfg_trace c')).
Proof.
  intros Hcalls Hexec i.
  assert (pool_obeys M c') as [Htasks Hpast].
  { eapply exec_obeys; [|exact Hexec].
    apply start_from_obeys; [done | done |].
    split; cbn; [by intros [] | done]. }
  destruct (cfg_pool c' !! i) as [t|] eqn:Hi.
  - by apply Htasks in Hi as [? _].
  - apply lookup_ge_None in Hi. by rewrite Hpast.
Qed.
End Soundness.

(** ** The nonce of interleaved calls *)



(** A program obeys a monitor: by cases on every answer and every test. *)
Ltac obey :=
  repeat (cbn;
          match goal with
          | |- True => exact I
          | |- _ /\ _ => split
          | |- forall _ : Outcome _, _ => intros [?|?]
          | |- forall _ : unit, _ => intros []
          | |- forall _ : bool, _ => intros []
          | |- forall _, _ => intro
          | |- _ = _ => reflexivity
          | |- context [truthy ?x] => destruct (truthy x)
          | |- context [convert ?r] => destruct r
          | |- context [destructure ?b] => destruct b
          | |- context [match ?x with _ => _ end] => destruct x
          end).



Section Interleaved.
Context {N : Type} (handle : Handler N).


End Interleaved.

(** ** The scenarios, run *)


Lemma two_pending_wf : map_wf (pendingTransactions two_pending).
Proof.
  unfold map_wf. cbn. apply NoDup_cons. split; [|apply NoDup_singleton].
  intros H. apply list_elem_of_singleton in H. discriminate.
Qed.

(** The scenario of the specification: [processTransaction(42, "0xABC")]
    resolves to the hash ["0xHASH"], and the registry, empty before, holds
    exactly the entry [{nonce: 7, score: 42, address: "0xABC"}] under it. *)
Lemma successful_broadcast_inserts_entry_witness :
  let r := run demo_handle
             (Backend.processTransaction (Some "0xOWNER") (JNum 42)
                (JStr "0xABC")) initial_state demo_net in
  run_outcome r = Resolved (Success "0xHASH")
  /\ map_get "0xHASH" (pendingTransactions (run_state r))
     = Some (mkEntry 7 (JNum 42) (JStr "0xABC"))
  /\ map_size (pendingTransactions (run_state r)) = 1%nat.
Proof.
  destruct (successful_broadcast_inserts_entry demo_handle (Some "0xOWNER")
              (JNum 42) (JStr "0xABC") initial_state demo_net demo_tx
              (mkResponse "0xHASH")) as (H1 & _ & _ & H4 & _ & H6).
  { vm_compute. tauto. }
  split; [exact H1|]. split; [exact H4|]. apply H6. reflexivity.
Defined.

(** A fee quote without its priority component. *)
Lemma incomplete_fee_quote_fails_witness :
  let r := run demo_handle
             (Backend.processTransaction (Some "0xOWNER") (JNum 42)
                (JStr "0xABC")) initial_state no_priority_net in
  run_outcome r = Resolved (Failure "⚠️ Could not fetch gas fee data.")
  /\ pendingTransactions (run_state r) = [].
Proof.
  destruct (incomplete_fee_quote_fails demo_handle (Some "0xOWNER")
              (JNum 42) (JStr "0xABC") initial_state no_priority_net
              (mkFeeData None (Some 10))) as (H1 & H2 & _).
  { vm_compute. tauto. }
  { left. reflexivity. }
  split; [exact H1 | exact H2].
Defined.

(** The same call in the two server files: the transaction goes to the
    wallet of the owner in one, to the address of the call in the other. *)
Lemma transaction_destination_value_and_gas_witness :
  to demo_tx = JStr "0xOWNER"
  /\ to (mkTx (JStr "0xABC") parseEther_0_0001 21000 7 (Some 1) (Some 10))
     = JStr "0xABC".
Proof.
  split.
  - apply (proj1 (transaction_destination_value_and_gas demo_handle
                    (Some "0xOWNER") (JNum 42) (JStr "0xABC")
                    (Plain (JNum 42)) initial_state
                    demo_net demo_tx (Resolved (mkResponse "0xHASH")))).
    vm_compute. tauto.
  - apply (proj2 (transaction_destination_value_and_gas demo_handle
                    (Some "0xOWNER") (JNum 42) (JStr "0xABC")
                    (Plain (JNum 42)) initial_state
                    demo_net
                    (mkTx (JStr "0xABC") parseEther_0_0001 21000 7 (Some 1)
                       (Some 10))
                    (Resolved (mkResponse "0xHASH")))).
    vm_compute. tauto.
Defined.

(** The same call from a state where nonce 7 is in [usedNonces] and from
    one where it is not. *)
Lemma usedNonces_only_gates_a_log_line_witness :
  let call := Backend.processTransaction (Some "0xOWNER") (JNum 42)
                (JStr "0xABC") in
  let r1 := run demo_handle call initial_state demo_net in
  let r2 := run demo_handle call (mkState [] {[ 7 ]}) demo_net in
  run_outcome r1 = run_outcome r2
  /\ pendingTransactions (run_state r1) = pendingTransactions (run_state r2)
  /\ without_nonce_lines (run_events r1) = without_nonce_lines (run_events r2).
Proof.
  destruct (usedNonces_only_gates_a_log_line demo_handle (Some "0xOWNER")
              (JNum 42) (JStr "0xABC") initial_state (mkState [] {[ 7 ]})
              demo_net) as (H1 & H2 & _ & _ & H5).
  { reflexivity. }
  split; [exact H1|]. split; [exact H2 | exact H5].
Defined.



(** ** Where the specification and the code part *)



(** Against C5 as the specification states it: the second server file
    sends the transaction to the address of the call, and two calls with
    two addresses give two destinations. *)
Lemma unnamed_transaction_goes_to_the_caller :
  let sent address :=
    run_events (run demo_handle
                    (Unnamed.processTransaction (Plain (JNum 42)) address)
                    initial_state demo_net) in
  In (EvSend (mkTx (JStr "0xABC") parseEther_0_0001 21000 7 (Some 1) (Some 10))
        (Resolved (mkResponse "0xHASH"))) (sent (JStr "0xABC"))
  /\ In (EvSend (mkTx (JStr "0xDEF") parseEther_0_0001 21000 7 (Some 1)
                  (Some 10))
          (Resolved (mkResponse "0xHASH"))) (sent (JStr "0xDEF")).
Proof. split; vm_compute; tauto. Qed.

(** Against C6 as the specification states it: the second server file,
    when the sequencer cannot be reached.  The reply is the first event, it
    says [success: true], and the call then resolves to a failure. *)
Lemma unnamed_jump_replies_success_before_the_attempt :
  let r := run demo_handle
               (Unnamed.jump (Some (Plain (JNum 42), Plain (JStr "0xABC"))))
               initial_state no_nonce_net in
  let p := run demo_handle
               (Unnamed.processTransaction (Plain (JNum 42)) (JStr "0xABC"))
               initial_state no_nonce_net in
  run_events r
  = [ EvReply (mkReply 202 true "Transaction queued for processing." None);
      EvGetNonce (Rejected (mkError "could not read the sequence number"));
      EvConsole (ErrTransactionFailed
                   (mkError "could not read the sequence number")) ]
  /\ run_outcome p
     = Resolved (Failure "could not read the sequence number").
Proof. split; reflexivity. Qed.

(** * Further properties of the code *)

(** ** One call, in both server files *)

Section Calls.
Context {N : Type} (handle : Handler N) (OWNER_WALLET : option string).

(** X1.  A call of [processTransaction] that resolves to a failure,
    whatever the step that failed, has left the registry as it was and has
    detached no confirmation chain, in both server files.  In
    [src/backend/Server.js], and in the second server file for a score that
    converts to a string, none of its broadcasts has succeeded.  In the
    second server file a call whose score does not convert can fail after
    its broadcast has succeeded, and does so in one case only: the nonce
    was in [usedNonces] already, the transaction is sent and the line
    written next throws; the transaction is then on its way and the
    registry does not know of it. *)
Theorem failed_call_leaves_the_registry
    (score address : JsValue) (raw : Raw) (s : State) (n : N) :
  fails_cleanly s
    (run handle (Backend.processTransaction OWNER_WALLET score address) s n)
  /\ fails_cleanly s
       (run handle (Unnamed.processTransaction (Plain score) address) s n)
  /\ fails_quietly s
       (run handle (Unnamed.processTransaction raw address) s n)
  /\ fails_after_broadcast_only_unconverted raw s
       (run handle (Unnamed.processTransaction raw address) s n).
Proof.
  unfold fails_cleanly, fails_quietly, fails_after_broadcast_only_unconverted,
    Backend.processTransaction, Unnamed.processTransaction.
  split; [|split; [|split]]; cbn; settle handle.
  all: try apply bool_decide_eq_true in Hseen.
  all: intros m; try discriminate.
  all: try (intros Hm;
            repeat split; auto; intros tx response; split_events; fail).
  all: intros tx response Hm; split_events.
  all: repeat split; eauto.
Qed.

(** X2.  In [src/backend/Server.js], and in the second server file for a
    score that converts to a string, [usedNonces] only grows in a call.
    The nonce that the sequencer answers is added to it before the fee
    quote is fetched, so that it is in the set also when the call fails
    later; the line "Using Nonce" is written exactly when the nonce was not
    in the set yet.  A call whose nonce query is rejected leaves the set as
    it was.  In the second server file a call whose score does not convert
    never adds to the set and never writes the line: the line throws before
    the nonce is added. *)
Theorem call_marks_its_nonce_as_used
    (score address : JsValue) (json : string) (s : State) (n : N) :
  marks_nonce score s
    (run handle (Backend.processTransaction OWNER_WALLET score address) s n)
  /\ marks_nonce score s
       (run handle (Unnamed.processTransaction (Plain score) address) s n)
  /\ leaves_nonces s
       (run handle (Unnamed.processTransaction (Opaque json) address) s n).
Proof.
  unfold marks_nonce, leaves_nonces, Backend.processTransaction,
    Unnamed.processTransaction.
  split; [|split]; cbn; settle handle.
  all: try (split; [reflexivity | intros w score'; split_events]; fail).
  all: try apply bool_decide_eq_true in Hseen.
  all: try apply bool_decide_eq_false in Hseen.
  all: split; [set_solver|]; split.
  all: try (intros Hnone; first [ done | exfalso; eapply Hnone; cbn; eauto ];
            fail).
  all: intros w Hin; split_events; try done.
  all: split; [set_solver|]; split; [intros Hlog | intros Hnot].
  all: first [ assumption | by split_events | done | cbn; tauto ].
Qed.
End Calls.

(** ** The order of the calls, under every schedule *)

Lemma calls_of_console (l : Console) (events : list Event) :
  calls_of (EvConsole l :: events) = calls_of events.
Proof. reflexivity. Qed.

Ltac protocol_head e Hok :=
  destruct e as [l|r|o|o|tx o|h o|h o]; cbn in Hok;
  try done;
  try (match type of Hok with
       | ex _ =>
           let x := fresh in
           let Hx := fresh in
           destruct Hok as [x Hx];
           first [ discriminate Hx | apply proj1 in Hx; discriminate Hx ]
       end).

Lemma protocol_finished (events : list Event) :
  accepts protocol_monitor Finished events -> calls_of events = [].
Proof.
  induction events as [|e events IH]; [done|].
  intros [Hok Hrest]. protocol_head e Hok.
  apply IH, Hrest.
Qed.

Lemma protocol_has_fee (v : Z) (fee : FeeData) (events : list Event) :
  accepts protocol_monitor (HasFee v fee) events ->
  calls_of events = []
  \/ exists tx o, calls_of events = [EvSend tx o] /\ built_from v fee tx.
Proof.
  induction events as [|e events IH]; [by left|].
  intros [Hok Hrest]. protocol_head e Hok.
  - apply IH, Hrest.
  - destruct Hok as (fee' & Heq & H1 & H2 & H3 & H4).
    injection Heq as -> ->.
    right. exists tx, o. unfold calls_of. cbn.
    fold (calls_of events). rewrite (protocol_finished _ Hrest).
    by repeat split.
Qed.

Lemma protocol_has_nonce (v : Z) (events : list Event) :
  accepts protocol_monitor (HasNonce v) events ->
  calls_of events = []
  \/ (exists e, calls_of events = [EvGetFeeData (Rejected e)])
  \/ exists fee,
       calls_of events = [EvGetFeeData (Resolved fee)]
       \/ exists tx o,
            calls_of events = [EvGetFeeData (Resolved fee); EvSend tx o]
            /\ built_from v fee tx.
Proof.
  induction events as [|e events IH]; [by left|].
  intros [Hok Hrest]. protocol_head e Hok.
  - apply IH, Hrest.
  - destruct Hok as [v' [= <-]].
    unfold calls_of. cbn. fold (calls_of events).
    destruct o as [fee|e]; cbn in Hrest.
    + right. right. exists fee.
      destruct (protocol_has_fee _ _ _ Hrest) as [->|(tx & o & -> & Hb)];
        [by left | right; eauto].
    + rewrite (protocol_finished _ Hrest). right. left. eauto.
Qed.

Lemma protocol_at_start (events : list Event) :
  accepts protocol_monitor AtStart events ->
  calls_of events = []
  \/ (exists h o, calls_of events = [EvWait h o])
  \/ (exists e, calls_of events = [EvGetNonce (Rejected e)])
  \/ exists v,
       calls_of events = [EvGetNonce (Resolved v)]
       \/ (exists e, calls_of events
                     = [EvGetNonce (Resolved v); EvGetFeeData (Rejected e)])
       \/ exists fee,
            calls_of events
            = [EvGetNonce (Resolved v); EvGetFeeData (Resolved fee)]
            \/ exists tx o,
                 calls_of events
                 = [EvGetNonce (Resolved v); EvGetFeeData (Resolved fee);
                    EvSend tx o]
                 /\ built_from v fee tx.
Proof.
  induction events as [|e events IH]; [by left|].
  intros [Hok Hrest]. protocol_head e Hok.
  - apply IH, Hrest.
  - unfold calls_of. cbn. fold (calls_of events).
    destruct o as [v|e]; cbn in Hrest.
    + do 3 right. exists v.
      destruct (protocol_has_nonce _ _ Hrest)
        as [->|[(e & ->)|(fee & [->|(tx & o & -> & Hb)])]].
      * by left.
      * right. left. eauto.
      * right. right. exists fee. by left.
      * right. right. exists fee. right. eauto.
    + rewrite (protocol_finished _ Hrest). right. right. left. eauto.
  - unfold calls_of. cbn. fold (calls_of events).
    rewrite (protocol_finished _ Hrest). right. left. eauto.
Qed.

Lemma calls_of_In (e : Event) (events : list Event) :
  is_call e = true -> (In e events <-> In e (calls_of events)).
Proof.
  intros He. unfold calls_of. rewrite List.filter_In. tauto.
Qed.

(** What the monitor says of the events of one task. *)
Lemma protocol_of_task (events : list Event) :
  accepts protocol_monitor AtStart events ->
  (forall tx o,
     In (EvSend tx o) events ->
     exists fee,
       In (EvGetFeeData (Resolved fee)) events
       /\ In (EvGetNonce (Resolved (nonce tx))) events
       /\ truthy (maxPriorityFeePerGas fee) = true
       /\ truthy (maxFeePerGas fee) = true
       /\ tx_maxPriorityFeePerGas tx = maxPriorityFeePerGas fee
       /\ tx_maxFeePerGas tx = maxFeePerGas fee)
  /\ (forall tx o tx' o',
        In (EvSend tx o) events -> In (EvSend tx' o') events ->
        tx = tx' /\ o = o')
  /\ (forall o o',
        In (EvGetFeeData o) events -> In (EvGetFeeData o') events -> o = o')
  /\ (forall h o, ~ In (EvReceipt h o) events).
Proof.
  intros Hacc.
  assert (forall e, is_call e = true ->
                    (In e events <-> In e (calls_of events))) as Hin
    by (intros; by apply calls_of_In).
  destruct (protocol_at_start _ Hacc)
    as [Hs|[(h & o & Hs)|[(e & Hs)|(v & [Hs|[(e & Hs)|(fee & [Hs
        |(tx & o & Hs & Hb)])]])]]];
    rewrite Hs in Hin; clear Hs.
  all: (split; [|split; [|split]]).
  all: try (intros tx0 o0 tx1 o1 H0 H1; apply Hin in H0, H1; try done;
            cbn in H0, H1; intuition; simplify_eq; done).
  all: try (intros o0 o1 H0 H1; apply Hin in H0, H1; try done;
            cbn in H0, H1; intuition; simplify_eq; done).
  all: try (intros h0 o0 H0; apply Hin in H0; try done;
            cbn in H0; intuition; simplify_eq; done).
  all: intros tx0 o0 Hsend; apply Hin in Hsend; [|done];
    cbn in Hsend; intuition; simplify_eq.
  destruct Hb as (<- & Hb). exists fee.
  split; [apply Hin; [done | cbn; tauto]|].
  split; [apply Hin; [done | cbn; tauto]|]. exact Hb.
Qed.

Ltac follow :=
  repeat (cbn;
          match goal with
          | |- True => exact I
          | |- _ /\ _ => split
          | |- forall _ : Outcome _, _ => intros [?|?]
          | |- forall _ : unit, _ => intros []
          | |- forall _ : bool, _ => intros []
          | |- forall _, _ => intro
          | |- _ = _ => first [ reflexivity | assumption ]
          | |- exists _, _ => eexists
          | |- context [truthy ?x] =>
              let H := fresh "Hfee" in destruct (truthy x) eqn:H
          | |- context [convert ?r] => destruct r
          | |- context [match ?x with _ => _ end] => destruct x
          end).

Lemma processTransaction_follows_protocol (OWNER_WALLET : option string)
    (score address : JsValue) :
  obeys protocol_monitor AtStart
    (Backend.processTransaction OWNER_WALLET score address).
Proof. unfold Backend.processTransaction. follow. Qed.

Lemma unnamed_processTransaction_follows_protocol (score : Raw)
    (address : JsValue) :
  obeys protocol_monitor AtStart (Unnamed.processTransaction score address).
Proof. unfold Unnamed.processTransaction. follow. Qed.

Section Protocol.
Context {N : Type} (handle : Handler N).

Lemma obeying_calls_follow_protocol (calls : list (Prog Result))
    (s : State) (n : N) (schedule : list nat) (c' : Config N) :
  Forall (obeys protocol_monitor AtStart) calls ->
  exec handle schedule (start calls s n) = Some c' ->
  follows_protocol (cfg_trace c').
Proof.
  intros Hcalls Hexec.
  pose proof (exec_accepts protocol_monitor handle calls s n schedule c'
                Hcalls Hexec) as Hacc.
  split; [|split; [|split]].
  - intros i tx o Hin. apply task_events_In in Hin.
    destruct (protocol_of_task _ (Hacc i)) as [H _].
    destruct (H tx o Hin) as (fee & H1 & H2 & Hrest).
    exists fee. rewrite !task_events_In. exact (conj H1 (conj H2 Hrest)).
  - intros i tx o tx' o' H H0. apply task_events_In in H, H0.
    destruct (protocol_of_task _ (Hacc i)) as (_ & Hu & _).
    by eapply Hu.
  - intros i o o' H H0. apply task_events_In in H, H0.
    destruct (protocol_of_task _ (Hacc i)) as (_ & _ & Hu & _).
    by eapply Hu.
  - intros i h o H. apply task_events_In in H.
    destruct (protocol_of_task _ (Hacc i)) as (_ & _ & _ & Hu).
    by eapply Hu.
Qed.

(** X3.  Under every schedule of any number of calls of
    [processTransaction], of either server file, a call hands at most one
    transaction to the network, and only after the sequencer has answered
    its nonce and the network a fee quote whose two components are truthy:
    the transaction carries that nonce and the two components of that
    quote.  A call asks for the fee quote once at most and never asks for a
    receipt. *)
Theorem calls_follow_the_protocol
    (OWNER_WALLET : option string) (args : list (JsValue * JsValue))
    (raws : list (Raw * JsValue))
    (s : State) (n : N) (schedule : list nat) (c' : Config N) :
  (exec handle schedule (start (backend_calls OWNER_WALLET args) s n) = Some c'
   -> follows_protocol (cfg_trace c'))
  /\ (exec handle schedule (start (unnamed_calls raws) s n) = Some c'
      -> follows_protocol (cfg_trace c')).
Proof.
  split; apply obeying_calls_follow_protocol; apply Forall_map, Forall_forall.
  - intros a _. apply processTransaction_follows_protocol.
  - intros a _. apply unnamed_processTransaction_follows_protocol.
Qed.
End Protocol.

(** ** No unhandled rejection *)

Lemma advance_never_throws {A : Type} (p : Prog A) :
  forall s : State,
    never_throws p ->
    never_throws (sync_rest (advance p s))
    /\ Forall never_throws (sync_detached (advance p s)).
Proof.
  induction p as [A a|A e|A R c k IH|A X g k IH|A l k IH|A r k IH
                 |A R c h _ k IH]; intros s Hp; cbn in *.
  - done.
  - done.
  - done.
  - destruct (g s) as [s' x]. by apply IH.
  - by apply IH.
  - by apply IH.
  - destruct Hp as [Hh Hk]. destruct (IH s Hk) as [H1 H2].
    split; [done|]. by constructor.
Qed.

Section Rejections.
Context {N : Type} (handle : Handler N).

Lemma resume_settles (bad : nat -> Prop) (i : nat) (c c' : Config N) :
  pool_settles bad (cfg_pool c) ->
  (forall j, (length (cfg_pool c) <= j)%nat -> ~ bad j) ->
  resume handle i c = Some c' ->
  pool_settles bad (cfg_pool c')
  /\ (length (cfg_pool c) <= length (cfg_pool c'))%nat.
Proof.
  intros Hpool Hpast. unfold resume.
  destruct (cfg_pool c !! i) as [[A p]|] eqn:Hi; [|done].
  destruct p as [| |R call k| | | |]; try done.
  destruct (handle R call (cfg_network c)) as [n' r].
  intros [= <-]. cbn [cfg_pool].
  pose proof (lookup_lt_Some _ _ _ Hi) as Hlen.
  destruct (Hpool _ _ Hi) as [[Hp Hgood]|[[] _]]. cbn in Hp.
  destruct (advance_never_throws (k r) (cfg_state c) (Hp r)) as [H1 H2].
  split; [|rewrite length_app, (length_insert (cfg_pool c) i); lia].
  intros j t Hj.
  destruct (decide (j < length (cfg_pool c))%nat) as [Hlt|Hge].
  - rewrite lookup_app_l in Hj
      by (by rewrite (length_insert (cfg_pool c) i)).
    destruct (decide (j = i)) as [->|Hne].
    + rewrite (list_lookup_insert_eq (cfg_pool c) i _ Hlen) in Hj.
      injection Hj as <-. by left.
    + rewrite (list_lookup_insert_ne (cfg_pool c) i j) in Hj by done.
      by apply Hpool.
  - rewrite lookup_app_r in Hj
      by (rewrite (length_insert (cfg_pool c) i); lia).
    apply list_lookup_fmap_Some in Hj as (q & -> & Hq).
    left. split; [|apply Hpast; lia].
    rewrite Forall_lookup in H2. by eapply H2.
Qed.

Lemma exec_settles (bad : nat -> Prop) (schedule : list nat) :
  forall c c' : Config N,
    pool_settles bad (cfg_pool c) ->
    (forall j, (length (cfg_pool c) <= j)%nat -> ~ bad j) ->
    exec handle schedule c = Some c' ->
    pool_settles bad (cfg_pool c').
Proof.
  induction schedule as [|i schedule IH]; intros c c' Hc Hpast; simpl.
  - by intros [= <-].
  - destruct (resume handle i c) as [c1|] eqn:Hstep; [|done].
    destruct (resume_settles bad i c c1 Hc Hpast Hstep) as [H1 H2].
    apply IH; [exact H1|]. intros j Hj. apply Hpast. lia.
Qed.

Lemma start_from_settles {A : Type} (bad : nat -> Prop)
    (calls : list (Prog A)) :
  forall (detached : list (Prog unit)) (c : Config N),
    (forall k p,
       calls !! k = Some p ->
       (never_throws p /\ ~ bad (length (cfg_pool c) + k)%nat)
       \/ ((exists e, p = Throw e) /\ bad (length (cfg_pool c) + k)%nat)) ->
    (forall j, (length (cfg_pool c) + length calls <= j)%nat -> ~ bad j) ->
    Forall never_throws detached ->
    pool_settles bad (cfg_pool c) ->
    pool_settles bad (cfg_pool (start_from calls detached c))
    /\ forall j,
         (length (cfg_pool (start_from calls detached c)) <= j)%nat ->
         ~ bad j.
Proof.
  induction calls as [|p calls IH]; intros detached c Hcalls Hpast Hdet Hc;
    simpl.
  - split.
    + intros i t Hi.
      destruct (decide (i < length (cfg_pool c))%nat) as [Hlt|Hge].
      * rewrite lookup_app_l in Hi by done. by apply Hc.
      * rewrite lookup_app_r in Hi by lia.
        apply list_lookup_fmap_Some in Hi as (q & -> & Hq).
        left. split; [|apply Hpast; simpl; lia].
        rewrite Forall_lookup in Hdet. by eapply Hdet.
    + intros j Hj. rewrite length_app in Hj. apply Hpast. simpl. lia.
  - pose proof (Hcalls 0%nat p eq_refl) as Hp.
    rewrite Nat.add_0_r in Hp.
    assert (pool_settles bad (cfg_pool c
                                ++ [mkTask A (sync_rest
                                                (advance p (cfg_state c)))])
            /\ Forall never_throws (sync_detached (advance p (cfg_state c))))
      as [Hpool Hnew].
    { destruct Hp as [[Hp Hgood]|[[e ->] Hbad]].
      - destruct (advance_never_throws p (cfg_state c) Hp) as [H1 H2].
        split; [|exact H2]. intros i t Hi.
        destruct (decide (i < length (cfg_pool c))%nat) as [Hlt|Hge].
        + rewrite lookup_app_l in Hi by done. by apply Hc.
        + rewrite lookup_app_r in Hi by lia.
          destruct (i - length (cfg_pool c))%nat as [|d] eqn:Hd; [|done].
          injection Hi as <-. left.
          assert (i = length (cfg_pool c)) as -> by lia. done.
      - split; [|constructor]. intros i t Hi.
        destruct (decide (i < length (cfg_pool c))%nat) as [Hlt|Hge].
        + rewrite lookup_app_l in Hi by done. by apply Hc.
        + rewrite lookup_app_r in Hi by lia.
          destruct (i - length (cfg_pool c))%nat as [|d] eqn:Hd; [|done].
          injection Hi as <-. right.
          assert (i = length (cfg_pool c)) as -> by lia. done. }
    apply IH; cbn [cfg_pool cfg_state].
    + intros k q Hk. rewrite length_app. cbn [length].
      replace (length (cfg_pool c) + 1 + k)%nat
        with (length (cfg_pool c) + S k)%nat by lia.
      by apply Hcalls.
    + intros j Hj. rewrite length_app in Hj. cbn [length] in Hj.
      apply Hpast. simpl. lia.
    + by apply Forall_app.
    + exact Hpool.
Qed.

Lemma requests_settle (bad : nat -> Prop) {A : Type} (calls : list (Prog A))
    (s : State) (n : N) (schedule : list nat) (c' : Config N) :
  (forall k p,
     calls !! k = Some p ->
     (never_throws p /\ ~ bad k) \/ ((exists e, p = Throw e) /\ bad k)) ->
  (forall j, (length calls <= j)%nat -> ~ bad j) ->
  exec handle schedule (start calls s n) = Some c' ->
  forall i t, cfg_pool c' !! i = Some t -> (rejected t <-> bad i).
Proof.
  intros Hcalls Hpast Hexec.
  destruct (start_from_settles bad calls [] (mkConfig s n [] []))
    as [Hstart Hlater]; [exact Hcalls | exact Hpast | constructor | |].
  { intros i t Hi. done. }
  pose proof (exec_settles bad schedule _ c' Hstart Hlater Hexec) as Hend.
  intros i t Hi. destruct (Hend i t Hi) as [[Hsafe Hgood]|[Hrej Hbad]].
  - split; [|done]. unfold rejected. revert Hsafe.
    destruct (task_prog t); cbn; tauto.
  - tauto.
Qed.

(** X4.  Under every schedule of any number of requests to [POST /jump],
    the tasks that end in a rejection that nothing handles are the
    handlers of the requests that the first lines refuse, and no other: in
    [src/backend/Server.js] the requests without a body and those whose
    [score] or [address] does not convert to a string, in the second server
    file the requests without a body.  No other handler, with the call of
    [processTransaction] that it awaits, and no confirmation chain ends in
    a rejection. *)
Theorem only_refused_requests_end_rejected
    (OWNER_WALLET : option string) (bodies : list Body)
    (s : State) (n : N) (schedule : list nat) (c' : Config N) :
  (exec handle schedule (start (backend_requests OWNER_WALLET bodies) s n)
   = Some c' ->
   forall i t,
     cfg_pool c' !! i = Some t ->
     (rejected t <-> refused_at refused_by_backend bodies i))
  /\ (exec handle schedule (start (unnamed_requests bodies) s n) = Some c' ->
      forall i t,
        cfg_pool c' !! i = Some t ->
        (rejected t <-> refused_at refused_by_unnamed bodies i)).
Proof.
  split; apply requests_settle.
  - intros k p Hk. unfold backend_requests in Hk.
    apply list_lookup_fmap_Some in Hk as (body & -> & Hbody).
    unfold refused_at. rewrite Hbody.
    destruct body as [[[score|json] [address|json']]|].
    2-5: right; split; [by eexists | by eexists].
    left. split.
    + unfold Backend.jump, Backend.processTransaction. obey.
    + by intros (body & [= <-] & []).
  - intros j Hj (body & Hbody & _).
    apply lookup_lt_Some in Hbody.
    unfold backend_requests in Hj. rewrite length_map in Hj. lia.
  - intros k p Hk. unfold unnamed_requests in Hk.
    apply list_lookup_fmap_Some in Hk as (body & -> & Hbody).
    unfold refused_at, refused_by_unnamed. rewrite Hbody.
    destruct body as [[score address]|].
    + left. split.
      * unfold Unnamed.jump, Unnamed.processTransaction. obey.
      * by intros (body & [= <-] & [=]).
    + right. split; by eexists.
  - intros j Hj (body & Hbody & _).
    apply lookup_lt_Some in Hbody.
    unfold unnamed_requests in Hj. rewrite length_map in Hj. lia.
Qed.
End Rejections.

Lemma only_refused_requests_end_rejected_witness :
  (exists c',
     exec Ledger.handle [0; 0; 0; 3]%nat
       (start (backend_requests (Some "0xOWNER") mixed_bodies) initial_state
          (Ledger.mkNet 7 [])) = Some c'
     /\ length (cfg_pool c') = 4%nat
     /\ forall i t,
          cfg_pool c' !! i = Some t ->
          (rejected t <-> refused_at refused_by_backend mixed_bodies i))
  /\ (exists c',
        exec Ledger.handle [0; 1; 0; 1; 0; 1; 3]%nat
          (start (unnamed_requests mixed_bodies) initial_state
             (Ledger.mkNet 7 []))
        = Some c'
        /\ forall i t,
             cfg_pool c' !! i = Some t ->
             (rejected t <-> refused_at refused_by_unnamed mixed_bodies i)).
Proof.
  split.
  - eexists. split; [vm_compute; reflexivity|]. split; [reflexivity|].
    apply (proj1 (only_refused_requests_end_rejected Ledger.handle
                    (Some "0xOWNER") mixed_bodies initial_state
                    (Ledger.mkNet 7 []) [0; 0; 0; 3]%nat _)).
    vm_compute. reflexivity.
  - eexists. split; [vm_compute; reflexivity|].
    apply (proj2 (only_refused_requests_end_rejected Ledger.handle None
                    mixed_bodies initial_state (Ledger.mkNet 7 [])
                    [0; 1; 0; 1; 0; 1; 3]%nat _)).
    vm_compute. reflexivity.
Defined.

Lemma calls_follow_the_protocol_witness :
  (exists c',
     exec Ledger.handle [0; 1; 0; 1; 0; 1]%nat
       (start (backend_calls (Some "0xOWNER") two_args) initial_state
          (Ledger.mkNet 7 [])) = Some c'
     /\ follows_protocol (cfg_trace c'))
  /\ (exists c',
        exec Ledger.handle [0; 1; 0; 1; 0; 1; 2]%nat
          (start (unnamed_calls raw_args) initial_state (Ledger.mkNet 7 []))
        = Some c'
        /\ follows_protocol (cfg_trace c')).
Proof.
  split.
  - eexists. split; [vm_compute; reflexivity|].
    apply (proj1 (calls_follow_the_protocol Ledger.handle (Some "0xOWNER")
                    two_args raw_args initial_state (Ledger.mkNet 7 [])
                    [0; 1; 0; 1; 0; 1]%nat _)).
    vm_compute. reflexivity.
  - eexists. split; [vm_compute; reflexivity|].
    apply (proj2 (calls_follow_the_protocol Ledger.handle None
                    two_args raw_args initial_state (Ledger.mkNet 7 [])
                    [0; 1; 0; 1; 0; 1; 2]%nat _)).
    vm_compute. reflexivity.
Defined.


(** ** More on the reconciler *)

Lemma iter_from_empty (slots : MapData) (index : nat) :
  map_entries slots = [] -> iter_from slots index = None.
Proof.
  unfold map_entries. revert index.
  induction slots as [|[e|] slots IH]; intros index; simpl; [done|done|].
  apply IH.
Qed.

Lemma process_writes_no_pass_line (N : Type) (handle : Handler N)
    (OWNER_WALLET : option string) (score address : JsValue)
    (s : State) (n : N) :
  ~ In (EvConsole LogNoPending)
       (run_events
          (run handle (Backend.processTransaction OWNER_WALLET score address)
               s n)).
Proof.
  unfold Backend.processTransaction. cbn.
  settle handle; split_events.
Qed.

Section ReconcilerMore.
Context {N : Type} (handle : Handler N) (OWNER_WALLET : option string).

(** X5.  A pass over a registry that holds no entry, as the registry is
    when the server starts, calls nothing: it writes its two lines, leaves
    the state and the network as they are, and resolves. *)
Theorem pass_over_an_empty_registry (fuel : nat) (s : State) (n : N) :
  map_entries (pendingTransactions s) = [] ->
  run handle (Backend.retryPendingTransactions OWNER_WALLET fuel) s n
  = mkRun s n [EvConsole LogChecking; EvConsole LogNoPending] []
          (Resolved (Some tt)).
Proof.
  intros Hempty. rewrite run_retryPendingTransactions, run_retry_loop.
  unfold map_iter_next. rewrite drop_0, (iter_from_empty _ _ Hempty).
  reflexivity.
Qed.

Lemma visit_rejection (txHash : string) (data : Entry) (foundPending : bool)
    (s : State) (n : N) :
  let r := run handle
             (Backend.retry_visit OWNER_WALLET txHash data foundPending) s n in
  match run_outcome r with
  | Resolved _ => forall h e, ~ In (EvReceipt h (Rejected e)) (run_events r)
  | Rejected e => run_events r = [EvReceipt txHash (Rejected e)]
  end.
Proof.
  cbv zeta. rewrite run_retry_visit.
  destruct (handle _ (GetTransactionReceipt txHash) n) as [n1 [[rc|]|e]];
    [| |done].
  - cbn. intros h e. split_events.
  - pose proof (process_registry_effect handle OWNER_WALLET (entry_score data)
                  (entry_address data) s n1)
      as ((result & Hres) & _ & _ & Hnone).
    cbv zeta in Hres, Hnone.
    remember (run handle (Backend.processTransaction OWNER_WALLET
                (entry_score data) (entry_address data)) s n1) as p eqn:Hp.
    clear Hp. unfold emit, then_run. rewrite Hres. cbn.
    intros h e [Heq|[Heq|Hin]]; try discriminate.
    rewrite app_nil_r in Hin. by apply Hnone in Hin.
Qed.

Lemma loop_rejection (fuel : nat) :
  forall (index : nat) (foundPending : bool) (s : State) (n : N),
    let r := run handle
               (Backend.retry_loop OWNER_WALLET fuel index foundPending) s n in
    match run_outcome r with
    | Resolved _ => forall h e, ~ In (EvReceipt h (Rejected e)) (run_events r)
    | Rejected e =>
        exists h, last (run_events r) = Some (EvReceipt h (Rejected e))
                  /\ forall h' e', In (EvReceipt h' (Rejected e')) (run_events r)
                                   -> e' = e
    end.
Proof.
  induction fuel as [|fuel IH]; intros index fp s n;
    cbv zeta; rewrite run_retry_loop;
    destruct (map_iter_next (pendingTransactions s) index)
      as [[index' [k v]]|]; try (cbn; intros h e []).
  pose proof (visit_rejection k v fp s n) as Hvisit. cbv zeta in Hvisit.
  remember (run handle (Backend.retry_visit OWNER_WALLET k v fp) s n) as rv
    eqn:Hrv.
  clear Hrv. unfold then_run.
  destruct (run_outcome rv) as [fp'|e] eqn:Hout.
  - specialize (IH index' fp' (run_state rv) (run_network rv)).
    cbv zeta in IH.
    remember (run handle (Backend.retry_loop OWNER_WALLET fuel index' fp')
                (run_state rv) (run_network rv)) as rl eqn:Hrl.
    clear Hrl. cbn [run_events run_outcome].
    destruct (run_outcome rl) as [b|e].
    + intros h e Hin. apply in_app_or in Hin as [Hin|Hin].
      * by apply Hvisit in Hin.
      * by apply IH in Hin.
    + destruct IH as (h & Hlast & Hall). exists h. split.
      * rewrite last_app, Hlast. done.
      * intros h' e' Hin. apply in_app_or in Hin as [Hin|Hin].
        -- by apply Hvisit in Hin.
        -- by eapply Hall.
  - cbn [run_events run_outcome]. rewrite Hvisit. exists k. split; [done|].
    intros h' e' [[= _ <-]|[]]. done.
Qed.

(** X6.  The pass has no [catch]: when a receipt query rejects, the pass
    rejects with that very error, and the query is the last thing it does;
    the entries that come after are not visited.  Nothing else makes a pass
    reject. *)
Theorem pass_rejects_with_the_receipt_query
    (fuel : nat) (s : State) (n : N) :
  let r := run handle (Backend.retryPendingTransactions OWNER_WALLET fuel) s n in
  (forall h e,
     In (EvReceipt h (Rejected e)) (run_events r) ->
     run_outcome r = Rejected e
     /\ exists h', last (run_events r) = Some (EvReceipt h' (Rejected e)))
  /\ (forall e,
        run_outcome r = Rejected e ->
        exists h, last (run_events r) = Some (EvReceipt h (Rejected e))).
Proof.
  cbv zeta. rewrite run_retryPendingTransactions.
  pose proof (loop_rejection fuel 0 false s n) as Hloop. cbv zeta in Hloop.
  unfold emit, then_run.
  destruct (run_outcome (run handle (Backend.retry_loop _ fuel 0 false) s n))
    as [[[|]|]|e]; cbn [run_events run_outcome].
  1-3: split; [|discriminate];
       intros h e [Heq|Hin]; try discriminate;
       apply in_app_or in Hin as [Hin|Hin];
       [by apply Hloop in Hin | cbn in Hin; intuition discriminate].
  destruct Hloop as (h & Hlast & Hall).
  assert (last (EvConsole LogChecking
                  :: run_events (run handle
                       (Backend.retry_loop OWNER_WALLET fuel 0 false) s n))
          = Some (EvReceipt h (Rejected e))) as Hlast'.
  { destruct (run_events _) as [|e0 l]; [discriminate|].
    by rewrite last_cons, Hlast. }
  split.
  - intros h' e' [Heq|Hin]; [discriminate|].
    apply Hall in Hin as ->. eauto.
  - intros e' [= <-]. eauto.
Qed.
End ReconcilerMore.

Lemma pass_rejects_with_the_receipt_query_witness :
  let r := run (Script.handle included done_then_offline)
             (Backend.retryPendingTransactions (Some "0xOWNER") 5)
             three_pending demo_net in
  run_events r
  = [EvConsole LogChecking;
     EvReceipt "0xDONE" (Resolved (Some (mkReceipt 100)));
     EvConsole (LogAlreadyConfirmed "0xDONE");
     EvReceipt "0xLOST" (Rejected (mkError "timeout"))]
  /\ run_outcome r = Rejected (mkError "timeout")
  /\ map_keys (pendingTransactions (run_state r)) = ["0xLOST"; "0xLAST"]
  /\ exists h, last (run_events r)
               = Some (EvReceipt h (Rejected (mkError "timeout"))).
Proof.
  cbv zeta. split; [vm_compute; reflexivity|].
  split; [vm_compute; reflexivity|].
  split; [vm_compute; reflexivity|].
  pose proof (pass_rejects_with_the_receipt_query
                (Script.handle included done_then_offline) (Some "0xOWNER")
                5 three_pending demo_net) as [Hin Hout].
  cbv zeta in Hin, Hout.
  destruct (Hin "0xLOST" (mkError "timeout")) as [_ Hlast].
  - vm_compute. tauto.
  - destruct (Hout (mkError "timeout")) as [h Hh]; [vm_compute; reflexivity|].
    exact Hlast.
Defined.

(** ** A pass on a network that mines nothing *)

Lemma map_set_fresh (k : string) (v : Entry) (m : MapData) :
  map_get k m = None -> map_set k v m = (m ++ [Some (k, v)])%list.
Proof.
  induction m as [|[[k0 v0]|] m IH]; simpl; [done| |].
  - destruct (String.eqb k0 k); [done|]. intros H. by rewrite IH.
  - intros H. by rewrite IH.
Qed.

Lemma iter_from_live (slots : MapData) (index : nat) :
  iter_from slots index = None -> map_entries slots = [].
Proof.
  unfold map_entries. revert index.
  induction slots as [|[e|] slots IH]; intros index; simpl; [done|done|].
  apply IH.
Qed.

Lemma slow_never_mines : never_mines Slow.handle Slow.old.
Proof.
  split.
  - intros n. by eexists.
  - intros n. by eexists.
  - intros n tx. eexists. split; [reflexivity|]. cbn. unfold Slow.old. split.
    + intros Hold. by apply (Hold (Slow.count n)); [lia|].
    + cbn. intros c Hc [= Heq]. apply pretty_Z_inj in Heq. lia.
  - done.
  - intros R c n k Hold. unfold Slow.old in *.
    destruct c; cbn; try exact Hold.
    intros c Hc. apply Hold. lia.
Qed.

Section NothingMined.
Context {N : Type} (handle : Handler N) (old : N -> string -> Prop).
Context (OWNER_WALLET : option string).
Hypothesis nothing_mined : never_mines handle old.

Lemma process_when_nothing_is_mined
    (score address : JsValue) (s : State) (n : N) :
  (forall k, k ∈ map_keys (pendingTransactions s) -> old n k) ->
  let r := run handle (Backend.processTransaction OWNER_WALLET score address)
               s n in
  (exists h e,
     pendingTransactions (run_state r)
     = (pendingTransactions s ++ [Some (h, e)])%list)
  /\ (forall k, k ∈ map_keys (pendingTransactions (run_state r)) ->
                old (run_network r) k)
  /\ exists result, run_outcome r = Resolved result.
Proof.
  intros Hold. unfold Backend.processTransaction. cbn.
  destruct (answers_nonce _ _ nothing_mined n) as [v Hv].
  pose proof (old_stays _ _ nothing_mined _ GetNonce n) as Hstay1.
  destruct (handle _ GetNonce n) as [n1 o1]. cbn in Hv, Hstay1. subst o1. cbn.
  destruct (answers_fee _ _ nothing_mined n1) as (fee & Hf & Hp & Hm).
  pose proof (old_stays _ _ nothing_mined _ GetFeeData n1) as Hstay2.
  destruct (bool_decide (v ∈ usedNonces s)); cbn;
    destruct (handle _ GetFeeData n1) as [n2 o2]; cbn in Hf, Hstay2; subst o2;
    cbn; rewrite Hp, Hm; cbn.
  all: match goal with
       | |- context [handle _ (SendTransaction ?tx) ?n'] =>
           destruct (answers_send _ _ nothing_mined n' tx)
             as (response & Hs & Hfresh & Hnow);
           pose proof (old_stays _ _ nothing_mined _ (SendTransaction tx) n')
             as Hstay3;
           destruct (handle _ (SendTransaction tx) n') as [n3 o3]
       end.
  all: cbn in Hs, Hfresh, Hnow, Hstay3; subst o3; cbn.
  all: assert (map_get (hash response) (pendingTransactions s) = None) as Hnone
         by (apply map_get_None; intros Hin; apply Hfresh;
             by apply Hstay2, Hstay1, Hold).
  all: rewrite (map_set_fresh _ _ _ Hnone).
  all: split; [by eauto|]; split; [|by eauto].
  all: intros k; unfold map_keys, map_entries; rewrite omap_app, fmap_app;
       cbn; rewrite elem_of_app, list_elem_of_singleton; intros [Hin| ->];
       [|exact Hnow].
  all: apply Hstay3, Hstay2, Hstay1, Hold, Hin.
Qed.

Lemma loop_when_nothing_is_mined (fuel : nat) :
  forall (index : nat) (foundPending : bool) (s : State) (n : N),
    (forall k, k ∈ map_keys (pendingTransactions s) -> old n k) ->
    map_iter_next (pendingTransactions s) index ≠ None ->
    let r := run handle
               (Backend.retry_loop OWNER_WALLET fuel index foundPending) s n in
    run_outcome r = Resolved None
    /\ invocations (run_events r) = fuel
    /\ length (pendingTransactions (run_state r))
       = (length (pendingTransactions s) + fuel)%nat
    /\ map_size (pendingTransactions (run_state r))
       = (map_size (pendingTransactions s) + fuel)%nat.
Proof.
  induction fuel as [|fuel IH]; intros index fp s n Hold Hlive;
    cbv zeta; rewrite run_retry_loop;
    destruct (map_iter_next (pendingTransactions s) index)
      as [[index' [k v]]|] eqn:Hnext; try done.
  apply map_iter_next_Some in Hnext as (j & -> & Hle & Hj & Hgap).
  rewrite run_retry_visit.
  pose proof (answers_no_receipt _ _ nothing_mined n k) as Hk.
  pose proof (old_stays _ _ nothing_mined _ (GetTransactionReceipt k) n)
    as Hstay.
  destruct (handle _ (GetTransactionReceipt k) n) as [n1 o].
  cbn in Hk, Hstay. subst o.
  destruct (process_when_nothing_is_mined (entry_score v) (entry_address v)
              s n1) as ((h & e & Hreg) & Hold' & (result & Hres)).
  { intros k' Hk'. by apply Hstay, Hold. }
  pose proof (process_invoked_once handle OWNER_WALLET (entry_score v)
                (entry_address v) s n1) as [Hone _].
  cbv zeta in Hone.
  remember (run handle (Backend.processTransaction OWNER_WALLET
              (entry_score v) (entry_address v)) s n1) as p eqn:Hp.
  clear Hp.
  edestruct (IH (S j) true (run_state p) (run_network p))
    as (Hout & Hcount & Hlen & Hsize).
  { exact Hold'. }
  { intros Hnone.
    apply (map_iter_next_None _ _ Hnone (length (pendingTransactions s))
             (h, e)).
    - apply lookup_lt_Some in Hj. lia.
    - rewrite Hreg. by rewrite lookup_app_r, Nat.sub_diag by lia. }
  unfold emit, then_run. rewrite Hres.
  cbn [run_state run_network run_events run_outcome run_detached].
  rewrite app_nil_r, Hout.
  cbn [run_state run_network run_events run_outcome run_detached].
  split; [done|]. split; [|split].
  - change (invocations (run_events p ++ run_events
              (run handle (Backend.retry_loop OWNER_WALLET fuel (S j) true)
                 (run_state p) (run_network p))) = S fuel).
    rewrite invocations_app, Hone, Hcount. done.
  - rewrite Hlen, Hreg, length_app. cbn. lia.
  - rewrite Hsize, Hreg.
    unfold map_size, map_entries. rewrite omap_app, length_app. cbn. lia.
Qed.

(** X7.  On a network that accepts every broadcast under a fresh hash and
    mines nothing, a pass over a registry that holds an entry does not come
    to an end: whatever the number of visits it is given, it reaches that
    number without returning, having called [processTransaction] at each
    visit and added an entry each time.  The entry that a resend adds is
    visited by the very loop that added it. *)
Theorem pass_does_not_end_while_nothing_is_mined
    (fuel : nat) (s : State) (n : N) :
  map_entries (pendingTransactions s) ≠ [] ->
  (forall k, k ∈ map_keys (pendingTransactions s) -> old n k) ->
  let r := run handle (Backend.retryPendingTransactions OWNER_WALLET fuel) s n in
  run_outcome r = Resolved None
  /\ invocations (run_events r) = fuel
  /\ map_size (pendingTransactions (run_state r))
     = (map_size (pendingTransactions s) + fuel)%nat.
Proof.
  intros Hlive Hold. cbv zeta. rewrite run_retryPendingTransactions.
  destruct (loop_when_nothing_is_mined fuel 0 false s n Hold)
    as (Hout & Hcount & _ & Hsize).
  { unfold map_iter_next. rewrite drop_0. intros Hnone.
    by apply iter_from_live in Hnone. }
  unfold emit, then_run. rewrite Hout. cbn. rewrite app_nil_r.
  by repeat split.
Qed.
End NothingMined.

Lemma pass_does_not_end_while_nothing_is_mined_witness :
  map_entries (pendingTransactions one_pending) ≠ []
  /\ (forall k, k ∈ map_keys (pendingTransactions one_pending) ->
                Slow.old (Slow.mkNet 0) k)
  /\ let r := run Slow.handle
                (Backend.retryPendingTransactions (Some "0xOWNER") 4)
                one_pending (Slow.mkNet 0) in
     run_outcome r = Resolved None
     /\ invocations (run_events r) = 4%nat
     /\ map_size (pendingTransactions (run_state r)) = (1 + 4)%nat.
Proof.
  assert (forall k, k ∈ map_keys (pendingTransactions one_pending) ->
                    Slow.old (Slow.mkNet 0) k) as Hold.
  { intros k Hk. apply list_elem_of_singleton in Hk as ->.
    intros c _. discriminate. }
  split; [done|]. split; [exact Hold|].
  apply (pass_does_not_end_while_nothing_is_mined Slow.handle Slow.old
           (Some "0xOWNER") slow_never_mines 4 one_pending (Slow.mkNet 0));
    [done | exact Hold].
Defined.

(** ** The closing line of a pass *)

Section ClosingLine.
Context {N : Type} (handle : Handler N) (OWNER_WALLET : option string).

Lemma visit_found_pending (txHash : string) (data : Entry)
    (foundPending : bool) (s : State) (n : N) :
  let r := run handle
             (Backend.retry_visit OWNER_WALLET txHash data foundPending) s n in
  ~ In (EvConsole LogNoPending) (run_events r)
  /\ forall found,
       run_outcome r = Resolved found ->
       (found = true
        <-> foundPending = true
            \/ exists h, In (EvReceipt h (Resolved None)) (run_events r))
       /\ (found = true
           <-> foundPending = true \/ resends (run_events r) ≠ 0%nat).
Proof.
  cbv zeta. rewrite run_retry_visit.
  destruct (handle _ (GetTransactionReceipt txHash) n) as [n1 [[rc|]|e]].
  - cbn. split; [split_events|]. intros found [= <-].
    split; (split; [by left|]); [intros [H|[h Hin]]|intros [H|H]]; try done.
    revert Hin. split_events.
  - pose proof (process_registry_effect handle OWNER_WALLET (entry_score data)
                  (entry_address data) s n1) as ((result & Hres) & _).
    pose proof (process_writes_no_pass_line N handle OWNER_WALLET
                  (entry_score data) (entry_address data) s n1) as Hline.
    cbv zeta in Hres.
    remember (run handle (Backend.processTransaction OWNER_WALLET
                (entry_score data) (entry_address data)) s n1) as p eqn:Hp.
    clear Hp. unfold emit, then_run. rewrite Hres. cbn.
    rewrite app_nil_r. split.
    + intros [H|[H|H]]; try discriminate. by apply Hline.
    + intros found [= <-]. split; (split; [|done]); intros _; right.
      * exists txHash. by left.
      * unfold resends. cbn. done.
  - cbn. split; [split_events|]. discriminate.
Qed.

Lemma loop_found_pending (fuel : nat) :
  forall (index : nat) (foundPending : bool) (s : State) (n : N),
    let r := run handle
               (Backend.retry_loop OWNER_WALLET fuel index foundPending) s n in
    ~ In (EvConsole LogNoPending) (run_events r)
    /\ forall found,
         run_outcome r = Resolved (Some found) ->
         (found = true
          <-> foundPending = true
              \/ exists h, In (EvReceipt h (Resolved None)) (run_events r))
         /\ (found = true
             <-> foundPending = true \/ resends (run_events r) ≠ 0%nat).
Proof.
  induction fuel as [|fuel IH]; intros index fp s n;
    cbv zeta; rewrite run_retry_loop;
    destruct (map_iter_next (pendingTransactions s) index)
      as [[index' [k v]]|].
  1: by cbn; split; [tauto|].
  1, 3: cbn; split; [tauto|]; intros found [= <-];
        split; (split; [by left|]); [by intros [H|[h []]] | by intros [H|H]].
  destruct (visit_found_pending k v fp s n) as [Hline Hfound].
  remember (run handle (Backend.retry_visit OWNER_WALLET k v fp) s n) as rv
    eqn:Hrv.
  clear Hrv. unfold then_run.
  destruct (run_outcome rv) as [fp'|e] eqn:Hout;
    cbn [run_events run_outcome]; [|split; [exact Hline | discriminate]].
  destruct (Hfound fp' eq_refl) as [Hreceipt Hresend].
  destruct (IH index' fp' (run_state rv) (run_network rv)) as [Hline' Hfound'].
  remember (run handle (Backend.retry_loop OWNER_WALLET fuel index' fp')
              (run_state rv) (run_network rv)) as rl eqn:Hrl.
  clear Hrl. split.
  - intros Hin. apply in_app_or in Hin as [Hin|Hin]; tauto.
  - intros found Hrl. destruct (Hfound' found Hrl) as [Hreceipt' Hresend'].
    split.
    + rewrite Hreceipt', Hreceipt. split.
      * intros [[H|[h Hin]]|[h Hin]]; [by left|right; exists h..];
          apply in_or_app; tauto.
      * intros [H|[h Hin]]; [by left; left|].
        apply in_app_or in Hin as [Hin|Hin]; [left; right|right]; eauto.
    + rewrite Hresend', Hresend, resends_app. split.
      * intros [[H|H]|H]; [by left|right; lia..].
      * intros [H|H]; [by left; left|].
        destruct (resends (run_events rv)); [right; lia | left; right; lia].
Qed.

(** X8.  A pass that runs to its end writes its closing line, "No pending
    transactions found", exactly when every receipt query of the pass found
    a receipt, which is when the pass has resent nothing. *)
Theorem closing_line_iff_every_receipt_found
    (fuel : nat) (s : State) (n : N) :
  let r := run handle (Backend.retryPendingTransactions OWNER_WALLET fuel) s n in
  run_outcome r = Resolved (Some tt) ->
  (In (EvConsole LogNoPending) (run_events r)
   <-> forall h, ~ In (EvReceipt h (Resolved None)) (run_events r))
  /\ (In (EvConsole LogNoPending) (run_events r)
      <-> resends (run_events r) = 0%nat).
Proof.
  cbv zeta. rewrite run_retryPendingTransactions.
  destruct (loop_found_pending fuel 0 false s n) as [Hline Hfound].
  remember (run handle (Backend.retry_loop OWNER_WALLET fuel 0 false) s n)
    as rl eqn:Hrl.
  clear Hrl. unfold emit, then_run.
  destruct (run_outcome rl) as [[found|]|e]; cbn [run_events run_outcome];
    try discriminate.
  intros _. destruct (Hfound found eq_refl) as [Hreceipt Hresend].
  change (resends (EvConsole LogChecking :: ?l)) with (resends l).
  rewrite resends_app.
  destruct found; cbn [negb].
  - rewrite app_nil_r. change (resends []) with 0%nat.
    destruct (proj1 Hreceipt eq_refl) as [H|[h Hin]]; [done|].
    destruct (proj1 Hresend eq_refl) as [H|Hn]; [done|].
    split; split.
    + intros [H|H]; [discriminate | by apply Hline in H].
    + intros Hnone. destruct (Hnone h). by right.
    + intros [H|H]; [discriminate | by apply Hline in H].
    + lia.
  - change (resends [EvConsole LogNoPending]) with 0%nat.
    split; split.
    + intros _ h [H|Hin]; [discriminate|].
      apply in_app_or in Hin as [Hin|[H|[]]]; [|discriminate].
      assert (false = true) by (apply Hreceipt; eauto). discriminate.
    + intros _. right. apply in_or_app. right. by left.
    + intros _. destruct (resends (run_events rl)) eqn:E; [done|].
      assert (false = true) by (apply Hresend; right; done). discriminate.
    + intros _. right. apply in_or_app. right. by left.
Qed.
End ClosingLine.

Lemma closing_line_iff_every_receipt_found_witness :
  let r := run (Script.handle included done_only)
             (Backend.retryPendingTransactions (Some "0xOWNER") 5)
             two_pending lost_net in
  run_outcome r = Resolved (Some tt)
  /\ resends (run_events r) = 2%nat
  /\ ~ In (EvConsole LogNoPending) (run_events r).
Proof.
  cbv zeta. split; [vm_compute; reflexivity|].
  split; [vm_compute; reflexivity|].
  intros Hin.
  apply (closing_line_iff_every_receipt_found
           (Script.handle included done_only) (Some "0xOWNER") 5
           two_pending lost_net) in Hin; [|vm_compute; reflexivity].
  vm_compute in Hin. discriminate.
Defined.


(** ** The order of the visits *)

Lemma iter_from_entries (slots : MapData) (index index' : nat)
    (e : string * Entry) :
  iter_from slots index = Some (index', e) ->
  exists j : nat,
    index' = S (index + j)
    /\ map_entries slots = e :: map_entries (drop (S j) slots).
Proof.
  unfold map_entries. revert index.
  induction slots as [|[e0|] slots IH]; intros index; simpl.
  - done.
  - intros [= <- <-]. exists 0%nat. split; [f_equal; lia|]. by rewrite drop_0.
  - intros H. destruct (IH _ H) as (j & -> & Hj).
    exists (S j). split; [lia|]. exact Hj.
Qed.

Lemma map_iter_next_entries (m : MapData) (index index' : nat)
    (e : string * Entry) :
  map_iter_next m index = Some (index', e) ->
  map_entries (drop index m) = e :: map_entries (drop index' m).
Proof.
  unfold map_iter_next. intros H.
  apply iter_from_entries in H as (j & -> & Hj).
  rewrite Hj, drop_drop. do 3 f_equal. lia.
Qed.

Lemma map_delete_after (k : string) (v : Entry) (m : MapData) (j : nat) :
  map_wf m -> m !! j = Some (Some (k, v)) ->
  drop (S j) (map_delete k m) = drop (S j) m.
Proof.
  unfold map_wf, map_keys, map_entries. revert j.
  induction m as [|[[k0 v0]|] m IH]; intros j; simpl; [done| |].
  - rewrite NoDup_cons. intros [Hnotin Hnd] Hj.
    destruct (String.eqb k0 k) eqn:E; [done|].
    destruct j as [|j]; simpl in Hj.
    + injection Hj as -> ->. by rewrite String.eqb_refl in E.
    + simpl. by apply IH.
  - intros Hnd Hj. destruct j as [|j]; [done|]. simpl in *. by apply IH.
Qed.

Section Order.
Context {N : Type} (handle : Handler N) (OWNER_WALLET : option string).
Variable receipts : string -> Outcome (option Receipt).
Hypothesis receipts_static : answers_receipts handle receipts.

Lemma retry_loop_in_order (fuel : nat) :
  forall (index : nat) (foundPending : bool) (s : State) (n : N),
    (length (pendingTransactions s) - index <= fuel)%nat ->
    map_wf (pendingTransactions s) ->
    (forall i k v, pendingTransactions s !! i = Some (Some (k, v)) ->
                   exists rc, receipts k = Resolved (Some rc)) ->
    let r := run handle
               (Backend.retry_loop OWNER_WALLET fuel index foundPending) s n in
    run_outcome r = Resolved (Some foundPending)
    /\ run_events r
       = confirmed_visits receipts
           (map fst (map_entries (drop index (pendingTransactions s)))).
Proof.
  induction fuel as [|fuel IH]; intros index fp s n Hfuel Hwf Hall;
    cbv zeta; rewrite run_retry_loop;
    destruct (map_iter_next (pendingTransactions s) index)
      as [[index' [k v]]|] eqn:Hnext.
  2, 4: cbn; split; [done|];
        by rewrite (iter_from_live _ _ Hnext).
  all: rewrite (map_iter_next_entries _ _ _ _ Hnext);
       apply map_iter_next_Some in Hnext as (j & -> & Hle & Hj & Hgap).
  { apply lookup_lt_Some in Hj. lia. }
  rewrite run_retry_visit.
  pose proof (receipts_static k n) as Hk.
  destruct (handle _ (GetTransactionReceipt k) n) as [n1 o].
  cbn in Hk. subst o.
  destruct (Hall _ _ _ Hj) as [rc Hrc]. rewrite Hrc.
  unfold then_run. cbn.
  edestruct (IH (S j) fp
               (mkState (map_delete k (pendingTransactions s)) (usedNonces s))
               n1) as (H1 & H2).
  { cbn. rewrite length_map_delete. lia. }
  { by apply map_wf_delete. }
  { cbn. intros i k' v' Hlive. apply map_delete_slot in Hlive. eauto. }
  split; [exact H1|]. rewrite H2. cbn.
  rewrite (map_delete_after _ _ _ _ Hwf Hj), Hrc. reflexivity.
Qed.

(** X9.  When every entry of the registry has a receipt, the pass queries
    the receipt of each entry once, in the order in which the entries were
    inserted, writes "already confirmed" after each query, and closes with
    "No pending transactions found"; it does nothing else. *)
Theorem confirmed_entries_are_visited_in_insertion_order
    (fuel : nat) (s : State) (n : N) :
  map_wf (pendingTransactions s) ->
  (forall h, h ∈ map_keys (pendingTransactions s) ->
             exists receipt, receipts h = Resolved (Some receipt)) ->
  (length (pendingTransactions s) <= fuel)%nat ->
  run_events
    (run handle (Backend.retryPendingTransactions OWNER_WALLET fuel) s n)
  = (EvConsole LogChecking
       :: confirmed_visits receipts (map_keys (pendingTransactions s))
       ++ [EvConsole LogNoPending])%list.
Proof.
  intros Hwf Hall Hfuel. rewrite run_retryPendingTransactions.
  destruct (retry_loop_in_order fuel 0 false s n) as [Hout Hevents];
    [lia | exact Hwf | |].
  { intros i k v Hi. apply Hall.
    destruct (decide (k ∈ map_keys (pendingTransactions s))) as [|Hnot];
      [done|].
    apply map_get_None in Hnot. by apply slot_get in Hi. }
  unfold emit, then_run. rewrite Hout. cbn. rewrite Hevents, drop_0.
  reflexivity.
Qed.
End Order.

Lemma confirmed_entries_are_visited_in_insertion_order_witness :
  run_events
    (run (Script.handle unknown included)
         (Backend.retryPendingTransactions (Some "0xOWNER") 2)
         two_pending refusing_net)
  = [EvConsole LogChecking;
     EvReceipt "0xDONE" (Resolved (Some (mkReceipt 100)));
     EvConsole (LogAlreadyConfirmed "0xDONE");
     EvReceipt "0xLOST" (Resolved (Some (mkReceipt 100)));
     EvConsole (LogAlreadyConfirmed "0xLOST");
     EvConsole LogNoPending].
Proof.
  rewrite (confirmed_entries_are_visited_in_insertion_order
             (Script.handle unknown included) (Some "0xOWNER") included
             (fun h n => eq_refl) 2%nat two_pending refusing_net
             two_pending_wf).
  - reflexivity.
  - intros h _. by exists (mkReceipt 100).
  - cbn. lia.
Defined.


(** ** The confirmation chains *)

Lemma map_delete_absent (k : string) (m : MapData) :
  map_get k m = None -> map_delete k m = m.
Proof.
  induction m as [|[[k0 v0]|] m IH]; simpl; [done| |].
  - destruct (String.eqb k0 k); [done|]. intros H. by rewrite IH.
  - intros H. by rewrite IH.
Qed.

Lemma map_delete_comm (h k : string) (m : MapData) :
  map_delete h (map_delete k m) = map_delete k (map_delete h m).
Proof.
  induction m as [|[[k0 v0]|] m IH]; simpl; [done| |by rewrite IH].
  destruct (String.eqb k0 k) eqn:Ek, (String.eqb k0 h) eqn:Eh; simpl;
    rewrite ?Ek, ?Eh; try done.
  - apply String.eqb_eq in Ek, Eh. by subst.
  - by rewrite IH.
Qed.

Lemma map_entries_set_delete (k : string) (v : Entry) (m : MapData) :
  map_get k m = None ->
  map_entries (map_delete k (map_set k v m)) = map_entries m.
Proof.
  unfold map_entries.
  induction m as [|[[k0 v0]|] m IH]; simpl.
  - by rewrite String.eqb_refl.
  - destruct (String.eqb k0 k) eqn:E; [done|]. intros H. simpl.
    rewrite ?E. simpl. f_equal. by apply IH.
  - intros H. by apply IH.
Qed.

Section Chains.
Context {N : Type} (handle : Handler N) (OWNER_WALLET : option string).

Lemma detached_chain (t : Prog unit) :
  confirmation_chain handle OWNER_WALLET t ->
  exists h, t = Await (Wait h) (Backend.watch h).
Proof.
  intros [(score & address & s & n & Hin)|(score & address & s & n & Hin)];
    revert Hin;
    unfold Backend.processTransaction, Unnamed.processTransaction; cbn;
    settle handle; split_events; eauto.
Qed.

Lemma chain_state (h : string) (s : State) (n : N) :
  run_state (run handle (Await (Wait h) (Backend.watch h)) s n)
  = match snd (handle _ (Wait h) n) with
    | Resolved (Some _) =>
        mkState (map_delete h (pendingTransactions s)) (usedNonces s)
    | _ => s
    end.
Proof.
  cbn. by destruct (handle _ (Wait h) n) as [n' [[rc|]|e]].
Qed.

(** X10.  In both server files, a transaction that is sent under a hash new
    to the registry and then confirmed leaves the registry with the entries
    it had before the call, in their order; the chain does not touch
    [usedNonces]. *)
Theorem sent_then_confirmed_restores_the_entries
    (score address : JsValue) (raw : Raw) (s : State) (n : N) :
  restores_the_entries handle s
    (run handle (Backend.processTransaction OWNER_WALLET score address) s n)
  /\ restores_the_entries handle s
       (run handle (Unnamed.processTransaction raw address) s n).
Proof.
  unfold restores_the_entries, Backend.processTransaction,
    Unnamed.processTransaction.
  split; cbn; settle handle; intros tx response t n' receipt;
    split_events.
  all: revert H2; cbn;
       destruct (handle _ (Wait (hash response)) n') as [n'' [[rc|]|e]];
       split_events.
  all: split; [by apply map_entries_set_delete | reflexivity].
Qed.

(** X11.  In both server files, a confirmation that arrives after the
    entry has left the registry, because a pass of the reconciler has
    deleted it in between, changes nothing: whatever the wait gives, the
    chain leaves the state as it is. *)
Theorem late_confirmation_changes_nothing
    (score address : JsValue) (raw : Raw) (s : State) (n : N) :
  confirms_late handle
    (run handle (Backend.processTransaction OWNER_WALLET score address) s n)
  /\ confirms_late handle
       (run handle (Unnamed.processTransaction raw address) s n).
Proof.
  unfold confirms_late, Backend.processTransaction,
    Unnamed.processTransaction.
  split; cbn; settle handle; intros tx response t s' n'; split_events.
  all: rewrite chain_state;
       destruct (snd (handle _ (Wait (hash response)) n')) as [[rc|]|e];
       try reflexivity.
  all: rewrite map_delete_absent by assumption; by destruct s'.
Qed.

(** X12.  Confirmations may arrive in any order.  When the wait for a hash
    settles in the same way whenever it is asked, two chains, of calls in
    either server file, leave the same state whichever of them runs
    first. *)
Theorem confirmations_commute
    (waits : string -> Outcome (option Receipt)) (t1 t2 : Prog unit)
    (s : State) (n : N) :
  answers_waits handle waits ->
  confirmation_chain handle OWNER_WALLET t1 ->
  confirmation_chain handle OWNER_WALLET t2 ->
  let w1 := run handle t1 s n in
  let w2 := run handle t2 s n in
  run_state (run handle t2 (run_state w1) (run_network w1))
  = run_state (run handle t1 (run_state w2) (run_network w2)).
Proof.
  intros Hwaits H1 H2.
  destruct (detached_chain t1 H1) as [h1 ->].
  destruct (detached_chain t2 H2) as [h2 ->].
  cbv zeta. rewrite !chain_state, !Hwaits.
  destruct (waits h1) as [[r1|]|e1], (waits h2) as [[r2|]|e2];
    try reflexivity.
  cbn. by rewrite map_delete_comm.
Qed.
End Chains.

Lemma sent_then_confirmed_restores_the_entries_witness :
  let r := run demo_handle
             (Backend.processTransaction (Some "0xOWNER") (JNum 42)
                (JStr "0xABC")) one_pending demo_net in
  let w := run demo_handle (Await (Wait "0xHASH") (Backend.watch "0xHASH"))
             (run_state r) demo_net in
  map_keys (pendingTransactions (run_state r)) = ["0xOLD"; "0xHASH"]
  /\ map_entries (pendingTransactions (run_state w))
     = map_entries (pendingTransactions one_pending).
Proof.
  split; [reflexivity|].
  apply (proj1 (sent_then_confirmed_restores_the_entries demo_handle
                  (Some "0xOWNER") (JNum 42) (JStr "0xABC") (Plain (JNum 42))
                  one_pending demo_net)
           demo_tx (mkResponse "0xHASH") _ demo_net (mkReceipt 100)).
  - vm_compute. tauto.
  - reflexivity.
  - left. reflexivity.
  - vm_compute. tauto.
Defined.

Lemma late_confirmation_changes_nothing_witness :
  run_state
    (run demo_handle (Await (Wait "0xHASH") (Backend.watch "0xHASH"))
       one_pending demo_net)
  = one_pending.
Proof.
  apply (proj1 (late_confirmation_changes_nothing demo_handle
                  (Some "0xOWNER") (JNum 42) (JStr "0xABC") (Plain (JNum 42))
                  one_pending demo_net)
           demo_tx (mkResponse "0xHASH")).
  - vm_compute. tauto.
  - left. reflexivity.
  - reflexivity.
Defined.

Lemma confirmations_commute_witness :
  let s := mkState [Some ("0xHASH", old_entry); Some ("0xNEW", old_entry)] ∅ in
  let t1 := Await (Wait "0xHASH") (Backend.watch "0xHASH") in
  let t2 := Await (Wait "0xNEW") (Unnamed.watch "0xNEW") in
  let w1 := run demo_handle t1 s demo_net in
  let w2 := run demo_handle t2 s demo_net in
  run_state (run demo_handle t2 (run_state w1) (run_network w1))
  = run_state (run demo_handle t1 (run_state w2) (run_network w2)).
Proof.
  apply (confirmations_commute demo_handle (Some "0xOWNER") included).
  - intros h n. reflexivity.
  - left. exists (JNum 42), (JStr "0xABC"), one_pending, demo_net.
    left. reflexivity.
  - right. exists (Plain (JNum 42)), (JStr "0xABC"), one_pending, lost_net.
    left. reflexivity.
Defined.

(** ** The reply of [POST /jump] and the registry *)

Section Reply.
Context {N : Type} (handle : Handler N) (OWNER_WALLET : option string).

(** X13.  In [src/backend/Server.js] a reply of [POST /jump] is sent only
    for a body whose [score] and [address] convert to strings; it has
    status 202 whether the transaction was sent or not, and its [success]
    flag tells what the server tracks.  When it is [true], a broadcast of
    the request has succeeded: the reply carries the hash that the network
    gave for it, the registry holds under that hash an entry with the nonce
    of the transaction handed over and the score and the address of the
    request, and the chain that waits for the inclusion of that hash is
    detached.  When it is [false], no broadcast has succeeded, the reply
    carries no hash, the registry is as it was before the request and
    nothing waits. *)
Theorem reply_tells_what_is_tracked
    (body : Body) (s : State) (n : N) (reply : Reply) :
  let r := run handle (Backend.jump OWNER_WALLET body) s n in
  In (EvReply reply) (run_events r) ->
  exists score address details,
    body = Some (Plain score, Plain address)
    /\ reply_status reply = 202
    /\ reply_details reply = Some details
    /\ (reply_success reply = true ->
        reply_message reply = "Transaction sent successfully."
        /\ exists tx response,
             In (EvSend tx (Resolved response)) (run_events r)
             /\ reply_transactionHash details = or_null (Some (hash response))
             /\ In (ReplyHash (or_else (Some (hash response)) "N/A"))
                   (reply_logs details)
             /\ pendingTransactions (run_state r)
                = map_set (hash response)
                    (mkEntry (nonce tx) score address)
                    (pendingTransactions s)
             /\ run_detached r
                = [Await (Wait (hash response))
                     (Backend.watch (hash response))])
    /\ (reply_success reply = false ->
        reply_message reply = "Transaction failed."
        /\ reply_transactionHash details = None
        /\ (forall tx response,
              ~ In (EvSend tx (Resolved response)) (run_events r))
        /\ pendingTransactions (run_state r) = pendingTransactions s
        /\ run_detached r = []).
Proof.
  destruct body as [[[score|json] [address|json']]|]; try (by intros r []).
  unfold Backend.jump, Backend.processTransaction. cbn.
  settle handle; split_events.
  all: do 3 eexists; split; [reflexivity|]; split; [reflexivity|].
  all: split; [reflexivity|]; split; cbn; intros Hflag; try discriminate.
  all: split; [reflexivity|].
  all: try (do 2 eexists; split; [cbn; eauto 10|];
            split; [reflexivity|]; split; [cbn; tauto|];
            split; reflexivity).
  all: split; [reflexivity|]; split; [|split; reflexivity].
  all: intros tx response; split_events.
Qed.
End Reply.

Lemma reply_tells_what_is_tracked_witness :
  let r := run demo_handle
             (Backend.jump (Some "0xOWNER")
                (Some (Plain (JNum 42), Plain (JStr "0xABC"))))
             initial_state demo_net in
  exists reply details,
    In (EvReply reply) (run_events r)
    /\ reply_details reply = Some details
    /\ reply_success reply = true
    /\ reply_status reply = 202
    /\ reply_transactionHash details = Some "0xHASH"
    /\ map_entries (pendingTransactions (run_state r))
       = [("0xHASH", mkEntry 7 (JNum 42) (JStr "0xABC"))].
Proof.
  do 2 eexists. split; [vm_compute; do 6 right; left; reflexivity|].
  split; [reflexivity|]. split; [reflexivity|].
  edestruct (reply_tells_what_is_tracked demo_handle (Some "0xOWNER")
               (Some (Plain (JNum 42), Plain (JStr "0xABC")))
               initial_state demo_net)
    as (score & address & details & Hbody & Hstatus & Hdetails & Hsent & _).
  { vm_compute. do 6 right. left. reflexivity. }
  split; [exact Hstatus|]. split; reflexivity.
Defined.


(** ** The page served at [/] *)















Lemma failed_call_leaves_the_registry_witness :
  (let r := run demo_handle
              (Backend.processTransaction (Some "0xOWNER") (JNum 42)
                 (JStr "0xABC")) one_pending no_priority_net in
   run_outcome r = Resolved (Failure "⚠️ Could not fetch gas fee data.")
   /\ pendingTransactions (run_state r) = pendingTransactions one_pending
   /\ run_detached r = [])
  /\ (let r := run demo_handle
                 (Unnamed.processTransaction (Opaque "{toString:1}")
                    (JStr "0xABC")) (mkState [] {[ 7 ]}) demo_net in
      run_outcome r
      = Resolved (Failure "Cannot convert object to primitive value")
      /\ In (EvSend (mkTx (JStr "0xABC") parseEther_0_0001 21000 7 (Some 1)
                       (Some 10))
               (Resolved (mkResponse "0xHASH"))) (run_events r)
      /\ pendingTransactions (run_state r) = []
      /\ run_detached r = []).
Proof.
  split.
  - split; [reflexivity|].
    destruct (proj1 (failed_call_leaves_the_registry demo_handle
                       (Some "0xOWNER") (JNum 42) (JStr "0xABC")
                       (Plain (JNum 42)) one_pending no_priority_net)
                "⚠️ Could not fetch gas fee data." eq_refl)
      as (Hreg & Hdet & _).
    by split.
  - split; [reflexivity|]. split; [vm_compute; tauto|].
    destruct (failed_call_leaves_the_registry demo_handle
                (Some "0xOWNER") (JNum 42) (JStr "0xABC")
                (Opaque "{toString:1}") (mkState [] {[ 7 ]}) demo_net)
      as (_ & _ & Hquiet & _).
    exact (Hquiet "Cannot convert object to primitive value" eq_refl).
Defined.

Lemma call_marks_its_nonce_as_used_witness :
  (let r := run demo_handle
              (Backend.processTransaction (Some "0xOWNER") (JNum 42)
                 (JStr "0xABC")) initial_state no_priority_net in
   run_outcome r = Resolved (Failure "⚠️ Could not fetch gas fee data.")
   /\ usedNonces (run_state r) = {[ 7 ]} ∪ usedNonces initial_state
   /\ In (EvConsole (LogUsingNonce 7 (JNum 42))) (run_events r))
  /\ (let r := run demo_handle
                 (Unnamed.processTransaction (Opaque "{toString:1}")
                    (JStr "0xABC")) initial_state demo_net in
      run_outcome r
      = Resolved (Failure "Cannot convert object to primitive value")
      /\ usedNonces (run_state r) = usedNonces initial_state).
Proof.
  split.
  - split; [reflexivity|].
    destruct (proj1 (call_marks_its_nonce_as_used demo_handle
                       (Some "0xOWNER") (JNum 42) (JStr "0xABC")
                       "{toString:1}" initial_state no_priority_net))
      as (_ & Hmark & _).
    destruct (Hmark 7) as [Hset Hline].
    + vm_compute. tauto.
    + split; [exact Hset|]. apply Hline. cbn. apply not_elem_of_empty.
  - split; [reflexivity|].
    destruct (call_marks_its_nonce_as_used demo_handle
                (Some "0xOWNER") (JNum 42) (JStr "0xABC")
                "{toString:1}" initial_state demo_net)
      as (_ & _ & Hleft & _).
    exact Hleft.
Defined.


(** ** A pass while no broadcast succeeds *)

Lemma sweep_keys (receipts : string -> Outcome (option Receipt))
    (m : MapData) :
  map_keys (sweep receipts 0 m)
  = List.filter (unconfirmed receipts) (map_keys m).
Proof.
  unfold map_keys, map_entries.
  induction m as [|[[k v]|] m IH]; simpl; [done| |done].
  destruct (unconfirmed receipts k); simpl; [f_equal|]; exact IH.
Qed.

Lemma sweep_skip (receipts : string -> Outcome (option Receipt))
    (m : MapData) (j : nat) :
  forall (index : nat) (k : string) (v : Entry),
    (index <= j)%nat ->
    m !! j = Some (Some (k, v)) ->
    (forall i, (index <= i < j)%nat -> m !! i = Some None) ->
    unconfirmed receipts k = true ->
    sweep receipts (S j) m = sweep receipts index m.
Proof.
  revert m. induction j as [|j IH]; intros [|slot m] index k v Hle Hj Hgap Hk;
    try done.
  - assert (index = 0)%nat as -> by lia. simpl in Hj. injection Hj as ->.
    simpl. by rewrite Hk.
  - simpl in Hj. destruct index as [|index].
    + pose proof (Hgap 0%nat ltac:(lia)) as H0. simpl in H0.
      injection H0 as ->. simpl. f_equal.
      apply (IH m 0%nat k v); [lia | done | | done].
      intros i Hi. apply (Hgap (S i)). lia.
    + simpl. f_equal.
      apply (IH m index k v); [lia | done | | done].
      intros i Hi. apply (Hgap (S i)). lia.
Qed.

Lemma sweep_delete (receipts : string -> Outcome (option Receipt))
    (m : MapData) (j : nat) :
  forall (index : nat) (k : string) (v : Entry),
    map_wf m ->
    (index <= j)%nat ->
    m !! j = Some (Some (k, v)) ->
    (forall i, (index <= i < j)%nat -> m !! i = Some None) ->
    unconfirmed receipts k = false ->
    sweep receipts (S j) (map_delete k m) = sweep receipts index m.
Proof.
  unfold map_wf, map_keys, map_entries.
  revert m.
  induction j as [|j IH]; intros [|slot m] index k v Hwf Hle Hj Hgap Hk;
    try done.
  - assert (index = 0)%nat as -> by lia. simpl in Hj. injection Hj as ->.
    simpl. by rewrite String.eqb_refl, Hk.
  - simpl in Hj. destruct index as [|index].
    + pose proof (Hgap 0%nat ltac:(lia)) as H0. simpl in H0.
      injection H0 as ->. simpl. f_equal.
      apply (IH m 0%nat k v); [done | lia | done | | done].
      intros i Hi. apply (Hgap (S i)). lia.
    + destruct slot as [[k0 v0]|]; simpl.
      * simpl in Hwf. apply NoDup_cons in Hwf as [Hnotin Hwf].
        destruct (String.eqb k0 k) eqn:E.
        -- apply String.eqb_eq in E as ->. destruct Hnotin.
           assert (map_get k m ≠ None) as Hlive by (by eapply slot_get).
           destruct (decide (k ∈ map_keys m)) as [Hin|Hnot]; [exact Hin|].
           by apply map_get_None in Hnot.
        -- simpl. f_equal.
           apply (IH m index k v); [done | lia | done | | done].
           intros i Hi. apply (Hgap (S i)). lia.
      * f_equal.
        apply (IH m index k v); [done | lia | done | | done].
        intros i Hi. apply (Hgap (S i)). lia.
Qed.

Lemma sweep_end (receipts : string -> Outcome (option Receipt))
    (m : MapData) :
  forall index : nat,
    (forall i e, (index <= i)%nat -> m !! i ≠ Some (Some e)) ->
    sweep receipts index m = m.
Proof.
  induction m as [|slot m IH]; intros index Hnone; [by destruct index|].
  destruct index as [|index]; simpl.
  - destruct slot as [[k v]|].
    + by destruct (Hnone 0%nat (k, v) ltac:(lia)).
    + f_equal. apply IH. intros i e Hi. apply (Hnone (S i) e). lia.
  - f_equal. apply IH. intros i e Hi. apply (Hnone (S i) e). lia.
Qed.

Section Refused.
Context {N : Type} (handle : Handler N) (OWNER_WALLET : option string).
Variable receipts : string -> Outcome (option Receipt).
Hypothesis receipts_static : answers_receipts handle receipts.
Hypothesis no_broadcast : refuses handle.

Lemma process_refused (score address : JsValue) (s : State) (n : N) :
  let r := run handle (Backend.processTransaction OWNER_WALLET score address)
               s n in
  pendingTransactions (run_state r) = pendingTransactions s
  /\ exists result, run_outcome r = Resolved result.
Proof.
  unfold Backend.processTransaction. cbn.
  settle handle; try (split; [reflexivity | eauto]).
  all: match goal with
       | H : handle _ (SendTransaction ?tx) ?n' = (_, Resolved ?response)
         |- _ =>
           destruct (no_broadcast n' tx response); by rewrite H
       end.
Qed.

Lemma retry_loop_refused (fuel : nat) :
  forall (index : nat) (foundPending : bool) (s : State) (n : N),
    (length (pendingTransactions s) - index <= fuel)%nat ->
    map_wf (pendingTransactions s) ->
    (forall i k v, pendingTransactions s !! i = Some (Some (k, v)) ->
                   exists o, receipts k = Resolved o) ->
    let r := run handle
               (Backend.retry_loop OWNER_WALLET fuel index foundPending) s n in
    (exists found, run_outcome r = Resolved (Some found))
    /\ pendingTransactions (run_state r)
       = sweep receipts index (pendingTransactions s)
    /\ invocations (run_events r)
       = length (List.filter (unconfirmed receipts)
                   (map fst (map_entries
                               (drop index (pendingTransactions s))))).
Proof.
  induction fuel as [|fuel IH]; intros index fp s n Hfuel Hwf Hall;
    cbv zeta; rewrite run_retry_loop;
    destruct (map_iter_next (pendingTransactions s) index)
      as [[index' [k v]]|] eqn:Hnext.
  2, 4: cbn; split; [by eauto|]; split;
        [symmetry; apply sweep_end; intros i e Hi;
         by eapply map_iter_next_None
        |by rewrite (iter_from_live _ _ Hnext)].
  all: rewrite (map_iter_next_entries _ _ _ _ Hnext);
       apply map_iter_next_Some in Hnext as (j & -> & Hle & Hj & Hgap).
  { apply lookup_lt_Some in Hj. lia. }
  rewrite run_retry_visit.
  pose proof (receipts_static k n) as Hk.
  destruct (handle _ (GetTransactionReceipt k) n) as [n1 o].
  cbn in Hk. subst o.
  destruct (Hall _ _ _ Hj) as [[rc|] Hrc]; rewrite Hrc.
  - edestruct (IH (S j) fp
                 (mkState (map_delete k (pendingTransactions s))
                    (usedNonces s)) n1) as ((found & H1) & H2 & H3).
    { cbn. rewrite length_map_delete. lia. }
    { by apply map_wf_delete. }
    { cbn. intros i k' v' Hlive. apply map_delete_slot in Hlive. eauto. }
    cbn [pendingTransactions] in H2, H3.
    unfold emit, then_run.
    cbn [run_state run_network run_events run_outcome run_detached].
    remember (run handle (Backend.retry_loop OWNER_WALLET fuel (S j) fp)
                (mkState (map_delete k (pendingTransactions s))
                   (usedNonces s)) n1) as rl eqn:Hrl.
    clear Hrl. rewrite H1.
    cbn [run_state run_network run_events run_outcome run_detached app].
    split; [by eauto|].
    change (invocations (EvReceipt k ?o :: EvConsole ?c :: ?l))
      with (invocations l).
    rewrite H2, H3. cbn [List.filter map fst].
    unfold unconfirmed at 2. rewrite Hrc.
    rewrite (map_delete_after _ _ _ _ Hwf Hj).
    split; [|reflexivity].
    apply (sweep_delete receipts _ j index k v); try done.
    unfold unconfirmed. by rewrite Hrc.
  - destruct (process_refused (entry_score v) (entry_address v) s n1)
      as (Hreg & result & Hres).
    pose proof (process_invoked_once handle OWNER_WALLET (entry_score v)
                  (entry_address v) s n1) as [Hone _].
    cbv zeta in Hone.
    remember (run handle (Backend.processTransaction OWNER_WALLET
                (entry_score v) (entry_address v)) s n1) as p eqn:Hp.
    clear Hp.
    edestruct (IH (S j) true (run_state p) (run_network p))
      as ((found & H1) & H2 & H3).
    { rewrite Hreg. lia. }
    { by rewrite Hreg. }
    { rewrite Hreg. exact Hall. }
    unfold emit, then_run. rewrite Hres.
    cbn [run_state run_network run_events run_outcome run_detached].
    rewrite app_nil_r, H1.
    cbn [run_state run_network run_events run_outcome run_detached].
    split; [by eauto|]. rewrite H2, Hreg. split.
    + apply (sweep_skip receipts _ j index k v); try done.
      unfold unconfirmed. by rewrite Hrc.
    + change (invocations (run_events p ++ run_events
                (run handle (Backend.retry_loop OWNER_WALLET fuel (S j) true)
                   (run_state p) (run_network p)))
              = length (List.filter (unconfirmed receipts)
                          (k :: map fst (map_entries
                                  (drop (S j) (pendingTransactions s)))))).
      rewrite invocations_app, Hone, H3, Hreg. cbn [List.filter].
      unfold unconfirmed at 2. by rewrite Hrc.
Qed.

(** X15.  While no broadcast succeeds, a pass does come to an end, within
    as many visits as the registry has slots: the entries that have a
    receipt are deleted, the others stay as they were and in their order,
    and [processTransaction] was called once for each of them. *)
Theorem pass_ends_when_no_broadcast_succeeds
    (fuel : nat) (s : State) (n : N) :
  map_wf (pendingTransactions s) ->
  (forall h, h ∈ map_keys (pendingTransactions s) ->
             exists o, receipts h = Resolved o) ->
  (length (pendingTransactions s) <= fuel)%nat ->
  let r := run handle (Backend.retryPendingTransactions OWNER_WALLET fuel) s n in
  run_outcome r = Resolved (Some tt)
  /\ pendingTransactions (run_state r)
     = sweep receipts 0 (pendingTransactions s)
  /\ map_keys (pendingTransactions (run_state r))
     = List.filter (unconfirmed receipts) (map_keys (pendingTransactions s))
  /\ invocations (run_events r)
     = length (List.filter (unconfirmed receipts)
                 (map_keys (pendingTransactions s))).
Proof.
  intros Hwf Hall Hfuel. cbv zeta. rewrite run_retryPendingTransactions.
  destruct (retry_loop_refused fuel 0 false s n)
    as ((found & Hout) & Hreg & Hcount); [lia | exact Hwf | |].
  { intros i k v Hi. apply Hall.
    destruct (decide (k ∈ map_keys (pendingTransactions s))) as [|Hnot];
      [done|].
    apply map_get_None in Hnot. by apply slot_get in Hi. }
  rewrite drop_0 in Hcount.
  unfold emit, then_run. rewrite Hout.
  cbn [run_state run_network run_events run_outcome run_detached].
  split; [done|]. split; [exact Hreg|]. split.
  - rewrite Hreg. apply sweep_keys.
  - change (invocations (EvConsole LogChecking :: ?l)) with (invocations l).
    rewrite invocations_app, Hcount.
    by destruct found; cbn; rewrite Nat.add_0_r.
Qed.
End Refused.

Lemma pass_ends_when_no_broadcast_succeeds_witness :
  let r := run (Broke.handle done_only)
             (Backend.retryPendingTransactions (Some "0xOWNER") 2)
             two_pending tt in
  run_outcome r = Resolved (Some tt)
  /\ map_keys (pendingTransactions (run_state r)) = ["0xLOST"]
  /\ invocations (run_events r) = 1%nat.
Proof.
  destruct (pass_ends_when_no_broadcast_succeeds (Broke.handle done_only)
              (Some "0xOWNER") done_only (fun h n => eq_refl)
              (fun n tx response H => ltac:(discriminate H))
              2%nat two_pending tt two_pending_wf)
    as (Hout & _ & Hkeys & Hcount).
  - intros h _. unfold done_only. destruct (String.eqb h "0xDONE"); eauto.
  - cbn. lia.
  - split; [exact Hout|]. split; [exact Hkeys | exact Hcount].
Defined.


(** ** The registry holds hashes of broadcasts only *)

Lemma tracks_mono {A : Type} (p : Prog A) :
  forall K K' : string -> Prop,
    (forall h, K h -> K' h) -> tracks K p -> tracks K' p.
Proof.
  induction p as [A a|A e|A R c k IH|A X g k IH|A l k IH|A r k IH
                 |A R c h IHh k IH]; intros K K' Hsub; cbn; try done.
  - intros Hp r. eapply IH; [|apply Hp]. cbn. intros h [H|H]; auto.
  - intros [Hf Hk]. split.
    + intros K'' s Hsub'. apply Hf. auto.
    + intros x. by eapply IH.
  - by apply IH.
  - by apply IH.
  - intros [Hh Hk]. split.
    + intros r. eapply IHh; [|apply Hh]. cbn. intros h' [H|H]; auto.
    + by eapply IH.
Qed.

Lemma advance_tracks {A : Type} (p : Prog A) :
  forall (K : string -> Prop) (s : State),
    tracks K p -> registry_within K s ->
    registry_within K (sync_state (advance p s))
    /\ tracks K (sync_rest (advance p s))
    /\ Forall (tracks K) (sync_detached (advance p s))
    /\ forall tx o, ~ In (EvSend tx o) (sync_events (advance p s)).
Proof.
  induction p as [A a|A e|A R c k IH|A X g k IH|A l k IH|A r k IH
                 |A R c h _ k IH]; intros K s Hp Hs; cbn in *.
  1-3: by repeat split; try constructor; try tauto.
  - destruct Hp as [Hf Hk]. specialize (Hf K s (fun h H => H) Hs).
    destruct (g s) as [s' x]. by apply IH.
  - destruct (IH K s Hp Hs) as (H1 & H2 & H3 & H4).
    repeat split; try done. intros tx o [H|H]; [done | by eapply H4].
  - destruct (IH K s Hp Hs) as (H1 & H2 & H3 & H4).
    repeat split; try done. intros tx o [H|H]; [done | by eapply H4].
  - destruct Hp as [Hh Hk]. destruct (IH K s Hk Hs) as (H1 & H2 & H3 & H4).
    repeat split; try done. by constructor.
Qed.

Lemma allowed_app (K0 : string -> Prop) (trace more : list (nat * Event))
    (h : string) :
  allowed K0 trace h -> allowed K0 (trace ++ more) h.
Proof.
  intros [H|(i & tx & response & Hin & Hh)]; [by left|]. right.
  exists i, tx, response. split; [|done]. apply in_or_app. by left.
Qed.

Lemma learned_allowed {R : Type} (K0 : string -> Prop)
    (trace more : list (nat * Event)) (i : nat) (c : Call R) (r : Outcome R)
    (h : string) :
  learned c r h ->
  allowed K0 (trace ++ (i, call_event c r) :: more) h.
Proof.
  destruct c; cbn; try done. destruct r as [response|e]; [|done].
  intros <-. right. exists i, tx, response. split; [|done].
  apply in_or_app. right. by left.
Qed.

Section Registry.
Context {N : Type} (handle : Handler N) (K0 : string -> Prop).

Lemma resume_tracks (i : nat) (c c' : Config N) :
  pool_tracks K0 c -> resume handle i c = Some c' -> pool_tracks K0 c'.
Proof.
  intros [Hreg Hpool]. unfold resume.
  destruct (cfg_pool c !! i) as [[A p]|] eqn:Hi; [|done].
  destruct p as [| |R call k| | | |]; try done.
  destruct (handle R call (cfg_network c)) as [n' r].
  intros [= <-].
  pose proof (Forall_lookup_1 _ _ _ _ Hpool Hi) as Hp. cbn in Hp.
  set (trace' := (cfg_trace c
                    ++ map (pair i)
                         (call_event call r
                            :: sync_events (advance (k r) (cfg_state c))))%list).
  assert (forall h, allowed K0 (cfg_trace c) h -> allowed K0 trace' h) as Hold
    by (intros h; apply allowed_app).
  assert (tracks (allowed K0 trace') (k r)) as Hk.
  { eapply tracks_mono; [|apply (Hp r)]. cbn.
    intros h [H|H]; [by apply Hold|]. by apply learned_allowed. }
  destruct (advance_tracks (k r) (allowed K0 trace') (cfg_state c) Hk)
    as (H1 & H2 & H3 & _).
  { intros h Hh. by apply Hold, Hreg. }
  split; cbn [cfg_state cfg_pool cfg_trace]; fold trace'; [exact H1|].
  apply Forall_app. split.
  - apply Forall_insert; [|exact H2].
    eapply Forall_impl; [exact Hpool|].
    intros t Ht. by eapply tracks_mono.
  - apply Forall_fmap. exact H3.
Qed.

Lemma exec_tracks (schedule : list nat) :
  forall c c' : Config N,
    pool_tracks K0 c -> exec handle schedule c = Some c' -> pool_tracks K0 c'.
Proof.
  induction schedule as [|i schedule IH]; intros c c' Hc; simpl.
  - by intros [= <-].
  - destruct (resume handle i c) as [c1|] eqn:Hstep; [|done].
    apply IH. by eapply resume_tracks.
Qed.

Lemma start_from_tracks {A : Type} (calls : list (Prog A)) :
  forall (detached : list (Prog unit)) (c : Config N),
    Forall (tracks K0) calls ->
    Forall (tracks (allowed K0 (cfg_trace c))) detached ->
    pool_tracks K0 c ->
    pool_tracks K0 (start_from calls detached c).
Proof.
  induction calls as [|p calls IH]; intros detached c Hcalls Hdet [Hreg Hpool];
    simpl.
  - split; [exact Hreg|]. cbn. apply Forall_app. split; [done|].
    by apply Forall_fmap.
  - apply Forall_cons in Hcalls as [Hp Hcalls].
    set (trace' := (cfg_trace c
                      ++ map (pair (length (cfg_pool c)))
                           (sync_events (advance p (cfg_state c))))%list).
    assert (forall h, allowed K0 (cfg_trace c) h -> allowed K0 trace' h)
      as Hold by (intros h; apply allowed_app).
    destruct (advance_tracks p (allowed K0 trace') (cfg_state c))
      as (H1 & H2 & H3 & _).
    { eapply tracks_mono; [|exact Hp]. intros h Hh. by left. }
    { intros h Hh. by apply Hold, Hreg. }
    apply IH; [done | |].
    + cbn [cfg_trace]. fold trace'. apply Forall_app. split; [|exact H3].
      eapply Forall_impl; [exact Hdet|].
      intros t Ht. by eapply tracks_mono.
    + split; cbn [cfg_state cfg_pool cfg_trace]; fold trace'; [exact H1|].
      apply Forall_app. split; [|by constructor].
      eapply Forall_impl; [exact Hpool|].
      intros t Ht. by eapply tracks_mono.
Qed.

Lemma registry_of_schedule {A : Type} (calls : list (Prog A)) (s : State)
    (n : N) (schedule : list nat) (c' : Config N) :
  Forall (tracks K0) calls ->
  registry_within K0 s ->
  exec handle schedule (start calls s n) = Some c' ->
  registry_within (allowed K0 (cfg_trace c')) (cfg_state c').
Proof.
  intros Hcalls Hs Hexec.
  eapply (exec_tracks schedule _ c'); [|exact Hexec].
  apply start_from_tracks; [done | constructor |].
  split; [|constructor]. intros h Hh. left. by apply Hs.
Qed.
End Registry.

Lemma map_keys_set (k h : string) (e : Entry) (m : MapData) :
  k ∈ map_keys (map_set h e m) -> k = h \/ k ∈ map_keys m.
Proof.
  destruct (map_get h m) eqn:E.
  - rewrite map_keys_set_present by congruence. by right.
  - rewrite map_keys_set_fresh by done.
    rewrite elem_of_app, list_elem_of_singleton. tauto.
Qed.

Lemma registry_within_set (K : string -> Prop) (s : State) (h : string)
    (e : Entry) (used : gset Z) :
  K h -> registry_within K s ->
  registry_within K (mkState (map_set h e (pendingTransactions s)) used).
Proof.
  intros Hh Hs k Hk. cbn in Hk.
  apply map_keys_set in Hk as [->|Hk]; [done | by apply Hs].
Qed.

Lemma registry_within_delete (K : string -> Prop) (s : State) (h : string)
    (used : gset Z) :
  registry_within K s ->
  registry_within K (mkState (map_delete h (pendingTransactions s)) used).
Proof.
  intros Hs k Hk. cbn in Hk. apply Hs.
  by apply (proj1 (map_keys_delete h (pendingTransactions s))).
Qed.

(** A program tracks its broadcasts: by cases on every answer and every
    test. *)
Ltac track :=
  repeat (cbn;
          match goal with
          | |- True => exact I
          | |- _ /\ _ => split
          | |- registry_within _ (mkState (map_set _ _ _) _) =>
              apply registry_within_set; [auto 6 | assumption]
          | |- registry_within _ (mkState (map_delete _ _) _) =>
              apply registry_within_delete; assumption
          | |- registry_within _ _ => assumption
          | |- forall _ : Outcome (option Receipt), _ => intros [[?|]|?]
          | |- forall _ : Outcome _, _ => intros [?|?]
          | |- forall _ : unit, _ => intros []
          | |- forall _ : bool, _ => intros []
          | |- forall _ : option Receipt, _ => intros [?|]
          | |- forall _, _ => intro
          | |- context [truthy ?x] => destruct (truthy x)
          | |- context [convert ?r] => destruct r
          | |- context [destructure ?b] => destruct b
          end).

Lemma processTransaction_tracks (K : string -> Prop)
    (OWNER_WALLET : option string) (score address : JsValue) :
  tracks K (Backend.processTransaction OWNER_WALLET score address).
Proof. unfold Backend.processTransaction. track. Qed.

Lemma unnamed_processTransaction_tracks (K : string -> Prop)
    (score : Raw) (address : JsValue) :
  tracks K (Unnamed.processTransaction score address).
Proof. unfold Unnamed.processTransaction. track. Qed.

Lemma jump_tracks (K : string -> Prop) (OWNER_WALLET : option string)
    (body : Body) :
  tracks K (Backend.jump OWNER_WALLET body).
Proof. unfold Backend.jump, Backend.processTransaction. track. Qed.

Lemma unnamed_jump_tracks (K : string -> Prop) (body : Body) :
  tracks K (Unnamed.jump body).
Proof. unfold Unnamed.jump, Unnamed.processTransaction. track. Qed.

Lemma retry_loop_tracks (OWNER_WALLET : option string) (fuel : nat) :
  forall (K : string -> Prop) (index : nat) (foundPending : bool),
    tracks K (Backend.retry_loop OWNER_WALLET fuel index foundPending).
Proof.
  induction fuel as [|fuel IH]; intros K index fp; cbn;
    (split; [intros K' s _ Hs; exact Hs|]);
    intros [[index' [k v]]|]; cbn; try exact I.
  unfold Backend.retry_visit, Backend.processTransaction.
  track; apply IH.
Qed.

Lemma tracks_bind {A B : Type} (p : Prog A) (f : A -> Prog B) :
  forall K : string -> Prop,
    tracks K p ->
    (forall (K' : string -> Prop) (a : A),
       (forall h, K h -> K' h) -> tracks K' (f a)) ->
    tracks K (bind p f).
Proof.
  induction p as [A a|A e|A R c k IH|A X g k IH|A l k IH|A r k IH
                 |A R c h _ k IH]; intros K Hp Hf; cbn in *.
  - by apply Hf.
  - done.
  - intros r. apply IH; [apply Hp|].
    intros K' a Hsub. apply Hf. intros h Hh. apply Hsub. by left.
  - destruct Hp as [Hg Hk]. split; [exact Hg|]. intros x. by apply IH.
  - by apply IH.
  - by apply IH.
  - destruct Hp as [Hh Hk]. split; [exact Hh|]. by apply IH.
Qed.

Lemma retryPendingTransactions_tracks (OWNER_WALLET : option string)
    (fuel : nat) (K : string -> Prop) :
  tracks K (Backend.retryPendingTransactions OWNER_WALLET fuel).
Proof.
  unfold Backend.retryPendingTransactions. cbn.
  apply tracks_bind; [apply retry_loop_tracks|].
  intros K' [[|]|] _; cbn; tauto.
Qed.

Section Tracked.
Context {N : Type} (handle : Handler N).

(** X16.  Under every schedule of any number of requests to [POST /jump],
    in either server file, and under every schedule of a pass of the
    reconciler with the chains it detaches, the registry holds nothing but
    keys that it held at the start and hashes that the network gave for a
    broadcast of the trace: no step of the server sets a key of its own
    making. *)
Theorem registry_holds_broadcast_hashes_only
    (OWNER_WALLET : option string) (bodies : list Body)
    (fuel : nat) (s : State) (n : N) (schedule : list nat) (c' : Config N) :
  let known := fun k => k ∈ map_keys (pendingTransactions s) in
  (exec handle schedule (start (backend_requests OWNER_WALLET bodies) s n)
   = Some c' ->
   registry_within (allowed known (cfg_trace c')) (cfg_state c'))
  /\ (exec handle schedule (start (unnamed_requests bodies) s n) = Some c' ->
      registry_within (allowed known (cfg_trace c')) (cfg_state c'))
  /\ (exec handle schedule
        (start [Backend.retryPendingTransactions OWNER_WALLET fuel] s n)
      = Some c' ->
      registry_within (allowed known (cfg_trace c')) (cfg_state c')).
Proof.
  cbv zeta.
  split; [|split]; apply registry_of_schedule; try (by intros k Hk).
  - apply Forall_map, Forall_forall. intros a _. apply jump_tracks.
  - apply Forall_map, Forall_forall. intros a _. apply unnamed_jump_tracks.
  - repeat constructor. apply retryPendingTransactions_tracks.
Qed.
End Tracked.

Lemma registry_holds_broadcast_hashes_only_witness :
  exists c',
    exec Ledger.handle [0; 1; 0; 1; 0; 1]%nat
      (start (backend_requests (Some "0xOWNER") two_bodies) initial_state
         (Ledger.mkNet 7 [])) = Some c'
    /\ map_keys (pendingTransactions (cfg_state c')) = ["0x7"; "0x8"]
    /\ registry_within
         (allowed (fun k => k ∈ map_keys (pendingTransactions initial_state))
            (cfg_trace c'))
         (cfg_state c').
Proof.
  eexists. split; [vm_compute; reflexivity|]. split; [reflexivity|].
  apply (proj1 (registry_holds_broadcast_hashes_only Ledger.handle
                  (Some "0xOWNER") two_bodies 0 initial_state
                  (Ledger.mkNet 7 [])
                  [0; 1; 0; 1; 0; 1]%nat _)).
  vm_compute. reflexivity.
Defined.

Lemma pass_over_an_empty_registry_witness :
  let swept := mkState [None; None] ∅ in
  run demo_handle (Backend.retryPendingTransactions (Some "0xOWNER") 3)
      swept demo_net
  = mkRun swept demo_net [EvConsole LogChecking; EvConsole LogNoPending] []
          (Resolved (Some tt)).
Proof.
  apply (pass_over_an_empty_registry demo_handle (Some "0xOWNER") 3
           (mkState [None; None] ∅) demo_net).
  reflexivity.
Defined.



(** ** What a pass does to one entry *)

Lemma slot_key (m : MapData) (i : nat) (k : string) (v : Entry) :
  m !! i = Some (Some (k, v)) -> k ∈ map_keys m.
Proof.
  intros Hi. destruct (decide (k ∈ map_keys m)) as [|Hnot]; [done|].
  apply map_get_None in Hnot. by apply slot_get in Hi.
Qed.

Lemma slot_key_unique (m : MapData) :
  forall (i j : nat) (k : string) (v v' : Entry),
    map_wf m ->
    m !! i = Some (Some (k, v)) -> m !! j = Some (Some (k, v')) -> i = j.
Proof.
  unfold map_wf, map_keys, map_entries.
  induction m as [|[[k0 v0]|] m IH]; intros i j k v v'; simpl; [done| |].
  - rewrite NoDup_cons. intros [Hnotin Hnd] Hi Hj.
    destruct i as [|i], j as [|j]; simpl in *; [done| | |].
    + injection Hi as -> ->. destruct Hnotin. by eapply slot_key.
    + injection Hj as -> ->. destruct Hnotin. by eapply slot_key.
    + f_equal. by eapply IH.
  - intros Hnd Hi Hj. destruct i as [|i], j as [|j]; simpl in *; try done.
    f_equal. by eapply IH.
Qed.


Lemma map_delete_other_slot (k : string) (m : MapData) :
  forall (j : nat) (h : string) (d : Entry),
    m !! j = Some (Some (h, d)) -> k ≠ h ->
    map_delete k m !! j = Some (Some (h, d)).
Proof.
  induction m as [|[[k0 v0]|] m IH]; intros j h d; simpl; [done| |].
  - destruct (String.eqb k0 k) eqn:E; destruct j as [|j]; simpl; auto.
    apply String.eqb_eq in E as ->. by intros [= -> ->].
  - destruct j as [|j]; simpl; auto.
Qed.

Lemma map_set_other_slot (k : string) (e : Entry) (m : MapData) :
  forall (j : nat) (h : string) (d : Entry),
    m !! j = Some (Some (h, d)) -> k ≠ h ->
    map_set k e m !! j = Some (Some (h, d)).
Proof.
  induction m as [|[[k0 v0]|] m IH]; intros j h d; simpl; [done| |].
  - destruct (String.eqb k0 k) eqn:E; destruct j as [|j]; simpl; auto.
    apply String.eqb_eq in E as ->. by intros [= -> ->].
  - destruct j as [|j]; simpl; auto.
Qed.

Lemma length_map_set (k : string) (e : Entry) (m : MapData) :
  (length m <= length (map_set k e m))%nat.
Proof.
  induction m as [|[[k0 v0]|] m IH]; simpl; [lia| |lia].
  destruct (String.eqb k0 k); simpl; lia.
Qed.

Ltac quiet :=
  unfold silent_on; repeat split; unfold not; intros;
  repeat match goal with H : In _ _ |- _ => cbn in H end;
  split_events; try done.

Section Reach.
Context {N : Type} (handle : Handler N) (OWNER_WALLET : option string).

Lemma never_given_app (h : string) (l1 l2 : list Event) :
  never_given h (l1 ++ l2) <-> never_given h l1 /\ never_given h l2.
Proof.
  unfold never_given. split.
  - intros H. split; intros tx response Hin; apply (H tx response);
      apply in_or_app; auto.
  - intros [H1 H2] tx response Hin.
    apply in_app_or in Hin as [Hin|Hin]; eauto.
Qed.

Lemma silent_on_app (h : string) (l1 l2 : list Event) :
  silent_on h (l1 ++ l2) <-> silent_on h l1 /\ silent_on h l2.
Proof.
  unfold silent_on. split.
  - intros (H1 & H2 & H3).
    repeat split; unfold not; intros;
      solve [ eapply H1; apply in_or_app; eauto
            | apply H2; apply in_or_app; eauto
            | apply H3; apply in_or_app; eauto ].
  - intros [(H1 & H2 & H3) (H4 & H5 & H6)].
    repeat split; unfold not; intros;
      match goal with Hin : In _ (_ ++ _) |- _ =>
        apply in_app_or in Hin as [Hin|Hin];
        solve [ eapply H1; eauto | eapply H2; eauto | eapply H3; eauto
              | eapply H4; eauto | eapply H5; eauto | eapply H6; eauto ] end.
Qed.

Lemma process_sets_the_hash (score address : JsValue) (s : State) (n : N) :
  let r := run handle (Backend.processTransaction OWNER_WALLET score address)
               s n in
  (exists result, run_outcome r = Resolved result)
  /\ (pendingTransactions (run_state r) = pendingTransactions s
      \/ exists tx response,
           In (EvSend tx (Resolved response)) (run_events r)
           /\ pendingTransactions (run_state r)
              = map_set (hash response) (mkEntry (nonce tx) score address)
                  (pendingTransactions s))
  /\ forall h, silent_on h (run_events r).
Proof.
  unfold Backend.processTransaction, silent_on. cbn.
  settle handle.
  all: split; [eauto|]; split.
  all: try (intros h; repeat split; unfold not; intros; split_events).
  all: try by left.
  all: right; do 2 eexists; split;
    [cbn; repeat first [ left; reflexivity | right ] | reflexivity].
Qed.

(** The visit of another entry leaves the entry [h] where it stands. *)
Lemma visit_other (k : string) (v : Entry) (foundPending : bool)
    (s : State) (n : N) (j : nat) (h : string) (data : Entry) :
  let r := run handle
             (Backend.retry_visit OWNER_WALLET k v foundPending) s n in
  map_wf (pendingTransactions s) ->
  pendingTransactions s !! j = Some (Some (h, data)) ->
  k ≠ h ->
  never_given h (run_events r) ->
  map_wf (pendingTransactions (run_state r))
  /\ pendingTransactions (run_state r) !! j = Some (Some (h, data))
  /\ silent_on h (run_events r)
  /\ (forall i k' v',
        (i < length (pendingTransactions s))%nat ->
        pendingTransactions (run_state r) !! i = Some (Some (k', v')) ->
        exists v'', pendingTransactions s !! i = Some (Some (k', v''))).
Proof.
  cbv zeta. rewrite run_retry_visit. intros Hwf Hj Hne.
  destruct (handle _ (GetTransactionReceipt k) n) as [n1 [[rc|]|e]].
  - cbn. intros _. split; [by apply map_wf_delete|].
    split; [by apply map_delete_other_slot|]. split.
    + quiet.
    + intros i k' v' _ Hi. apply map_delete_slot in Hi. eauto.
  - pose proof (process_sets_the_hash (entry_score v) (entry_address v) s n1)
      as ((result & Hres) & Hreg & Hsilent).
    cbv zeta in Hres, Hreg, Hsilent.
    remember (run handle (Backend.processTransaction OWNER_WALLET
                (entry_score v) (entry_address v)) s n1) as p eqn:Hp.
    clear Hp. unfold emit, then_run. rewrite Hres.
    cbn [run_state run_events run_outcome]. rewrite app_nil_r.
    intros Hfresh.
    assert (never_given h (run_events p)) as Hfresh'.
    { intros tx response Hin. apply (Hfresh tx response). by do 2 right. }
    split; [|split; [|split]].
    + destruct Hreg as [->|(tx & response & _ & ->)];
        [done | by apply map_wf_set].
    + destruct Hreg as [->|(tx & response & Hin & ->)]; [done|].
      apply map_set_other_slot; [done|]. by apply (Hfresh' tx response).
    + destruct (Hsilent h) as (H1 & H2 & H3).
      unfold silent_on. repeat split; unfold not; intros;
        match goal with Hin : In _ (_ :: _ :: _) |- _ =>
          destruct Hin as [Heq|[Heq|Hin]]; simplify_eq; try done;
          solve [ eapply H1; eauto | apply H2; eauto | apply H3; eauto ] end.
    + intros i k' v' Hi Hlive.
      destruct Hreg as [Heq|(tx & response & _ & Heq)]; rewrite Heq in Hlive;
        [eauto|].
      by eapply map_set_slot.
  - cbn. intros _. split; [done|]. split; [done|]. split; [|eauto].
    quiet.
Qed.


(** The visit of another entry does not make [h] a key of the registry. *)
Lemma visit_absent (k : string) (v : Entry) (foundPending : bool)
    (s : State) (n : N) (h : string) :
  let r := run handle
             (Backend.retry_visit OWNER_WALLET k v foundPending) s n in
  map_get h (pendingTransactions s) = None ->
  k ≠ h ->
  never_given h (run_events r) ->
  map_get h (pendingTransactions (run_state r)) = None
  /\ silent_on h (run_events r).
Proof.
  cbv zeta. rewrite run_retry_visit. intros Hnone Hne.
  destruct (handle _ (GetTransactionReceipt k) n) as [n1 [[rc|]|e]].
  - cbn. intros _. split; [by rewrite map_get_delete_ne | quiet].
  - pose proof (process_sets_the_hash (entry_score v) (entry_address v) s n1)
      as ((result & Hres) & Hreg & Hsilent).
    cbv zeta in Hres, Hreg, Hsilent.
    remember (run handle (Backend.processTransaction OWNER_WALLET
                (entry_score v) (entry_address v)) s n1) as p eqn:Hp.
    clear Hp. unfold emit, then_run. rewrite Hres.
    cbn [run_state run_events run_outcome]. rewrite app_nil_r.
    intros Hfresh. split.
    + destruct Hreg as [->|(tx & response & Hin & ->)]; [done|].
      rewrite map_get_set_ne; [done|].
      apply (Hfresh tx response). by do 2 right.
    + destruct (Hsilent h) as (H1 & H2 & H3).
      unfold silent_on. repeat split; unfold not; intros;
        match goal with Hin : In _ (_ :: _ :: _) |- _ =>
          destruct Hin as [Heq|[Heq|Hin]]; simplify_eq; try done;
          solve [ eapply H1; eauto | apply H2; eauto | apply H3; eauto ] end.
  - cbn. intros _. split; [done | quiet].
Qed.

(** While [h] is not a key of the registry, the loop does not make it
    one, and says nothing of it. *)
Lemma loop_absent (h : string) (fuel : nat) :
  forall (index : nat) (foundPending : bool) (s : State) (n : N),
    let r := run handle
               (Backend.retry_loop OWNER_WALLET fuel index foundPending) s n in
    map_get h (pendingTransactions s) = None ->
    never_given h (run_events r) ->
    map_get h (pendingTransactions (run_state r)) = None
    /\ silent_on h (run_events r).
Proof.
  assert (silent_on h []) as Hnil by quiet.
  induction fuel as [|fuel IH]; intros index fp s n;
    cbv zeta; rewrite run_retry_loop;
    destruct (map_iter_next (pendingTransactions s) index)
      as [[index' [k v]]|] eqn:Hnext; try (by intros; cbn).
  intros Hnone.
  assert (k ≠ h) as Hne.
  { intros ->. apply map_iter_next_Some in Hnext as (j0 & _ & _ & Hj0 & _).
    by apply slot_get in Hj0. }
  pose proof (visit_absent k v fp s n h) as Hvisit.
  cbv zeta in Hvisit.
  remember (run handle (Backend.retry_visit OWNER_WALLET k v fp) s n) as rv
    eqn:Hrv.
  clear Hrv. unfold then_run.
  destruct (run_outcome rv) as [fp'|e];
    cbn [run_state run_events run_outcome].
  - specialize (IH index' fp' (run_state rv) (run_network rv)).
    cbv zeta in IH.
    remember (run handle (Backend.retry_loop OWNER_WALLET fuel index' fp')
                (run_state rv) (run_network rv)) as rl eqn:Hrl.
    clear Hrl. intros Hfresh. apply never_given_app in Hfresh as [Hf1 Hf2].
    destruct (Hvisit Hnone Hne Hf1) as [Ha Hs1].
    destruct (IH Ha Hf2) as [Ha' Hs2].
    split; [done | by apply silent_on_app].
  - auto.
Qed.
End Reach.

Section Reached.
Context {N : Type} (handle : Handler N) (OWNER_WALLET : option string).
Variable receipts : string -> Outcome (option Receipt).
Hypothesis receipts_static : answers_receipts handle receipts.

Lemma visit_resolves (k : string) (v : Entry) (foundPending : bool)
    (s : State) (n : N) (o : option Receipt) :
  receipts k = Resolved o ->
  exists found,
    run_outcome
      (run handle (Backend.retry_visit OWNER_WALLET k v foundPending) s n)
    = Resolved found.
Proof.
  intros Hk. rewrite run_retry_visit.
  pose proof (receipts_static k n) as Hs. rewrite Hk in Hs.
  destruct (handle _ (GetTransactionReceipt k) n) as [n1 o'].
  cbn in Hs. subst o'. destruct o as [rc|].
  - cbn. eauto.
  - pose proof (process_sets_the_hash handle OWNER_WALLET (entry_score v)
                  (entry_address v) s n1) as ((result & Hres) & _).
    cbv zeta in Hres. unfold emit, then_run. rewrite Hres. cbn. eauto.
Qed.

Lemma visit_resends_unconfirmed (k : string) (v : Entry) (foundPending : bool)
    (s : State) (n : N) (h : string) :
  In (EvConsole (LogResending h))
    (run_events
       (run handle (Backend.retry_visit OWNER_WALLET k v foundPending) s n)) ->
  receipts h = Resolved None.
Proof.
  rewrite run_retry_visit. pose proof (receipts_static k n) as Hs.
  destruct (handle _ (GetTransactionReceipt k) n) as [n1 [[rc|]|e]];
    cbn in Hs.
  - cbn. intros [?|[?|[]]]; discriminate.
  - pose proof (process_sets_the_hash handle OWNER_WALLET (entry_score v)
                  (entry_address v) s n1) as ((result & Hres) & _ & Hsilent).
    cbv zeta in Hres, Hsilent. unfold emit, then_run. rewrite Hres.
    cbn [run_events]. rewrite app_nil_r.
    intros [?|[Heq|Hin]]; [discriminate| |].
    + by injection Heq as <-.
    + destruct (Hsilent h) as (_ & H2 & _). by destruct H2.
  - cbn. intros [?|[]]; discriminate.
Qed.

(** The loop resends only entries that have no receipt, whether or not it
    comes to an end. *)
Lemma loop_resends_unconfirmed (fuel : nat) :
  forall (index : nat) (foundPending : bool) (s : State) (n : N) (h : string),
    In (EvConsole (LogResending h))
      (run_events
         (run handle (Backend.retry_loop OWNER_WALLET fuel index foundPending)
            s n)) ->
    receipts h = Resolved None.
Proof.
  induction fuel as [|fuel IH]; intros index fp s n h;
    rewrite run_retry_loop;
    destruct (map_iter_next (pendingTransactions s) index)
      as [[index' [k v]]|]; try (by cbn).
  pose proof (visit_resends_unconfirmed k v fp s n h) as Hvisit.
  remember (run handle (Backend.retry_visit OWNER_WALLET k v fp) s n) as rv
    eqn:Hrv.
  clear Hrv. unfold then_run.
  destruct (run_outcome rv) as [fp'|e]; cbn [run_events]; [|done].
  intros Hin. apply in_app_or in Hin as [Hin|Hin]; [auto | by eapply IH].
Qed.

(** The loop comes to the entry at slot [j] when the bound allows it and
    the receipt queries for the entries before it are answered. *)
Lemma loop_reaches (h : string) (data : Entry) (j : nat) (fuel : nat) :
  forall (index : nat) (foundPending : bool) (s : State) (n : N),
    let r := run handle
               (Backend.retry_loop OWNER_WALLET fuel index foundPending) s n in
    map_wf (pendingTransactions s) ->
    (index <= j < index + fuel)%nat ->
    pendingTransactions s !! j = Some (Some (h, data)) ->
    (forall i k v,
       (index <= i < j)%nat ->
       pendingTransactions s !! i = Some (Some (k, v)) ->
       exists o, receipts k = Resolved o) ->
    never_given h (run_events r) ->
    exists (before : list Event) (fuel' : nat) (found : bool)
           (s1 : State) (n1 : N),
      let r1 := then_run
                  (run handle
                     (Backend.retry_visit OWNER_WALLET h data found) s1 n1)
                  (fun found' =>
                     run handle
                       (Backend.retry_loop OWNER_WALLET fuel' (S j) found')) in
      run_events r = (before ++ run_events r1)%list
      /\ run_state r = run_state r1
      /\ run_outcome r = run_outcome r1
      /\ silent_on h before
      /\ map_wf (pendingTransactions s1)
      /\ pendingTransactions s1 !! j = Some (Some (h, data)).
Proof.
  assert (silent_on h []) as Hnil by quiet.
  induction fuel as [|fuel IH]; intros index fp s n r;
    [intros _ Hrange; lia|].
  intros Hwf Hrange Hj Hgap.
  assert (r = run handle
                (Backend.retry_loop OWNER_WALLET (S fuel) index fp) s n)
    as Hr by reflexivity.
  clearbody r. rewrite run_retry_loop in Hr.
  destruct (map_iter_next (pendingTransactions s) index)
    as [[index' [k v]]|] eqn:Hnext.
  2: { pose proof (map_iter_next_None _ _ Hnext j (h, data)) as Hn.
       destruct Hn; [lia | done]. }
  apply map_iter_next_Some in Hnext as (j0 & -> & Hle & Hj0 & Hgap0).
  destruct (decide (j0 = j)) as [->|Hnej].
  - rewrite Hj in Hj0. injection Hj0 as <- <-. intros _. subst r.
    by exists [], fuel, fp, s, n.
  - assert (j0 < j)%nat as Hlt.
    { destruct (decide (j < j0)%nat) as [Hjj|]; [|lia].
      rewrite Hgap0 in Hj by lia. discriminate. }
    assert (k ≠ h) as Hne.
    { intros ->. pose proof (slot_key_unique _ _ _ _ _ _ Hwf Hj Hj0). lia. }
    destruct (Hgap j0 k v ltac:(lia) Hj0) as [o Ho].
    destruct (visit_resolves k v fp s n o Ho) as [fp' Hout].
    pose proof (visit_other handle OWNER_WALLET k v fp s n j h data) as Hvisit.
    cbv zeta in Hvisit.
    remember (run handle (Backend.retry_visit OWNER_WALLET k v fp) s n) as rv
      eqn:Hrv.
    clear Hrv. unfold then_run in Hr. rewrite Hout in Hr.
    specialize (IH (S j0) fp' (run_state rv) (run_network rv)).
    cbv zeta in IH.
    remember (run handle (Backend.retry_loop OWNER_WALLET fuel (S j0) fp')
                (run_state rv) (run_network rv)) as rl eqn:Hrl.
    clear Hrl. subst r. cbn [run_state run_events run_outcome].
    intros Hfresh. apply never_given_app in Hfresh as [Hf1 Hf2].
    destruct (Hvisit Hwf Hj Hne Hf1) as (Hwf' & Hj' & Hs1 & Hkeys).
    destruct IH as (before & fuel' & found & s1 & n1 & Hev & Hst & Ho' & Hsil
                    & Hwf1 & Hj1); [done | lia | done | | done |].
    { intros i k' v' Hi Hlive.
      destruct (Hkeys i k' v') as [v'' Hv''];
        [|done|by eapply Hgap; [|done]; lia].
      apply lookup_lt_Some in Hj. lia. }
    exists (run_events rv ++ before)%list, fuel', found, s1, n1. cbv zeta.
    rewrite Hev, <- app_assoc. repeat split; try done.
    all: by apply silent_on_app.
Qed.

(** A pass comes to the entry at slot [j] under the same conditions. *)
Lemma pass_reaches (h : string) (data : Entry) (j fuel : nat)
    (s : State) (n : N) :
  let r := run handle (Backend.retryPendingTransactions OWNER_WALLET fuel)
               s n in
  map_wf (pendingTransactions s) ->
  pendingTransactions s !! j = Some (Some (h, data)) ->
  (j < fuel)%nat ->
  answered_before receipts (pendingTransactions s) j ->
  never_given h (run_events r) ->
  exists (before after : list Event) (fuel' : nat) (found : bool)
         (s1 : State) (n1 : N),
    let r1 := then_run
                (run handle
                   (Backend.retry_visit OWNER_WALLET h data found) s1 n1)
                (fun found' =>
                   run handle
                     (Backend.retry_loop OWNER_WALLET fuel' (S j) found')) in
    run_events r = (before ++ run_events r1 ++ after)%list
    /\ run_state r = run_state r1
    /\ silent_on h before /\ silent_on h after
    /\ never_given h (run_events r1)
    /\ map_wf (pendingTransactions s1)
    /\ pendingTransactions s1 !! j = Some (Some (h, data)).
Proof.
  cbv zeta. intros Hwf Hj Hfuel Hgap. rewrite run_retryPendingTransactions.
  pose proof (loop_reaches h data j fuel 0 false s n) as Hreach.
  cbv zeta in Hreach.
  remember (run handle (Backend.retry_loop OWNER_WALLET fuel 0 false) s n)
    as rl eqn:Hrl.
  clear Hrl. intros Hfresh.
  assert (never_given h (run_events rl)) as Hfresh'.
  { intros tx response Hin. apply (Hfresh tx response).
    unfold emit, then_run.
    destruct (run_outcome rl) as [[f|]|e]; cbn [run_events];
      right; try done; apply in_or_app; by left. }
  destruct Hreach as (before & fuel' & found & s1 & n1 & Hev & Hst & Ho & Hsil
                      & Hwf1 & Hj1); [done | lia | done | | done |].
  { intros i k v Hi. apply Hgap. lia. }
  cbv zeta in Hev, Hst, Ho.
  exists (EvConsole LogChecking :: before),
    (match run_outcome rl with
     | Resolved (Some false) => [EvConsole LogNoPending]
     | _ => []
     end), fuel', found, s1, n1.
  cbv zeta.
  assert (never_given h (before ++ run_events
            (then_run
               (run handle (Backend.retry_visit OWNER_WALLET h data found)
                  s1 n1)
               (fun found' =>
                  run handle
                    (Backend.retry_loop OWNER_WALLET fuel' (S j) found')))))
    as Hf2 by (by rewrite <- Hev).
  apply never_given_app in Hf2 as [_ Hf2]. rewrite <- Hst.
  split; [|split; [|split; [|split; [|done]]]].
  - rewrite app_assoc, <- app_comm_cons, <- Hev.
    unfold emit, then_run.
    destruct (run_outcome rl) as [[[|]|]|e]; cbn [run_events negb];
      by rewrite ?app_nil_r.
  - unfold emit, then_run.
    by destruct (run_outcome rl) as [[[|]|]|e].
  - change (silent_on h ([EvConsole LogChecking] ++ before)).
    apply silent_on_app. split; [quiet | done].
  - destruct (run_outcome rl) as [[[|]|]|e]; quiet.
Qed.

(** The visit of an entry whose receipt query answers a receipt. *)
Lemma visit_with_receipt (h : string) (data : Entry) (foundPending : bool)
    (s : State) (n : N) (receipt : Receipt) :
  receipts h = Resolved (Some receipt) ->
  exists n1 : N,
    run handle (Backend.retry_visit OWNER_WALLET h data foundPending) s n
    = mkRun (mkState (map_delete h (pendingTransactions s)) (usedNonces s)) n1
        [EvReceipt h (Resolved (Some receipt));
         EvConsole (LogAlreadyConfirmed h)] [] (Resolved foundPending).
Proof.
  intros Hh. rewrite run_retry_visit.
  pose proof (receipts_static h n) as Hs. rewrite Hh in Hs.
  destruct (handle _ (GetTransactionReceipt h) n) as [n1 o].
  cbn in Hs. subst o. by exists n1.
Qed.


(** C8, as the code has it.  The network answering the receipt queries of
    the pass from the table [receipts]:
    - a pass calls [processTransaction] as many times as it writes the
      "Resending" line, once before each call, and it writes no such line
      for a handle that has a receipt, however it ends;
    - when the bound of the pass lets it come to the slot of an entry that
      has a receipt, the receipt queries for the entries before it are
      answered, and no broadcast of the pass is given the hash of the
      entry, then the pass queries the receipt of the entry once, writes
      the "already confirmed" line for it, and the handle is no key of the
      registry at the end of the pass;
    - after a pass that runs to its end, no handle that has a receipt is
      left in the registry;
    - when every entry of the registry has a receipt, the pass does run to
      its end, within as many visits as the registry has slots: it leaves
      the registry without any entry and never calls
      [processTransaction], whose first step is the [getNonce] call. *)
Theorem reconciler_removes_confirmed_entries
    (fuel : nat) (s : State) (n : N) :
  let r := run handle (Backend.retryPendingTransactions OWNER_WALLET fuel) s n in
  map_wf (pendingTransactions s) ->
  invocations (run_events r) = resends (run_events r)
  /\ (forall h receipt,
        receipts h = Resolved (Some receipt) ->
        ~ In (EvConsole (LogResending h)) (run_events r))
  /\ (forall h data receipt j,
        receipts h = Resolved (Some receipt) ->
        pendingTransactions s !! j = Some (Some (h, data)) ->
        (j < fuel)%nat ->
        answered_before receipts (pendingTransactions s) j ->
        never_given h (run_events r) ->
        (exists before after : list Event,
           run_events r
           = (before
              ++ EvReceipt h (Resolved (Some receipt))
                 :: EvConsole (LogAlreadyConfirmed h) :: after)%list
           /\ silent_on h before /\ silent_on h after)
        /\ map_get h (pendingTransactions (run_state r)) = None)
  /\ (run_outcome r = Resolved (Some tt) ->
      forall h receipt,
        receipts h = Resolved (Some receipt) ->
        map_get h (pendingTransactions (run_state r)) = None)
  /\ ((forall h, h ∈ map_keys (pendingTransactions s) ->
                 exists receipt, receipts h = Resolved (Some receipt)) ->
      (length (pendingTransactions s) <= fuel)%nat ->
      run_outcome r = Resolved (Some tt)
      /\ (forall h, map_get h (pendingTransactions (run_state r)) = None)
      /\ (forall o, ~ In (EvGetNonce o) (run_events r))).
Proof.
  intros r Hwf. subst r. split; [apply (pass_counts handle OWNER_WALLET)|].
  split; [|split].
  - intros h receipt Hh. rewrite run_retryPendingTransactions.
    pose proof (loop_resends_unconfirmed fuel 0 false s n h) as Hloop.
    remember (run handle (Backend.retry_loop OWNER_WALLET fuel 0 false) s n)
      as rl eqn:Hrl.
    clear Hrl. unfold emit, then_run.
    destruct (run_outcome rl) as [[[|]|]|e]; cbn [run_events negb];
      intros [Heq|Hin]; try discriminate;
      try (apply in_app_or in Hin as [Hin|Hin]);
      try (apply Hloop in Hin; congruence);
      cbn in Hin; intuition discriminate.
  - intros h data receipt j Hh Hj Hfuel Hgap Hfresh.
    destruct (pass_reaches h data j fuel s n Hwf Hj Hfuel Hgap Hfresh)
      as (before & tail & fuel' & found & s1 & n1 & Hev & Hst & Hsb & Hsa & Hf1
          & Hwf1 & Hj1).
    cbv zeta in Hev, Hst, Hf1.
    destruct (visit_with_receipt h data found s1 n1 receipt Hh) as [n1' Hvisit].
    rewrite Hvisit in Hev, Hst, Hf1. unfold then_run in Hev, Hst, Hf1.
    cbn [run_state run_network run_events run_outcome] in Hev, Hst, Hf1.
    pose proof (loop_absent handle OWNER_WALLET h fuel' (S j) found
                  (mkState (map_delete h (pendingTransactions s1))
                     (usedNonces s1)) n1') as Habs.
    cbv zeta in Habs.
    remember (run handle (Backend.retry_loop OWNER_WALLET fuel' (S j) found)
                (mkState (map_delete h (pendingTransactions s1))
                   (usedNonces s1)) n1') as rl eqn:Hrl.
    clear Hrl.
    destruct Habs as [Hgone Hsl].
    { cbn. by apply map_get_delete_eq. }
    { intros tx response Hin. apply (Hf1 tx response). by do 2 right. }
    split; [|by rewrite Hst].
    exists before, (run_events rl ++ tail)%list.
    split; [by rewrite Hev|]. split; [done | by apply silent_on_app].
  - rewrite run_retryPendingTransactions. split.
    + unfold then_run.
      destruct (run_outcome (run handle (Backend.retry_loop _ fuel 0 false) s n))
        as [[fp|]|e] eqn:Hout; cbn; try discriminate.
      intros _ h receipt Hh.
      destruct (retry_loop_settles handle OWNER_WALLET receipts receipts_static
                  fuel 0 false s n fp Hwf) as (_ & Hlive & _);
        [intros i k v Hi; lia | exact Hout |].
      destruct (map_get h _) as [v|] eqn:Hget; [|done].
      apply get_slot in Hget as [i Hi]. apply Hlive in Hi. congruence.
    + intros Hall Hfuel.
      destruct (retry_loop_all_confirmed handle OWNER_WALLET receipts
                  receipts_static fuel 0 false s n)
        as (Hout & Hgone & _ & Hcalls); [lia | exact Hwf | |].
      { intros i k v Hi. apply Hall. by eapply slot_key. }
      unfold then_run. rewrite Hout. cbn. split; [done|]. split.
      * intros h. destruct (map_get h _) as [v|] eqn:Hget; [|done].
        apply get_slot in Hget as [i Hi]. by apply Hgone in Hi; [|lia].
      * intros o [Heq|Hin]; [discriminate|].
        apply in_app_or in Hin as [Hin|[Heq|[]]];
          [by eapply Hcalls | discriminate].
Qed.

End Reached.



Lemma lost_then_done_wf : map_wf (pendingTransactions lost_then_done).
Proof.
  unfold map_wf. cbn. apply NoDup_cons. split; [|apply NoDup_singleton].
  intros H. apply list_elem_of_singleton in H. discriminate.
Qed.


(** A pass over a registry whose lost entry stands before the confirmed
    one, on a network that knows the receipt of ["0xDONE"] only and refuses
    the resend: the pass comes to ["0xDONE"], finds its receipt and removes
    it. *)
Lemma reconciler_removes_confirmed_entries_witness :
  let r := run (Script.handle included done_only)
               (Backend.retryPendingTransactions (Some "0xOWNER") 5)
               lost_then_done refusing_net in
  (exists before after : list Event,
     run_events r
     = (before
        ++ EvReceipt "0xDONE" (Resolved (Some (mkReceipt 100)))
           :: EvConsole (LogAlreadyConfirmed "0xDONE") :: after)%list
     /\ silent_on "0xDONE" before /\ silent_on "0xDONE" after)
  /\ map_get "0xDONE" (pendingTransactions (run_state r)) = None
  /\ ~ In (EvConsole (LogResending "0xDONE")) (run_events r).
Proof.
  destruct (reconciler_removes_confirmed_entries
              (Script.handle included done_only) (Some "0xOWNER") done_only
              (fun h n => eq_refl) 5%nat lost_then_done refusing_net
              lost_then_done_wf) as (_ & Hnever & Hreach & _).
  destruct (Hreach "0xDONE" (mkEntry 5 (JNum 10) (JStr "0xAAA")) (mkReceipt 100)
              1%nat eq_refl eq_refl ltac:(lia)) as [Hvisit Hgone].
  { intros [|i] k v Hi; [|lia]. intros [= <- <-]. by eexists. }
  { intros tx response Hin. vm_compute in Hin.
    repeat destruct Hin as [Hin|Hin]; try discriminate; try done. }
  split; [exact Hvisit|]. split; [exact Hgone|].
  apply (Hnever "0xDONE" (mkReceipt 100) eq_refl).
Defined.

(** Against C8 as the specification states it: a pass over the same
    registry on a network that knows the receipt of ["0xDONE"] and fails
    the receipt query for ["0xLOST"].  The pass has no [catch]: the failed
    query rejects it at the first entry, and ["0xDONE"], which has a
    receipt, is never queried and stays in the registry. *)
Lemma reconciler_rejects_before_a_confirmed_entry :
  let r := run (Script.handle included done_then_offline)
               (Backend.retryPendingTransactions (Some "0xOWNER") 5)
               lost_then_done refusing_net in
  done_then_offline "0xDONE" = Resolved (Some (mkReceipt 100))
  /\ run_outcome r = Rejected (mkError "timeout")
  /\ run_events r
     = [EvConsole LogChecking;
        EvReceipt "0xLOST" (Rejected (mkError "timeout"))]
  /\ map_get "0xDONE" (pendingTransactions (run_state r))
     = Some (mkEntry 5 (JNum 10) (JStr "0xAAA"))
  /\ ~ removed_unsent "0xDONE" r.
Proof.
  cbv zeta. split; [reflexivity|]. split; [reflexivity|].
  split; [reflexivity|]. split; [reflexivity|].
  intros (Hgone & _). vm_compute in Hgone. discriminate.
Qed.
